(** * Image & PDF Toolkit: the client-side document pipelines

    A shallow embedding of the four browser components that carry the
    toolkit's logic:

    - [SplitPdf]    (src/Components/SplitPdf.jsx, [split]),
    - [MergePdf]    (MergePDF component, [mergePDFs], [onDrop]),
    - [CompressPdf] (CompressPDF component, [compressViaCanvas], [compress]),
    - [ImageReduce] (ImageReduce component, [handleUpload]).

    Every component is a React function component: its state lives in
    [useState] cells and its handlers are [async] functions that mutate the
    cells through their setters.  A handler is embedded as a state
    transformer over a record with one field per cell; a JavaScript
    exception is an explicit outcome, and the state written before a
    [throw] stays written, as it does in the browser.

    The third-party libraries (pdf-lib, pdfjs-dist, the canvas) are not
    part of the repository.  What they answer for a given file is part of
    the input: a file carries the answers the libraries give on its bytes
    (does it parse, is it encrypted, which pages copy, which pages
    render, what the native size of each page is).  The byte length the
    writers and encoders produce is left uninterpreted.

    A JavaScript number is the rational it stands for, and the products
    and quotients the handlers compute are rounded to binary64 as the
    engine rounds them ([Binary64.fl]). *)

From Stdlib Require Import String Ascii List Bool Arith NArith ZArith QArith.
From Stdlib Require Import Qround Qminmax Qabs Qpower Lia Lqa DecimalString.
From Stdlib Require DecimalNat DecimalFacts.
From Stdlib Require Import Permutation.
Import ListNotations.

Set Implicit Arguments.
Close Scope Q_scope.

(* ------------------------------------------------------------------ *)
(** ** JavaScript primitives used by the components *)

Module Js.

Local Open Scope Q_scope.

(** [Math.round]: the nearest integer, halves going up. *)
Definition Math_round (x : Q) : Z := Qfloor (x + (1 # 2)).

(** Template-literal rendering of a non-negative integer. *)
Definition string_of_nat (n : nat) : string :=
  NilZero.string_of_uint (Nat.to_uint n).

(** [String.prototype.toLowerCase], on ASCII letters. *)
Definition lower_ascii (c : ascii) : ascii :=
  let n := nat_of_ascii c in
  if ((65 <=? n) && (n <=? 90))%nat then ascii_of_nat (n + 32) else c.

Fixpoint toLowerCase (s : string) : string :=
  match s with
  | EmptyString => EmptyString
  | String c rest => String (lower_ascii c) (toLowerCase rest)
  end.

(** [s.endsWith(suffix)]. *)
Definition endsWith (s suffix : string) : bool :=
  let n := String.length s in
  let k := String.length suffix in
  ((k <=? n)%nat && String.eqb (substring (n - k) k s) suffix)%bool.

(** [parseInt(s, 10)]: leading white space, an optional sign, then the
    longest run of decimal digits; [None] is [NaN]. *)
Definition is_space (c : ascii) : bool :=
  let n := nat_of_ascii c in
  ((n =? 32) || ((9 <=? n) && (n <=? 13)))%nat.

Fixpoint trimStart (s : string) : string :=
  match s with
  | String c rest => if is_space c then trimStart rest else s
  | EmptyString => s
  end.

Definition digit_of (c : ascii) : option Z :=
  let n := nat_of_ascii c in
  if ((48 <=? n) && (n <=? 57))%nat then Some (Z.of_nat (n - 48)) else None.

Fixpoint digits (s : string) (acc : option Z) : option Z :=
  match s with
  | EmptyString => acc
  | String c rest =>
      match digit_of c with
      | Some d =>
          digits rest (Some (10 * match acc with Some a => a | None => 0 end + d)%Z)
      | None => acc
      end
  end.

Definition parseInt (s : string) : option Z :=
  match trimStart s with
  | String "-"%char rest => option_map Z.opp (digits rest None)
  | String "+"%char rest => digits rest None
  | t => digits t None
  end.

End Js.

(* ------------------------------------------------------------------ *)
(** ** Binary64 arithmetic *)

(** A finite JavaScript number is a rational of the form m * 2^e with
    |m| < 2^53 and e >= -1074.  The engine computes a product or a
    quotient exactly and then rounds it to the nearest such number, a
    tie going to the even significand; [fl] is that rounding.  Infinity
    is not a rational: a result beyond the largest finite number stays
    finite here.  The handlers only take [Math.min] of such a result
    with 1, or [Math.max] of its [Math.round] with 1, which come out
    the same. *)
Module Binary64.

Local Open Scope Q_scope.

Definition pow2 (e : Z) : Q := Qpower 2 e.

(** The exponent of the binade of a positive number: 2^e <= x < 2^(e+1). *)
Definition ilog2 (x : Q) : Z :=
  let k := (Z.log2 (Qnum x) - Z.log2 (Z.pos (Qden x)))%Z in
  if Qle_bool (pow2 k) x then k else (k - 1)%Z.

(** The nearest integer, a tie going to the even one. *)
Definition rne (t : Q) : Z :=
  let f := Qfloor t in
  match Qcompare (t - inject_Z f) (1 # 2) with
  | Lt => f
  | Gt => (f + 1)%Z
  | Eq => if Z.even f then f else (f + 1)%Z
  end.

(** The spacing of the binary64 numbers around a positive number: 52
    binary places below its leading bit, and 2^-1074 for the
    subnormals. *)
Definition ulp (x : Q) : Q := pow2 (Z.max (ilog2 x) (-1022) - 52).

Definition round_pos (x : Q) : Q := inject_Z (rne (x / ulp x)) * ulp x.

Definition fl (x : Q) : Q :=
  match Qcompare x 0 with
  | Eq => 0
  | Gt => round_pos x
  | Lt => - round_pos (- x)
  end.

(** The Number an integer converts to. *)
Definition Number_of_Z (z : Z) : Q := fl (inject_Z z).

End Binary64.

(* ------------------------------------------------------------------ *)
(** ** Async handlers: state plus exceptions *)

Module Async.

(** What a library call or a handler body ends with. *)
Inductive Exn : Type :=
| ParseError                       (* the bytes are not a document *)
| EncryptedPDFError                (* pdf-lib: encrypted, not ignored *)
| CopyError (index : nat)          (* pdf-lib: page object cannot be copied *)
| RenderError (pageNumber : nat)   (* pdfjs: page fails to rasterize *)
| BitmapError (message : string)   (* createImageBitmap rejects *)
| Error (message : string).        (* [throw new Error(message)] *)

Inductive Outcome (A : Type) : Type :=
| Returned (a : A)
| Thrown (e : Exn).

Arguments Returned {A} a.
Arguments Thrown {A} e.

(** A piece of handler code over component state [S]: the state it
    leaves, and how it ended. *)
Definition M (S A : Type) : Type := S -> S * Outcome A.

Definition ret {S A} (a : A) : M S A := fun s => (s, Returned a).

Definition bind {S A B} (c : M S A) (k : A -> M S B) : M S B :=
  fun s =>
    match c s with
    | (s', Returned a) => k a s'
    | (s', Thrown e) => (s', Thrown e)
    end.

(** A setter call. *)
Definition set {S} (f : S -> S) : M S unit := fun s => (f s, Returned tt).

(** [await] of a library promise that does not touch component state. *)
Definition await {S A} (o : Outcome A) : M S A := fun s => (s, o).

(** [try { body } catch (err) { handler } finally { fin }] where neither
    [handler] nor [fin] throws: the state the statement leaves. *)
Definition try_catch_finally {S A}
    (body : M S A) (handler : Exn -> S -> S) (fin : S -> S) : S -> S :=
  fun s =>
    match body s with
    | (s', Returned _) => fin s'
    | (s', Thrown e) => fin (handler e s')
    end.

Definition returned {A} (o : Outcome A) : bool :=
  match o with Returned _ => true | Thrown _ => false end.

End Async.

Import Async.

Declare Scope async_scope.
Delimit Scope async_scope with async.
Notation "x <- c1 ;; c2" := (bind c1 (fun x => c2))
  (at level 61, c1 at next level, right associativity) : async_scope.
Notation "c1 ;; c2" := (bind c1 (fun _ => c2))
  (at level 61, right associativity) : async_scope.

(* ------------------------------------------------------------------ *)
(** ** Documents as the libraries see them *)

Module Pdf.

(** One page of a source document.  [copyable] is whether pdf-lib's
    [copyPages] succeeds on the page object, [renderable] whether
    pdfjs's [page.render] resolves; [native_width] and [native_height]
    are the sides of the page box pdfjs scales, two JavaScript
    numbers. *)
Record Page : Type := mkPage {
  page_id : nat;
  native_width : Q;
  native_height : Q;
  copyable : bool;
  renderable : bool
}.

(** The bytes of an uploaded file, by what the decoders make of them:
    [parseable]: pdf-lib's parser accepts them; [encrypted]: the trailer
    has an [Encrypt] entry; [pdfjs_opens]: pdfjs's [getDocument]
    resolves. *)
Record Bytes : Type := mkBytes {
  parseable : bool;
  encrypted : bool;
  pdfjs_opens : bool;
  doc_pages : list Page
}.

(** A browser [File]. *)
Record File : Type := mkFile {
  name : string;
  type : string;
  size : N;
  arrayBuffer : Bytes
}.

(** A page of an output document: a structured page copied from a
    source, a full-page JPEG of the given pixel size, or the empty A4
    page [addPage()] makes when it is given nothing. *)
Inductive OutPage : Type :=
| Copied (p : Page)
| Image (width height : Z) (quality : Q) (source : Page)
| Blank.

(** A pdf-lib document under construction, and its saved form. *)
Definition PDFDocument : Type := list OutPage.

Record Blob : Type := mkBlob {
  blob_parts : PDFDocument;
  blob_type : string
}.

(** [PDFDocument.load(bytes, { ignoreEncryption })]: pdf-lib parses the
    bytes and then refuses an encrypted document unless told to ignore
    the encryption. *)
Definition PDFDocument_load (b : Bytes) (ignoreEncryption : bool)
  : Outcome (list Page) :=
  if negb (parseable b) then Thrown ParseError
  else if encrypted b && negb ignoreEncryption then Thrown EncryptedPDFError
  else Returned (doc_pages b).

Definition PDFDocument_create : PDFDocument := [].

(** [doc.getPageIndices()]: 0 .. pageCount-1. *)
Definition getPageIndices (doc : list Page) : list nat := seq 0 (length doc).

(** [target.copyPages(src, indices)]: the pages at the indices, in
    that order; throws at the first one that cannot be copied. *)
Fixpoint copyPages (src : list Page) (indices : list nat)
  : Outcome (list OutPage) :=
  match indices with
  | [] => Returned []
  | i :: rest =>
      match nth_error src i with
      | None => Thrown (CopyError i)
      | Some p =>
          if copyable p then
            match copyPages src rest with
            | Returned ps => Returned (Copied p :: ps)
            | Thrown e => Thrown e
            end
          else Thrown (CopyError i)
      end
  end.

(** [doc.addPage(p)] appends. *)
Definition addPage (doc : PDFDocument) (p : OutPage) : PDFDocument :=
  doc ++ [p].

(** [doc.save()]: the pages of the saved document.  pdf-lib's [save]
    has the option [addDefaultPage], true unless passed otherwise, and
    adds one blank page to a document that has none. *)
Definition PDFDocument_save (doc : PDFDocument) : PDFDocument :=
  match doc with
  | [] => [Blank]
  | _ => doc
  end.

(** [new Blob([await doc.save()], { type: "application/pdf" })]. *)
Definition save_blob (doc : PDFDocument) : Blob :=
  mkBlob (PDFDocument_save doc) "application/pdf".

(** [pdfjsLib.getDocument({ data }).promise]. *)
Definition getDocument (b : Bytes) : Outcome (list Page) :=
  if pdfjs_opens b then Returned (doc_pages b) else Thrown ParseError.

Definition all_copyable (ps : list Page) : bool := forallb copyable ps.

End Pdf.

Import Pdf.

(* ------------------------------------------------------------------ *)
(** ** SplitPDF (src/Components/SplitPdf.jsx) *)

Module SplitPdf.

Local Open Scope string_scope.
Local Open Scope async_scope.

(** An entry of the [splitPages] array: [{ url, pageNum, size }].  The
    object URL is identified with the blob it was created for. *)
Record SplitPage : Type := mkSplitPage {
  url : Blob;
  pageNum : nat;
  size : N
}.

(** The component's [useState] cells ([dragActive] is presentation only
    and left out); [null] is [None]. *)
Record State : Type := mkState {
  file : option File;
  pages : option nat;
  isSplitting : bool;
  progress : string;
  error : string;
  splitPages : option (list SplitPage)
}.

Definition initial : State := mkState None None false "" "" None.

Definition setFile v (s : State) : State :=
  mkState v (pages s) (isSplitting s) (progress s) (error s) (splitPages s).
Definition setPages v (s : State) : State :=
  mkState (file s) v (isSplitting s) (progress s) (error s) (splitPages s).
Definition setIsSplitting v (s : State) : State :=
  mkState (file s) (pages s) v (progress s) (error s) (splitPages s).
Definition setProgress v (s : State) : State :=
  mkState (file s) (pages s) (isSplitting s) v (error s) (splitPages s).
Definition setError v (s : State) : State :=
  mkState (file s) (pages s) (isSplitting s) (progress s) v (splitPages s).
Definition setSplitPages v (s : State) : State :=
  mkState (file s) (pages s) (isSplitting s) (progress s) (error s) v.

(** The pages handed to the caller: what the results panel lists. *)
Definition emitted (s : State) : list SplitPage :=
  match splitPages s with Some ps => ps | None => [] end.

Definition isPdfFile (f : File) : bool :=
  if String.eqb (type f) "application/pdf" then true
  else Js.endsWith (Js.toLowerCase (name f)) ".pdf".

(** [handleFileSet]: the state it leaves and the boolean it returns. *)
Definition handleFileSet (f : File) (s : State) : State * bool :=
  let s := setPages None (setSplitPages None (setError "" s)) in
  if negb (isPdfFile f) then (setError "Only PDF files are supported." s, false)
  else if (Pdf.size f =? 0)%N then (setError "Selected file is empty." s, false)
  else if (100 * 1024 * 1024 <? Pdf.size f)%N
       then (setError "File must be under 100 MB." s, false)
  else (setFile (Some f) s, true).

(** [readPdfPages]: the page count shown next to the file name. *)
Definition readPdfPages (f : File) : State -> State :=
  try_catch_finally
    (set (setProgress "Reading PDF...") ;;
     pdf <- await (PDFDocument_load (arrayBuffer f) true) ;;
     set (setPages (Some (length pdf))) ;;
     set (setProgress ""))
    (fun _ s => setProgress "" (setError "Failed to read PDF. The file may be corrupted." s))
    (fun s => s).

Section Split.

(** [blob.size]: the byte length pdf-lib's writer produces. *)
Variable byteLength : Blob -> N.

(** The [for] loop of [split], from index [i] on: [todo] are the values
    [i] still has to take and [results] the array built so far. *)
Fixpoint split_pages (pdfDoc : list Page) (pageIndices : list nat)
    (todo : list nat) (results : list SplitPage) : M State (list SplitPage) :=
  match todo with
  | [] => ret results
  | i :: rest =>
      set (setProgress ("Splitting page " ++ Js.string_of_nat (i + 1) ++ " / "
                        ++ Js.string_of_nat (length pageIndices) ++ "...")) ;;
      copied <- await (copyPages pdfDoc [nth i pageIndices 0]) ;;
      match copied with
      | copiedPage :: _ =>
          let newPdf := addPage PDFDocument_create copiedPage in
          let blob := save_blob newPdf in
          split_pages pdfDoc pageIndices rest
            (results ++ [mkSplitPage blob (i + 1) (byteLength blob)])
      | [] => await (Thrown (Error "copiedPage is undefined"))
      end
  end.

(** The [try] block of [split]. *)
Definition split_body (f : File) : M State unit :=
  pdfDoc <- await (PDFDocument_load (arrayBuffer f) true) ;;
  let pageIndices := getPageIndices pdfDoc in
  results <- split_pages pdfDoc pageIndices (seq 0 (length pageIndices)) [] ;;
  set (setSplitPages (Some results)) ;;
  set (setProgress "Completed").

(** [split], up to the point its promise settles.  The timer that
    clears [progress] 1500 ms later is [split_timeout]. *)
Definition split (s0 : State) : State :=
  let s := setError "" s0 in
  match file s with
  | None => setError "Please upload a PDF first." s
  | Some f =>
      let s := setSplitPages None
                 (setProgress "Loading PDF..." (setIsSplitting true s)) in
      try_catch_finally
        (split_body f)
        (fun _ => setError "Failed to split PDF. Try a different file.")
        (setIsSplitting false)
        s
  end.

Definition split_timeout : State -> State := setProgress "".

(** The result entry for the page at index [i]. *)
Definition page_result (i : nat) (p : Page) : SplitPage :=
  let blob := save_blob [Copied p] in
  mkSplitPage blob (i + 1) (byteLength blob).

End Split.

(** *** Vocabulary of the properties *)

(** The entries [split] builds for pages [ps], the first of which has
    index [k]. *)
Fixpoint results_from (byteLength : Blob -> N) (k : nat) (ps : list Page)
  : list SplitPage :=
  match ps with
  | [] => []
  | p :: rest => page_result byteLength k p :: results_from byteLength (S k) rest
  end.

(** The best-effort policy, in the specification's words: every page
    split before a failure is handed to the caller as its own document,
    and the failure is reported. *)
Definition best_effort (byteLength : Blob -> N) (f : File) (s' : State) : Prop :=
  (forall i p,
      nth_error (doc_pages (arrayBuffer f)) i = Some p ->
      forallb copyable (firstn (S i) (doc_pages (arrayBuffer f))) = true ->
      In (page_result byteLength i p) (emitted s')) /\
  error s' <> "".

End SplitPdf.

(* ------------------------------------------------------------------ *)
(** ** MergePDF *)

Module MergePdf.

Local Open Scope string_scope.
Local Open Scope async_scope.

Definition MAX_FILES : nat := 20.
Definition MAX_SIZE_BYTES : N := 200 * 1024 * 1024.

(** An entry of [items]: [{ id, file, name, size, pages }]. *)
Record Item : Type := mkItem {
  id : string;
  file : File;
  name : string;
  size : N;
  pages : option nat
}.

Record State : Type := mkState {
  items : list Item;
  isProcessing : bool;
  mergedUrl : option Blob;
  error : string;
  progress : string
}.

Definition initial : State := mkState [] false None "" "".

Definition setItems v (s : State) : State :=
  mkState v (isProcessing s) (mergedUrl s) (error s) (progress s).
Definition setIsProcessing v (s : State) : State :=
  mkState (items s) v (mergedUrl s) (error s) (progress s).
Definition setMergedUrl v (s : State) : State :=
  mkState (items s) (isProcessing s) v (error s) (progress s).
Definition setError v (s : State) : State :=
  mkState (items s) (isProcessing s) (mergedUrl s) v (progress s).
Definition setProgress v (s : State) : State :=
  mkState (items s) (isProcessing s) (mergedUrl s) (error s) v.

(** The first loop of [onDrop]: [count] is [items.length] as the
    callback captured it; every accepted file comes with the id that
    [Date.now()] and [Math.random()] give it. *)
Fixpoint collect (count : nat) (acceptedFiles : list (string * File))
    (newFiles : list Item) : M State (list Item) :=
  match acceptedFiles with
  | [] => ret newFiles
  | (fresh, f) :: rest =>
      if (MAX_FILES <=? count + length newFiles)%nat then
        set (setError ("Cannot add more than " ++ Js.string_of_nat MAX_FILES ++ " files.")) ;;
        ret newFiles
      else if negb (String.eqb (Pdf.type f) "application/pdf") then
        set (setError "Only PDF files are allowed.") ;;
        collect count rest newFiles
      else if (Pdf.size f <=? 0)%N then
        set (setError ("File " ++ Pdf.name f ++ " seems empty.")) ;;
        collect count rest newFiles
      else
        collect count rest
          (newFiles ++ [mkItem fresh f (Pdf.name f) (Pdf.size f) None])
  end.

(** [prev.map((it) => (it.id === nf.id ? { ...it, pages } : it))]. *)
Definition withPages (nfId : string) (n : nat) (prev : list Item) : list Item :=
  map (fun it => if String.eqb (id it) nfId
                 then mkItem (id it) (file it) (name it) (size it) (Some n)
                 else it) prev.

(** The second loop of [onDrop]: page counts, read in the background. *)
Fixpoint loadPageCounts (newFiles : list Item) (s : State) : State :=
  match newFiles with
  | [] => s
  | nf :: rest =>
      let s' :=
        match PDFDocument_load (arrayBuffer (file nf)) true with
        | Returned pdf => setItems (withPages (id nf) (length pdf) (items s)) s
        | Thrown _ => setItems (withPages (id nf) 0 (items s)) s
        end in
      loadPageCounts rest s'
  end.

Definition onDrop (acceptedFiles : list (string * File)) (s0 : State) : State :=
  let s := setError "" s0 in
  match acceptedFiles with
  | [] => s
  | _ =>
      match collect (length (items s0)) acceptedFiles [] s with
      | (s1, Returned []) => s1
      | (s1, Returned newFiles) =>
          loadPageCounts newFiles (setItems (items s1 ++ newFiles) s1)
      | (s1, Thrown _) => s1
      end
  end.

(** The [for] loop of [mergePDFs], from index [i] on. *)
Fixpoint merge_items (total : nat) (i : nat) (todo : list Item)
    (mergedDoc : PDFDocument) : M State PDFDocument :=
  match todo with
  | [] => ret mergedDoc
  | it :: rest =>
      set (setProgress ("Processing " ++ Js.string_of_nat (i + 1) ++ " / "
                        ++ Js.string_of_nat total ++ ": " ++ name it)) ;;
      pdf <- await (PDFDocument_load (arrayBuffer (file it)) false) ;;
      copied <- await (copyPages pdf (getPageIndices pdf)) ;;
      merge_items total (i + 1) rest (fold_left addPage copied mergedDoc)
  end.

(** The [try] block of [mergePDFs]. *)
Definition merge_body (its : list Item) : M State unit :=
  let mergedDoc := PDFDocument_create in
  mergedDoc <- merge_items (length its) 0 its mergedDoc ;;
  set (setProgress "Saving merged PDF...") ;;
  let blob := save_blob mergedDoc in
  set (setMergedUrl (Some blob)) ;;
  set (setProgress "Done").

(** [mergePDFs], up to the point its promise settles. *)
Definition mergePDFs (s0 : State) : State :=
  let s := setMergedUrl None (setError "" s0) in
  if (length (items s) <? 2)%nat then
    setError "Select at least two PDF files to merge." s
  else
    let totalSize := fold_left (fun acc it => acc + size it)%N (items s) 0%N in
    if (MAX_SIZE_BYTES <? totalSize)%N then
      setError "Total file size too large. Try fewer or smaller PDFs." s
    else
      let s := setProgress "Creating new document..." (setIsProcessing true s) in
      try_catch_finally
        (merge_body (items s))
        (fun _ => setError "Failed to merge PDFs. Try re-uploading the files.")
        (setIsProcessing false)
        s.

Definition merge_timeout : State -> State := setProgress "".

(** The pages of the merged document the caller can download. *)
Definition mergedPages (s : State) : option PDFDocument :=
  option_map blob_parts (mergedUrl s).

(** *** Vocabulary of the properties *)

(** The pages pdf-lib reads from an item's file. *)
Definition pagesOf (it : Item) : list Page := doc_pages (arrayBuffer (file it)).

(** [mergePDFs] can open the item's file. *)
Definition opens (it : Item) : bool :=
  returned (PDFDocument_load (arrayBuffer (file it)) false).

(** [mergePDFs] can open the item's file and copy all its pages. *)
Definition mergeable (it : Item) : bool :=
  opens it && all_copyable (pagesOf it).

Definition totalSize (its : list Item) : N :=
  fold_left (fun acc it => acc + size it)%N its 0%N.

End MergePdf.

(* ------------------------------------------------------------------ *)
(** ** CompressPDF *)

Module CompressPdf.

Local Open Scope string_scope.
Local Open Scope async_scope.

(** The [pageProgress] cell: [{ current, total }]. *)
Record PageProgress : Type := mkPageProgress {
  current : nat;
  total : nat
}.

(** The component's cells, and [reported]: every value handed to
    [setPageProgress] so far, oldest first.  [reported] is not a cell;
    it is what an observer of the progress cell has seen. *)
Record State : Type := mkState {
  file : option File;
  pages : option nat;
  isProcessing : bool;
  progress : string;
  error : string;
  resultUrl : option Blob;
  resultSize : option N;
  originalSize : option N;
  pageProgress : PageProgress;
  reported : list PageProgress
}.

Definition initial : State :=
  mkState None None false "" "" None None None (mkPageProgress 0 0) [].

Definition setFile v (s : State) : State :=
  mkState v (pages s) (isProcessing s) (progress s) (error s) (resultUrl s)
          (resultSize s) (originalSize s) (pageProgress s) (reported s).
Definition setPages v (s : State) : State :=
  mkState (file s) v (isProcessing s) (progress s) (error s) (resultUrl s)
          (resultSize s) (originalSize s) (pageProgress s) (reported s).
Definition setIsProcessing v (s : State) : State :=
  mkState (file s) (pages s) v (progress s) (error s) (resultUrl s)
          (resultSize s) (originalSize s) (pageProgress s) (reported s).
Definition setProgress v (s : State) : State :=
  mkState (file s) (pages s) (isProcessing s) v (error s) (resultUrl s)
          (resultSize s) (originalSize s) (pageProgress s) (reported s).
Definition setError v (s : State) : State :=
  mkState (file s) (pages s) (isProcessing s) (progress s) v (resultUrl s)
          (resultSize s) (originalSize s) (pageProgress s) (reported s).
Definition setResultUrl v (s : State) : State :=
  mkState (file s) (pages s) (isProcessing s) (progress s) (error s) v
          (resultSize s) (originalSize s) (pageProgress s) (reported s).
Definition setResultSize v (s : State) : State :=
  mkState (file s) (pages s) (isProcessing s) (progress s) (error s) (resultUrl s)
          v (originalSize s) (pageProgress s) (reported s).
Definition setOriginalSize v (s : State) : State :=
  mkState (file s) (pages s) (isProcessing s) (progress s) (error s) (resultUrl s)
          (resultSize s) v (pageProgress s) (reported s).
Definition setPageProgress v (s : State) : State :=
  mkState (file s) (pages s) (isProcessing s) (progress s) (error s) (resultUrl s)
          (resultSize s) (originalSize s) v (reported s ++ [v]).

(** [reset], the handler of the Reset button (never disabled). *)
Definition reset (s : State) : State :=
  setPageProgress (mkPageProgress 0 0)
    (setOriginalSize None
      (setError ""
        (setProgress ""
          (setIsProcessing false
            (setResultSize None
              (setResultUrl None
                (setPages None
                  (setFile None s)))))))).

(** [page.getViewport({ scale })]: each side of the page box times the
    scale, a binary64 product. *)
Record Viewport : Type := mkViewport { width : Q; height : Q }.

Definition getViewport (page : Page) (scale : Q) : Viewport :=
  mkViewport (Binary64.fl (native_width page * scale))
             (Binary64.fl (native_height page * scale)).

(** [Math.min(1, maxWidth / viewport.width)], the quotient in
    binary64; a zero width divides to [Infinity] in JavaScript, and the
    minimum is then 1. *)
Definition render_scale (maxWidth : Q) (viewport : Viewport) : Q :=
  if Qeq_bool (width viewport) 0 then 1%Q
  else Qmin 1 (Binary64.fl (maxWidth / width viewport)).

(** The canvas size chosen for a page. *)
Definition canvas_size (maxWidth : Q) (page : Page) : Z * Z :=
  let viewport := getViewport page 1 in
  let scale := render_scale maxWidth viewport in
  let scaledViewport := getViewport page scale in
  (Js.Math_round (width scaledViewport), Js.Math_round (height scaledViewport)).

(** One iteration of the page loop after its two setter calls: render
    page [p] into a canvas, encode the canvas as JPEG, embed it and size
    the new page to the image.  A canvas without area encodes to no
    data, which [embedJpg] rejects. *)
Definition rasterize (quality maxWidth : Q) (p : nat) (page : Page)
  : Outcome OutPage :=
  let (w, h) := canvas_size maxWidth page in
  if negb (renderable page) then Thrown (RenderError p)
  else if ((0 <? w) && (0 <? h))%Z then Returned (Image w h quality page)
  else Thrown (Error "embedJpg: no image data").

Section Compress.

(** [blob.size]: the byte length pdf-lib's writer produces. *)
Variable byteLength : Blob -> N.

(** What the handlers of other events do to the cells while the
    promises of page [p] are pending; the identity when the user
    leaves the page alone. *)
Variable meanwhile : nat -> State -> State.

(** The [for] loop of [compressViaCanvas], from page [p] on; [todo]
    are the pages [p], [p+1], ... still to come. *)
Fixpoint render_pages (quality maxWidth : Q) (numPages : nat) (p : nat)
    (todo : list Page) (outPdf : PDFDocument) : M State PDFDocument :=
  match todo with
  | [] => ret outPdf
  | page :: rest =>
      set (setProgress ("Rendering page " ++ Js.string_of_nat p ++ "/"
                        ++ Js.string_of_nat numPages ++ "...")) ;;
      set (setPageProgress (mkPageProgress p numPages)) ;;
      set (meanwhile p) ;;
      newPage <- await (rasterize quality maxWidth p page) ;;
      render_pages quality maxWidth numPages (p + 1) rest (addPage outPdf newPage)
  end.

Definition compressViaCanvas_with (fileObj : File) (quality maxWidth : Q)
  : M State Blob :=
  pdf <- await (getDocument (arrayBuffer fileObj)) ;;
  let numPages := length pdf in
  set (setPageProgress (mkPageProgress 0 numPages)) ;;
  let outPdf := PDFDocument_create in
  outPdf <- render_pages quality maxWidth numPages 1 pdf outPdf ;;
  set (setProgress "Finalizing...") ;;
  ret (save_blob outPdf).

(** [compress], up to the point its promise settles. *)
Definition compress_with (s0 : State) : State :=
  let s := setError "" s0 in
  match file s with
  | None => setError "Please upload a PDF first." s
  | Some f =>
      let s := setPageProgress (mkPageProgress 0 0)
                 (setResultSize None
                   (setResultUrl None
                     (setProgress "Starting compression..."
                       (setIsProcessing true s)))) in
      try_catch_finally
        (let quality := Binary64.fl (6 # 10) in
         let maxWidth := 1400%Q in
         outBlob <- compressViaCanvas_with f quality maxWidth ;;
         set (setResultUrl (Some outBlob)) ;;
         set (setResultSize (Some (byteLength outBlob))) ;;
         set (setProgress "Completed"))
        (fun _ => setError "Compression failed. Try a different PDF or use server-side tools for heavier compression.")
        (setIsProcessing false)
        s
  end.

End Compress.

(** No other event arrives during the run. *)
Definition undisturbed : nat -> State -> State := fun _ s => s.

(** The user presses Reset while page [k] is being processed. *)
Definition reset_during (k : nat) : nat -> State -> State :=
  fun p s => if (p =? k)%nat then reset s else s.

Definition compressViaCanvas := compressViaCanvas_with undisturbed.
Definition compress (byteLength : Blob -> N) := compress_with byteLength undisturbed.

(** The timer of [compress]'s [finally], 1200 ms after the run. *)
Definition compress_timeout (s : State) : State :=
  setPageProgress (mkPageProgress 0 0) (setProgress "" s).

(** The document the Download link points at. *)
Definition outputPages (s : State) : option PDFDocument :=
  option_map blob_parts (resultUrl s).

(** *** Vocabulary of the properties *)

(** The options [compress] passes; the quality is the number the
    literal [0.6] denotes. *)
Definition quality0 : Q := Binary64.fl (6 # 10).
Definition maxWidth0 : Q := 1400.

(** The page the loop adds for a source page that rasterizes. *)
Definition raster (quality maxWidth : Q) (page : Page) : OutPage :=
  Image (fst (canvas_size maxWidth page)) (snd (canvas_size maxWidth page)) quality page.

(** The source page goes through one turn of the loop without a throw. *)
Definition page_ok (quality maxWidth : Q) (page : Page) : bool :=
  returned (rasterize quality maxWidth 0 page).

(** The values reported between two states of a run. *)
Definition progress_trace (before after : State) : list PageProgress :=
  skipn (length (reported before)) (reported after).

Fixpoint nondecreasing (l : list nat) : Prop :=
  match l with
  | a :: (b :: _) as rest => a <= b /\ nondecreasing rest
  | _ => True
  end.

Definition failure_message : string :=
  "Compression failed. Try a different PDF or use server-side tools for heavier compression.".

(** The cells as [compress] leaves them when it calls
    [compressViaCanvas]. *)
Definition entering (s : State) : State :=
  setPageProgress (mkPageProgress 0 0)
    (setResultSize None
      (setResultUrl None
        (setProgress "Starting compression..."
          (setIsProcessing true (setError "" s))))).

End CompressPdf.

(* ------------------------------------------------------------------ *)
(** ** ImageReduce *)

Module ImageReduce.

Local Open Scope string_scope.
Local Open Scope async_scope.

(** A preset: [{ width, height, maxKB }]. *)
Record Preset : Type := mkPreset {
  width : Q;
  height : Q;
  maxKB : Q
}.

(** The presets of one exam: [{ photo, signature }]. *)
Record ExamPresets : Type := mkExamPresets {
  photo : option Preset;
  signature : option Preset
}.

Definition preset (w h k : Z) : option Preset :=
  Some (mkPreset (inject_Z w) (inject_Z h) (inject_Z k)).

Definition DEFAULT_EXAM_SIZES : list (string * ExamPresets) :=
  [ ("JEE Main", mkExamPresets (preset 350 450 100) (preset 160 50 30));
    ("NEET",     mkExamPresets (preset 350 450 100) (preset 160 50 30));
    ("SSC",      mkExamPresets (preset 200 230 50)  (preset 140 60 20));
    ("UPSC",     mkExamPresets (preset 300 350 40)  (preset 200 80 20));
    ("GATE",     mkExamPresets (preset 240 320 50)  (preset 200 60 20)) ].

(** [createImageBitmap]'s result: positive pixel dimensions, each an
    [unsigned long] of the platform. *)
Record ImageBitmap : Type := mkBitmap {
  bmp_width : Z;
  bmp_height : Z;
  bmp_unsigned_long :
    ((bmp_width <? 4294967296) && (bmp_height <? 4294967296))%Z = true
}.

Arguments mkBitmap : clear implicits.

(** The selected file, with the answer [createImageBitmap] gives on it. *)
Record ImageFile : Type := mkImageFile {
  type : string;
  size : N;
  bitmap : ImageBitmap + string
}.

(** The blob of the drawn canvas. *)
Record CanvasBlob : Type := mkCanvasBlob {
  canvas_width : Z;
  canvas_height : Z;
  mime : string;
  encoder_quality : Q;
  blob_size : N
}.

(** [{ url, sizeKB }] of the resized image. *)
Record Resized : Type := mkResized {
  url : CanvasBlob;
  sizeKB : Q
}.

Record State : Type := mkState {
  selectedFile : option ImageFile;
  customWidth : string;
  customHeight : string;
  quality : Q;
  format : string;
  exam : string;
  docType : string;
  loading : bool;
  error : string;
  success : bool;
  resizedImage : option Resized;
  examSizes : list (string * ExamPresets)
}.

Definition initial : State :=
  mkState None "" "" 80 "jpeg" "" "photo" false "" false None DEFAULT_EXAM_SIZES.

Definition setLoading v (s : State) : State :=
  mkState (selectedFile s) (customWidth s) (customHeight s) (quality s) (format s)
          (exam s) (docType s) v (error s) (success s) (resizedImage s) (examSizes s).
Definition setError v (s : State) : State :=
  mkState (selectedFile s) (customWidth s) (customHeight s) (quality s) (format s)
          (exam s) (docType s) (loading s) v (success s) (resizedImage s) (examSizes s).
Definition setSuccess v (s : State) : State :=
  mkState (selectedFile s) (customWidth s) (customHeight s) (quality s) (format s)
          (exam s) (docType s) (loading s) (error s) v (resizedImage s) (examSizes s).
Definition setResizedImage v (s : State) : State :=
  mkState (selectedFile s) (customWidth s) (customHeight s) (quality s) (format s)
          (exam s) (docType s) (loading s) (error s) (success s) v (examSizes s).

(** [bytesToKB]: [+(bytes / 1024).toFixed(1)]. *)
Definition bytesToKB (bytes : N) : Q :=
  (inject_Z (Js.Math_round (inject_Z (Z.of_N bytes) / 1024 * 10)) / 10)%Q.

Fixpoint lookup (key : string) (obj : list (string * ExamPresets)) : option ExamPresets :=
  match obj with
  | [] => None
  | (k, v) :: rest => if String.eqb k key then Some v else lookup key rest
  end.

(** [getCurrentConfig]. *)
Definition getCurrentConfig (s : State) : option Preset :=
  if String.eqb (exam s) "" || String.eqb (docType s) "" then None
  else
    match lookup (exam s) (examSizes s) with
    | None => None
    | Some examCfg =>
        if String.eqb (docType s) "photo" then photo examCfg
        else if String.eqb (docType s) "signature" then signature examCfg
        else None
    end.

(** [!x] on a number; [None] is [NaN]. *)
Definition falsy (x : option Q) : bool :=
  match x with None => true | Some q => Qeq_bool q 0 end.

Definition number (x : option Q) : Q :=
  match x with Some q => q | None => 0%Q end.

(** [s || "0"]. *)
Definition or_zero (s : string) : string := if String.eqb s "" then "0" else s.

(** The requested size, before it is clamped to the bitmap: the preset
    or the typed numbers, and half the bitmap when either is missing. *)
Definition requested (bmp : ImageBitmap) (cfg : option Preset)
    (customWidth customHeight : string) : Q * Q :=
  let (targetW, targetH) :=
    match cfg with
    | Some c =>
        (* Number(cfg.width) || 0 *)
        (Some (width c), Some (height c))
    | None =>
        (option_map Binary64.Number_of_Z (Js.parseInt (or_zero customWidth)),
         option_map Binary64.Number_of_Z (Js.parseInt (or_zero customHeight)))
    end in
  if falsy targetW || falsy targetH then
    (inject_Z (Js.Math_round (Binary64.fl (inject_Z (bmp_width bmp) * (1 # 2)))),
     inject_Z (Js.Math_round (Binary64.fl (inject_Z (bmp_height bmp) * (1 # 2)))))%Q
  else (number targetW, number targetH).

(** The scale applied to both sides of the bitmap: the smaller of the
    two binary64 quotients. *)
Definition resize_scale (bmp : ImageBitmap) (cfg : option Preset)
    (customWidth customHeight : string) : Q :=
  let (targetW, targetH) := requested bmp cfg customWidth customHeight in
  let targetW := Qmin targetW (inject_Z (bmp_width bmp)) in
  let targetH := Qmin targetH (inject_Z (bmp_height bmp)) in
  Qmin (Binary64.fl (targetW / inject_Z (bmp_width bmp)))
       (Binary64.fl (targetH / inject_Z (bmp_height bmp))).

(** [outW] and [outH]: each side times the scale, a binary64 product,
    rounded to a whole number of pixels. *)
Definition output_size (bmp : ImageBitmap) (cfg : option Preset)
    (customWidth customHeight : string) : Z * Z :=
  let scale := resize_scale bmp cfg customWidth customHeight in
  (Z.max 1 (Js.Math_round (Binary64.fl (inject_Z (bmp_width bmp) * scale))),
   Z.max 1 (Js.Math_round (Binary64.fl (inject_Z (bmp_height bmp) * scale)))).

Definition message (e : Exn) : string :=
  match e with
  | Error m => m
  | BitmapError m => m
  | _ => ""
  end.

Section Upload.

(** [canvas.toBlob]: the byte length of the encoded canvas, or [None]
    when the browser hands the callback [null]. *)
Variable toBlob : Z -> Z -> string -> Q -> option N.

(** The [try] block of [handleUpload]. *)
Definition upload_body (selected : ImageFile) (s0 : State) : M State unit :=
  bmp <- await (match bitmap selected with
                | inl b => Returned b
                | inr m => Thrown (BitmapError m)
                end) ;;
  let cfg := getCurrentConfig s0 in
  let (outW, outH) := output_size bmp cfg (customWidth s0) (customHeight s0) in
  let mime :=
    if String.eqb (format s0) "png" then "image/png"
    else if String.eqb (format s0) "webp" then "image/webp"
    else "image/jpeg" in
  let q := if String.eqb mime "image/png" then 1%Q
           else Qmax (Binary64.fl (1 # 100)) (Binary64.fl (quality s0 / 100)) in
  match toBlob outW outH mime q with
  | None => await (Thrown (Error "Failed to create image blob"))
  | Some n =>
      set (setResizedImage
             (Some (mkResized (mkCanvasBlob outW outH mime q n) (bytesToKB n)))) ;;
      set (setSuccess true)
  end.

Definition handleUpload (s0 : State) : State :=
  match selectedFile s0 with
  | None => setError "Please select an image first" s0
  | Some selected =>
      try_catch_finally
        (upload_body selected s0)
        (fun e => setError (if String.eqb (message e) ""
                            then "Failed to process image" else message e))
        (setLoading false)
        (setError "" (setLoading true s0))
  end.

End Upload.

End ImageReduce.

(* ------------------------------------------------------------------ *)
(** ** Sample inputs *)

Module Samples.

Local Open Scope string_scope.

(** An A4 page, sound or corrupt. *)
Definition a4 (n : nat) (ok : bool) : Page := mkPage n 595 842 ok ok.

(** A page 2000 wide. *)
Definition wide_page : Page := mkPage 1 2000 3000 true true.

(** A five-page document whose third page object is corrupt. *)
Definition five_pages_third_corrupt : File :=
  mkFile "report.pdf" "application/pdf" 5000
    (mkBytes true false true [a4 1 true; a4 2 true; a4 3 false; a4 4 true; a4 5 true]).

Definition five_pages : File :=
  mkFile "report.pdf" "application/pdf" 5000
    (mkBytes true false true [a4 1 true; a4 2 true; a4 3 true; a4 4 true; a4 5 true]).

Definition three_pages : File :=
  mkFile "scan.pdf" "application/pdf" 900000
    (mkBytes true false true [wide_page; a4 2 true; a4 3 true]).

Definition doc_A : File :=
  mkFile "a.pdf" "application/pdf" 3000
    (mkBytes true false true [a4 11 true; a4 12 true; a4 13 true]).

Definition doc_B : File :=
  mkFile "b.pdf" "application/pdf" 2000
    (mkBytes true false true [a4 21 true; a4 22 true]).

(** A well-formed document whose page tree is empty. *)
Definition no_pages : File :=
  mkFile "empty.pdf" "application/pdf" 300 (mkBytes true false true []).

(** Not a PDF at all. *)
Definition doc_garbage : File :=
  mkFile "c.pdf" "application/pdf" 700 (mkBytes false false false []).

(** A well-formed document with an [Encrypt] entry in its trailer. *)
Definition doc_encrypted : File :=
  mkFile "locked.pdf" "application/pdf" 2500
    (mkBytes true true true [a4 31 true; a4 32 true]).

(** A writer that spends 1000 bytes per page. *)
Definition flat_writer (b : Blob) : N := 1000 * N.of_nat (length (blob_parts b)).

(** The components with a file selected. *)
Definition split_loaded (f : File) : SplitPdf.State :=
  SplitPdf.setFile (Some f) SplitPdf.initial.

Definition compress_loaded (f : File) : CompressPdf.State :=
  CompressPdf.setOriginalSize (Some (Pdf.size f))
    (CompressPdf.setFile (Some f) CompressPdf.initial).

Definition item (ident : string) (f : File) : MergePdf.Item :=
  MergePdf.mkItem ident f (Pdf.name f) (Pdf.size f)
    (Some (length (doc_pages (arrayBuffer f)))).

Definition listed (its : list MergePdf.Item) : MergePdf.State :=
  MergePdf.setItems its MergePdf.initial.

Definition A : MergePdf.Item := item "1" doc_A.
Definition B : MergePdf.Item := item "2" doc_B.
Definition C : MergePdf.Item := item "3" doc_garbage.

(** Split of the five pages with the corrupt third. *)
Definition split_run : SplitPdf.State :=
  SplitPdf.split flat_writer (split_loaded five_pages_third_corrupt).

(** Compression of three pages, Reset pressed while page 2 is in the
    works. *)
Definition abandoned_run : CompressPdf.State :=
  CompressPdf.compress_with flat_writer (CompressPdf.reset_during 2)
    (compress_loaded three_pages).

(** A 1200 x 800 photograph, and a canvas encoder that spends a byte per
    ten pixels. *)
Definition photograph : ImageReduce.ImageFile :=
  ImageReduce.mkImageFile "image/jpeg" 480000
    (inl (ImageReduce.mkBitmap 1200 800 eq_refl)).

Definition flat_encoder (w h : Z) (mime : string) (q : Q) : option N :=
  Some (Z.to_N (w * h / 10)).

Definition selected (f : ImageReduce.ImageFile) (examName : string) : ImageReduce.State :=
  ImageReduce.mkState (Some f) "" "" 80 "jpeg" examName "photo" false "" false None
    ImageReduce.DEFAULT_EXAM_SIZES.

Definition typed (f : ImageReduce.ImageFile) (w h : string) : ImageReduce.State :=
  ImageReduce.mkState (Some f) w h 80 "jpeg" "" "photo" false "" false None
    ImageReduce.DEFAULT_EXAM_SIZES.

End Samples.

(* ------------------------------------------------------------------ *)
(** ** More JavaScript text primitives *)

Module JsText.

Local Open Scope string_scope.

(** [s.replace(pattern, replacement)] with a string pattern: the first
    occurrence only. *)
Fixpoint replace (pattern replacement s : string) : string :=
  match s with
  | EmptyString => if prefix pattern s then replacement else s
  | String c rest =>
      if prefix pattern s
      then replacement ++ substring (String.length pattern)
                            (String.length s - String.length pattern) s
      else String c (replace pattern replacement rest)
  end.

(** Decimal digits of a byte count or other non-negative integer. *)
Definition string_of_N (n : N) : string :=
  NilZero.string_of_uint (N.to_uint n).

(** [n] as exactly [width] decimal digits, zeros in front. *)
Fixpoint fraction_digits (width : nat) (n : N) : string :=
  match width with
  | O => EmptyString
  | S w =>
      fraction_digits w (n / 10)
      ++ String (ascii_of_N (48 + n mod 10)) EmptyString
  end.

(** [x.toFixed(digits)] for a finite [x] below 10^21: the integer n
    nearest to |x| * 10^digits, the larger one of two, written with a
    decimal point before its last [digits] digits. *)
Definition toFixed (x : Q) (digits : nat) : string :=
  let scaled := (Qabs x * inject_Z (10 ^ Z.of_nat digits))%Q in
  let n := Z.to_N (Qfloor (scaled + (1 # 2))%Q) in
  let unit := (10 ^ N.of_nat digits)%N in
  let sign := if Qlt_le_dec x 0 then "-" else "" in
  sign ++ string_of_N (n / unit)
       ++ match digits with
          | O => ""
          | _ => "." ++ fraction_digits digits (n mod unit)
          end.

End JsText.

(* ------------------------------------------------------------------ *)
(** ** SplitPDF: the download and reset handlers *)

Module SplitPdfUi.

Import SplitPdf.
Local Open Scope string_scope.
Local Open Scope async_scope.

(** [humanSize] as SplitPDF has it. *)
Definition humanSize (bytes : N) : string :=
  if (bytes =? 0)%N then "0 B"
  else if (bytes <? 1024)%N then JsText.string_of_N bytes ++ " B"
  else if (bytes <? 1024 * 1024)%N
       then JsText.toFixed (inject_Z (Z.of_N bytes) / 1024)%Q 1 ++ " KB"
  else JsText.toFixed (inject_Z (Z.of_N bytes) / (1024 * 1024))%Q 2 ++ " MB".

(** An anchor the handler clicks: [a.href] and [a.download]. *)
Record Download : Type := mkDownload {
  href : Blob;
  download : string
}.

(** The name a page is saved under. *)
Definition downloadName (fileName : string) (p : SplitPage) : string :=
  JsText.replace ".pdf" "" fileName ++ "_page_" ++ Js.string_of_nat (pageNum p) ++ ".pdf".

(** [downloadSingle]: the anchor it clicks; reading [file.name] of no
    file throws. *)
Definition downloadSingle (s : State) (p : SplitPage) : Outcome Download :=
  match file s with
  | Some f => Returned (mkDownload (url p) (downloadName (Pdf.name f) p))
  | None => Thrown (Error "Cannot read properties of null")
  end.

(** The loop of [downloadAll]: the anchors clicked so far are [clicked]. *)
Fixpoint click_all (s : State) (todo : list SplitPage) (clicked : list Download)
  : list Download * Outcome unit :=
  match todo with
  | [] => (clicked, Returned tt)
  | p :: rest =>
      match downloadSingle s p with
      | Returned a => click_all s rest (clicked ++ [a])%list
      | Thrown e => (clicked, Thrown e)
      end
  end.

(** [downloadAll], up to the point its promise settles: the state it
    leaves and the anchors it clicked, in order. *)
Definition downloadAll (s : State) : State * list Download :=
  match splitPages s with
  | None => (s, [])
  | Some [] => (s, [])
  | Some ps =>
      let s1 := setProgress "Preparing download..." s in
      match click_all s ps [] with
      | (clicked, Returned _) => (setProgress "All pages downloaded" s1, clicked)
      | (clicked, Thrown _) => (setError "Failed to download all pages." s1, clicked)
      end
  end.

End SplitPdfUi.

(* ------------------------------------------------------------------ *)
(** ** MergePDF: the list handlers *)

Module MergePdfList.

Import MergePdf.
Local Open Scope string_scope.
Local Open Scope list_scope.

(** The array [moveItem] returns for [prev]; an entry [None] is
    [undefined].  [from] and [to] are the non-negative indices the
    buttons and the drop handler pass.  [splice(from, 1)] removes nothing
    when [from] is past the end, and [item] is then [undefined];
    [splice(to, 0, item)] inserts at the end when [to] is past it. *)
Definition moveItem {A} (from to : nat) (prev : list A) : list (option A) :=
  let arr := map Some prev in
  let item := nth_error prev from in
  let arr := firstn from arr ++ skipn (S from) arr in
  firstn to arr ++ item :: skipn to arr.

(** The Move up button of row [idx]: [idx > 0 && moveItem(idx, idx - 1)]. *)
Definition moveUp {A} (idx : nat) (prev : list A) : list (option A) :=
  if (0 <? idx)%nat then moveItem idx (idx - 1) prev else map Some prev.

(** The Move down button of row [idx]:
    [idx < items.length - 1 && moveItem(idx, idx + 1)]. *)
Definition moveDown {A} (idx : nat) (prev : list A) : list (option A) :=
  if (Z.of_nat idx <? Z.of_nat (length prev) - 1)%Z
  then moveItem idx (idx + 1) prev else map Some prev.

(** [onDropItem]: a row dragged from [dragIndex] and dropped on row
    [index]; [None] is a drag index of [null]. *)
Definition onDropItem {A} (dragIndex : option nat) (index : nat) (prev : list A)
  : list (option A) :=
  match dragIndex with
  | None => map Some prev
  | Some from => if (from =? index)%nat then map Some prev else moveItem from index prev
  end.

(** [removeItem]. *)
Definition removeItem (ident : string) (s : State) : State :=
  setItems (filter (fun it => negb (String.eqb (id it) ident)) (items s)) s.

(** The quick stats: estimated pages. *)
Definition statEstimatedPages (s : State) : nat :=
  fold_left (fun acc it => acc + match pages it with Some n => n | None => 0 end)
    (items s) 0.

(** [humanSize] as MergePDF has it. *)
Definition humanSize (bytes : N) : string :=
  (if (bytes <? 1024)%N then JsText.string_of_N bytes ++ " B"
   else if (bytes <? 1024 * 1024)%N
        then JsText.toFixed (inject_Z (Z.of_N bytes) / 1024)%Q 1 ++ " KB"
   else JsText.toFixed (inject_Z (Z.of_N bytes) / (1024 * 1024))%Q 2 ++ " MB")%string.

End MergePdfList.

(* ------------------------------------------------------------------ *)
(** ** MergePDF: vocabulary for the list handlers *)

Module MergePdfVocabulary.

Import MergePdf.
Local Open Scope string_scope.

(** The two checks [onDrop] makes on a dropped file. *)
Definition acceptable (f : File) : bool :=
  String.eqb (Pdf.type f) "application/pdf" && negb (Pdf.size f <=? 0)%N.

(** The dropped files [onDrop] adds to a list of [count] rows: the
    acceptable ones, in the order dropped, as far as there is room. *)
Definition admitted (count : nat) (acceptedFiles : list (string * File))
  : list (string * File) :=
  firstn (MAX_FILES - count) (filter (fun x => acceptable (snd x)) acceptedFiles).

(** The page count the background read arrives at: zero for bytes
    pdf-lib cannot parse. *)
Definition pageCount (f : File) : nat :=
  match PDFDocument_load (arrayBuffer f) true with
  | Returned pdf => length pdf
  | Thrown _ => 0
  end.

(** The row a dropped file ends up as. *)
Definition listedAs (x : string * File) : Item :=
  mkItem (fst x) (snd x) (Pdf.name (snd x)) (Pdf.size (snd x)) (Some (pageCount (snd x))).

(** The row as first added, its page count not read yet. *)
Definition pendingAs (x : string * File) : Item :=
  mkItem (fst x) (snd x) (Pdf.name (snd x)) (Pdf.size (snd x)) None.

(** The row with its page count read. *)
Definition counted (it : Item) : Item :=
  mkItem (id it) (file it) (name it) (size it) (Some (pageCount (file it))).

End MergePdfVocabulary.

(* ------------------------------------------------------------------ *)
(** ** CompressPDF: file selection *)

Module CompressPdfUi.

Import CompressPdf.
Local Open Scope string_scope.
Local Open Scope async_scope.

(** [humanSize] as CompressPDF has it; its first test,
    [!bytes && bytes !== 0], holds of no byte count. *)
Definition humanSize (bytes : N) : string :=
  if (bytes <? 1024)%N then JsText.string_of_N bytes ++ " B"
  else if (bytes <? 1024 * 1024)%N
       then JsText.toFixed (inject_Z (Z.of_N bytes) / 1024)%Q 1 ++ " KB"
  else JsText.toFixed (inject_Z (Z.of_N bytes) / (1024 * 1024))%Q 2 ++ " MB".

Definition isPdfFile (f : File) : bool :=
  if String.eqb (type f) "application/pdf" then true
  else Js.endsWith (Js.toLowerCase (name f)) ".pdf".

(** [handleFileSet]: the state it leaves and the boolean it returns. *)
Definition handleFileSet (f : File) (s : State) : State * bool :=
  let s := setPageProgress (mkPageProgress 0 0)
             (setPages None (setResultSize None (setResultUrl None (setError "" s)))) in
  if negb (isPdfFile f) then (setError "Only PDF files are supported." s, false)
  else if (Pdf.size f =? 0)%N then (setError "Selected file is empty." s, false)
  else (setOriginalSize (Some (Pdf.size f)) (setFile (Some f) s), true).

(** [readPdf]: the page count shown next to the file name. *)
Definition readPdf (f : File) : State -> State :=
  try_catch_finally
    (set (setProgress "Reading PDF...") ;;
     pdfDoc <- await (PDFDocument_load (arrayBuffer f) true) ;;
     set (setPages (Some (length pdfDoc))) ;;
     set (setProgress ""))
    (fun _ s =>
       setProgress ""
         (setError "Failed to read PDF file. The file may be corrupted or unsupported." s))
    (fun s => s).

(** [onFileInputChange] and [handleDrop]: select, then read. *)
Definition selectFile (f : File) (s : State) : State :=
  let (s1, ok) := handleFileSet f s in
  if ok then readPdf f s1 else s1.

End CompressPdfUi.

(* ------------------------------------------------------------------ *)
(** ** The background-removal proxy (server/index.js) *)

Module Server.

Local Open Scope string_scope.

(** [req.file], as multer's memory storage fills it. *)
Record Upload : Type := mkUpload {
  buffer : list Byte.byte;
  originalname : string;
  mimetype : string
}.

(** remove.bg's answer to the forwarded form. *)
Record Upstream : Type := mkUpstream {
  upstream_status : nat;
  upstream_text : string;
  upstream_bytes : list Byte.byte
}.

(** [response.ok]: a status in 200..299. *)
Definition ok (status : nat) : bool := ((200 <=? status) && (status <=? 299))%nat.

Inductive Body : Type :=
| Json (text : string)
| Text (text : string)
| Binary (bytes : list Byte.byte).

(** What the handler sends back. *)
Record Reply : Type := mkReply {
  status : nat;
  contentType : string;
  body : Body
}.

Definition quote : string := String (ascii_of_nat 34) EmptyString.

(** [JSON.stringify({ error: message })] for a message without
    characters that need escaping. *)
Definition error_json (message : string) : string :=
  "{" ++ quote ++ "error" ++ quote ++ ":" ++ quote ++ message ++ quote ++ "}".

(** The handler of [POST /api/remove-bg]; [removebg] is the call to
    remove.bg with the form built from the upload. *)
Definition remove_bg (removebg : Upload -> Outcome Upstream) (file : option Upload) : Reply :=
  match file with
  | None => mkReply 400 "application/json" (Json (error_json "No file uploaded"))
  | Some upload =>
      match removebg upload with
      | Thrown _ => mkReply 500 "application/json" (Json (error_json "Proxy error"))
      | Returned response =>
          if negb (ok (upstream_status response))
          then mkReply (upstream_status response) "text/html" (Text (upstream_text response))
          else mkReply 200 "image/png" (Binary (upstream_bytes response))
      end
  end.

End Server.

(* ------------------------------------------------------------------ *)
(** ** Removebg *)

Module Removebg.

Local Open Scope string_scope.
Local Open Scope async_scope.

(** The selected image. *)
Record ImageFile : Type := mkImageFile {
  name : string;
  type : string;
  size : N;
  content : list Byte.byte
}.

Record State : Type := mkState {
  preview : option string;
  file : option ImageFile;
  processedImage : option (list Byte.byte);
  loading : bool;
  error : string;
  success : bool
}.

Definition initial : State := mkState None None None false "" false.

Definition setPreview v (s : State) : State :=
  mkState v (file s) (processedImage s) (loading s) (error s) (success s).
Definition setFile v (s : State) : State :=
  mkState (preview s) v (processedImage s) (loading s) (error s) (success s).
Definition setProcessedImage v (s : State) : State :=
  mkState (preview s) (file s) v (loading s) (error s) (success s).
Definition setLoading v (s : State) : State :=
  mkState (preview s) (file s) (processedImage s) v (error s) (success s).
Definition setError v (s : State) : State :=
  mkState (preview s) (file s) (processedImage s) (loading s) v (success s).
Definition setSuccess v (s : State) : State :=
  mkState (preview s) (file s) (processedImage s) (loading s) (error s) v.

(** [handleImageUpload], without the preview the file reader delivers
    later; [None] is an empty selection. *)
Definition handleImageUpload (selection : option ImageFile) (s : State) : State :=
  match selection with
  | None => s
  | Some f =>
      let s := setProcessedImage None (setSuccess false (setError "" s)) in
      if negb (prefix "image/" (type f)) then setError "Please upload a valid image file" s
      else if (12 * 1024 * 1024 <? size f)%N
           then setError "Image size must be less than 12MB" s
      else setFile (Some f) s
  end.

(** [resp.text()] and [resp.blob()] of a reply. *)
Definition text_of (b : Server.Body) : string :=
  match b with
  | Server.Json t => t
  | Server.Text t => t
  | Server.Binary bytes => string_of_list_byte bytes
  end.

Definition blob_of (b : Server.Body) : list Byte.byte :=
  match b with
  | Server.Json t => list_byte_of_string t
  | Server.Text t => list_byte_of_string t
  | Server.Binary bytes => bytes
  end.

Definition message (e : Exn) : string :=
  match e with
  | Error m => m
  | BitmapError m => m
  | _ => ""
  end.

(** The [try] block of [removeBackground]; [post] is the request to
    the proxy with the file in the form field [image]. *)
Definition remove_body (post : ImageFile -> Outcome Server.Reply) (f : ImageFile)
  : M State unit :=
  resp <- await (post f) ;;
  if negb (Server.ok (Server.status resp)) then
    let txt := text_of (Server.body resp) in
    await (Thrown (Error (if String.eqb txt "" then "Failed to remove background" else txt)))
  else
    set (setProcessedImage (Some (blob_of (Server.body resp)))) ;;
    set (setSuccess true).

Definition removeBackground (post : ImageFile -> Outcome Server.Reply) (s : State) : State :=
  match file s with
  | None => setError "Please upload an image first" s
  | Some f =>
      try_catch_finally
        (remove_body post f)
        (fun e => setError (if String.eqb (message e) ""
                            then "Error processing image" else message e))
        (setLoading false)
        (setError "" (setLoading true s))
  end.

(** The request as it reaches the proxy when the network delivers it:
    multer turns the form field into [req.file]. *)
Definition through_proxy (removebg : Server.Upload -> Outcome Server.Upstream)
    (f : ImageFile) : Outcome Server.Reply :=
  Returned (Server.remove_bg removebg
              (Some (Server.mkUpload (content f) (name f) (type f)))).

End Removebg.

(* ------------------------------------------------------------------ *)
(** ** Sample inputs for the further handlers *)

Module MoreSamples.

Local Open Scope string_scope.

(** A split that went through, for a file named in capitals. *)
Definition five_split : SplitPdf.State :=
  SplitPdf.split Samples.flat_writer (Samples.split_loaded Samples.five_pages).

Definition big_scan : File :=
  mkFile "Archive.PDF" "" 157286400 (mkBytes true false true [Samples.a4 1 true]).

Definition logo : Removebg.ImageFile :=
  Removebg.mkImageFile "logo.png" "image/png" 2048 [Byte.x89; Byte.x50; Byte.x4e; Byte.x47].

Definition with_logo : Removebg.State :=
  Removebg.setFile (Some logo) Removebg.initial.

(** remove.bg out of credits. *)
Definition out_of_credits (_ : Server.Upload) : Outcome Server.Upstream :=
  Returned (Server.mkUpstream 402 "Insufficient credits" []).

Definition cut_out (u : Server.Upload) : Outcome Server.Upstream :=
  Returned (Server.mkUpstream 200 "" (Server.buffer u)).

End MoreSamples.

(* ================================================================== *)
(** * Properties *)

(** ** Rounding *)

Module JsFacts.

Import Js.
Local Open Scope Q_scope.

Lemma Math_round_Z (z : Z) : Math_round (inject_Z z) = z.
Proof.
  unfold Math_round.
  assert (Hlo : (z <= Qfloor (inject_Z z + (1 # 2)))%Z).
  { rewrite <- (Qfloor_Z z) at 1. apply Qfloor_resp_le.
    rewrite <- (Qplus_0_r (inject_Z z)) at 1.
    apply Qplus_le_r. discriminate. }
  assert (Hhi : (Qfloor (inject_Z z + (1 # 2)) < z + 1)%Z).
  { rewrite Zlt_Qlt. eapply Qle_lt_trans; [apply Qfloor_le|].
    rewrite inject_Z_plus. apply Qplus_lt_r. reflexivity. }
  lia.
Qed.

Lemma Math_round_comp (x y : Q) : x == y -> Math_round x = Math_round y.
Proof. intros H. unfold Math_round. apply Qfloor_comp. now rewrite H. Qed.

Lemma Math_round_mono (x y : Q) : x <= y -> (Math_round x <= Math_round y)%Z.
Proof.
  intros H. unfold Math_round. apply Qfloor_resp_le.
  now apply Qplus_le_l.
Qed.

(** A rounded value is within half a unit of the exact one. *)
Lemma Math_round_near (x : Q) :
  x - (1 # 2) < inject_Z (Math_round x) /\ inject_Z (Math_round x) <= x + (1 # 2).
Proof.
  unfold Math_round. split.
  - pose proof (Qlt_floor (x + (1 # 2))) as H.
    rewrite inject_Z_plus in H.
    apply Qplus_lt_l with (z := 1).
    eapply Qle_lt_trans; [|exact H].
    ring_simplify. apply Qle_refl.
  - apply Qfloor_le.
Qed.

End JsFacts.

(** ** Binary64 rounding *)

Module Binary64Facts.

Import Binary64.
Local Open Scope Q_scope.

Lemma two_nonzero : ~ 2 == 0.
Proof. discriminate. Qed.

Lemma pow2_pos e : 0 < pow2 e.
Proof. apply Qpower_0_lt. reflexivity. Qed.

Lemma pow2_plus a b : pow2 (a + b) == pow2 a * pow2 b.
Proof. apply Qpower_plus, two_nonzero. Qed.

Lemma pow2_minus a b : pow2 (a - b) == pow2 a / pow2 b.
Proof. apply Qpower_minus, two_nonzero. Qed.

Lemma pow2_le a b : (a <= b)%Z -> pow2 a <= pow2 b.
Proof. intros H. apply Qpower_le_compat_l; [exact H|discriminate]. Qed.

Lemma pow2_lt a b : (a < b)%Z -> pow2 a < pow2 b.
Proof. intros H. apply Qpower_lt_compat_l; [exact H|reflexivity]. Qed.

Lemma pow2_lt_inv a b : pow2 a < pow2 b -> (a < b)%Z.
Proof. intros H. apply (Qpower_lt_compat_l_inv 2); [exact H|reflexivity]. Qed.

Lemma pow2_Z e : (0 <= e)%Z -> pow2 e == inject_Z (2 ^ e).
Proof. intros H. unfold pow2. now rewrite Zpower_Qpower. Qed.

(** Comparing a fraction with a quotient of two powers of two. *)
Lemma frac_lt_pow2 (n : Z) (d : positive) (a b : Z) :
  (0 <= a)%Z -> (0 <= b)%Z ->
  (n * 2 ^ b < 2 ^ a * Z.pos d)%Z -> n # d < pow2 (a - b).
Proof.
  intros Ha Hb H. rewrite pow2_minus, !pow2_Z by assumption.
  apply Qlt_shift_div_l.
  - change 0 with (inject_Z 0). rewrite <- Zlt_Qlt. apply Z.pow_pos_nonneg; lia.
  - unfold Qlt, Qmult, inject_Z. cbn [Qnum Qden]. rewrite Pos.mul_1_r. lia.
Qed.

Lemma pow2_le_frac (n : Z) (d : positive) (a b : Z) :
  (0 <= a)%Z -> (0 <= b)%Z ->
  (2 ^ a * Z.pos d <= n * 2 ^ b)%Z -> pow2 (a - b) <= n # d.
Proof.
  intros Ha Hb H. rewrite pow2_minus, !pow2_Z by assumption.
  apply Qle_shift_div_r.
  - change 0 with (inject_Z 0). rewrite <- Zlt_Qlt. apply Z.pow_pos_nonneg; lia.
  - unfold Qle, Qmult, inject_Z. cbn [Qnum Qden]. rewrite Pos.mul_1_r. lia.
Qed.

(** [ilog2 x] is the exponent of the binade of [x]. *)
Lemma ilog2_spec (x : Q) :
  0 < x -> pow2 (ilog2 x) <= x /\ x < pow2 (ilog2 x + 1).
Proof.
  destruct x as [n d]. intros Hpos.
  assert (Hn : (0 < n)%Z).
  { unfold Qlt in Hpos. cbn in Hpos. lia. }
  unfold ilog2. cbn [Qnum Qden].
  pose proof (Z.log2_spec n Hn) as [Hn1 Hn2].
  pose proof (Z.log2_spec (Z.pos d) (Pos2Z.is_pos d)) as [Hd1 Hd2].
  pose proof (Z.log2_nonneg n) as Ha.
  pose proof (Z.log2_nonneg (Z.pos d)) as Hb.
  set (a := Z.log2 n) in *. set (b := Z.log2 (Z.pos d)) in *.
  rewrite <- !Z.add_1_r in Hn2, Hd2.
  assert (Hpa : (2 ^ (a + 1) = 2 * 2 ^ a)%Z) by (rewrite Z.pow_add_r by lia; lia).
  assert (Hpb : (2 ^ (b + 1) = 2 * 2 ^ b)%Z) by (rewrite Z.pow_add_r by lia; lia).
  assert (Hpa0 : (0 < 2 ^ a)%Z) by (apply Z.pow_pos_nonneg; lia).
  assert (Hpb0 : (0 < 2 ^ b)%Z) by (apply Z.pow_pos_nonneg; lia).
  destruct (Qle_bool (pow2 (a - b)) (n # d)) eqn:Hle.
  - apply Qle_bool_iff in Hle. split; [exact Hle|].
    replace (a - b + 1)%Z with ((a + 1) - b)%Z by lia.
    apply frac_lt_pow2; try lia. rewrite Hpa. nia.
  - assert (Hlt : n # d < pow2 (a - b)).
    { apply Qnot_le_lt. intros H. apply Qle_bool_iff in H. congruence. }
    replace (a - b - 1 + 1)%Z with (a - b)%Z by lia.
    split; [|exact Hlt].
    replace (a - b - 1)%Z with (a - (b + 1))%Z by lia.
    apply pow2_le_frac; try lia. rewrite Hpb. nia.
Qed.

Lemma ilog2_unique (x : Q) (e : Z) :
  0 < x -> pow2 e <= x -> x < pow2 (e + 1) -> ilog2 x = e.
Proof.
  intros Hx Hlo Hhi. destruct (ilog2_spec Hx) as [Hlo' Hhi'].
  assert (H1 : (ilog2 x < e + 1)%Z).
  { apply pow2_lt_inv. eapply Qle_lt_trans; eassumption. }
  assert (H2 : (e < ilog2 x + 1)%Z).
  { apply pow2_lt_inv. eapply Qle_lt_trans; eassumption. }
  lia.
Qed.

Lemma ilog2_comp (x y : Q) : 0 < x -> x == y -> ilog2 x = ilog2 y.
Proof.
  intros Hx Heq. assert (Hy : 0 < y) by now rewrite <- Heq.
  destruct (ilog2_spec Hy) as [Hlo Hhi].
  apply ilog2_unique; [exact Hx| |]; now rewrite Heq.
Qed.

Lemma ilog2_mono (x y : Q) : 0 < x -> x <= y -> (ilog2 x <= ilog2 y)%Z.
Proof.
  intros Hx Hle. assert (Hy : 0 < y) by (eapply Qlt_le_trans; eassumption).
  destruct (ilog2_spec Hx) as [Hlo _]. destruct (ilog2_spec Hy) as [_ Hhi].
  assert (H : (ilog2 x < ilog2 y + 1)%Z).
  { apply pow2_lt_inv. eapply Qle_lt_trans; [exact Hlo|].
    eapply Qle_lt_trans; eassumption. }
  lia.
Qed.

(** *** Rounding to the nearest integer, ties to even *)

Lemma rne_cases (t : Q) :
  let f := Qfloor t in
  (rne t = f /\ t - inject_Z f <= 1 # 2) \/
  (rne t = (f + 1)%Z /\ 1 # 2 <= t - inject_Z f).
Proof.
  cbv zeta. unfold rne.
  destruct (Qcompare_spec (t - inject_Z (Qfloor t)) (1 # 2)) as [H|H|H].
  - destruct (Z.even (Qfloor t)); [left|right]; (split; [reflexivity|lra]).
  - left. split; [reflexivity|lra].
  - right. split; [reflexivity|lra].
Qed.

Lemma rne_near (t : Q) :
  t - (1 # 2) <= inject_Z (rne t) /\ inject_Z (rne t) <= t + (1 # 2).
Proof.
  pose proof (Qfloor_le t) as Hlo. pose proof (Qlt_floor t) as Hhi.
  rewrite inject_Z_plus in Hhi. change (inject_Z 1) with 1 in Hhi.
  destruct (rne_cases t) as [[-> H]|[-> H]].
  - split; lra.
  - rewrite inject_Z_plus. change (inject_Z 1) with 1. split; lra.
Qed.

Lemma rne_Z (z : Z) : rne (inject_Z z) = z.
Proof.
  unfold rne. rewrite Qfloor_Z.
  destruct (Qcompare_spec (inject_Z z - inject_Z z) (1 # 2)) as [H|H|H];
    [lra|reflexivity|lra].
Qed.

Lemma rne_comp (t u : Q) : t == u -> rne t = rne u.
Proof.
  intros H. unfold rne. rewrite (Qfloor_comp t u H).
  now rewrite (Qcompare_comp (t - inject_Z (Qfloor u)) (u - inject_Z (Qfloor u))
                 ltac:(now rewrite H) (1 # 2) (1 # 2) ltac:(reflexivity)).
Qed.

Lemma rne_mono (t u : Q) : t <= u -> (rne t <= rne u)%Z.
Proof.
  intros Hle. pose proof (Qfloor_resp_le t u Hle) as Hf.
  destruct (Z.eq_dec (Qfloor t) (Qfloor u)) as [Heq|Hne].
  - unfold rne. rewrite Heq.
    destruct (Qcompare_spec (t - inject_Z (Qfloor u)) (1 # 2)) as [H1|H1|H1];
      destruct (Qcompare_spec (u - inject_Z (Qfloor u)) (1 # 2)) as [H2|H2|H2];
      try lia; try lra; destruct (Z.even (Qfloor u)); lia.
  - destruct (rne_cases t) as [[-> _]|[-> _]];
      destruct (rne_cases u) as [[-> _]|[-> _]]; lia.
Qed.

(** *** Rounding a positive number *)

Lemma ulp_pos x : 0 < ulp x.
Proof. apply pow2_pos. Qed.

Lemma ulp_comp (x y : Q) : 0 < x -> x == y -> ulp x = ulp y.
Proof. intros Hx H. unfold ulp. now rewrite (ilog2_comp Hx H). Qed.

Lemma round_pos_comp (x y : Q) : 0 < x -> x == y -> round_pos x == round_pos y.
Proof.
  intros Hx H. unfold round_pos. rewrite (ulp_comp Hx H).
  rewrite (rne_comp (t := x / ulp y) (u := y / ulp y)); [reflexivity|].
  now rewrite H.
Qed.

Lemma round_pos_near (x : Q) :
  x - ulp x / 2 <= round_pos x /\ round_pos x <= x + ulp x / 2.
Proof.
  unfold round_pos. pose proof (ulp_pos x) as Hs.
  destruct (rne_near (x / ulp x)) as [Hlo Hhi].
  set (s := ulp x) in *. set (r := inject_Z (rne (x / s))) in *.
  assert (Hx : x == (x / s) * s) by (field; lra).
  split.
  - apply Qle_minus_iff.
    setoid_replace (r * s + - (x - s / 2)) with ((r - (x / s - (1 # 2))) * s) by (field; lra).
    apply Qmult_le_0_compat; lra.
  - apply Qle_minus_iff.
    setoid_replace (x + s / 2 + - (r * s)) with ((x / s + (1 # 2) - r) * s) by (field; lra).
    apply Qmult_le_0_compat; lra.
Qed.

Lemma round_pos_nonneg (x : Q) : 0 < x -> 0 <= round_pos x.
Proof.
  intros Hx. unfold round_pos. pose proof (ulp_pos x) as Hs.
  apply Qmult_le_0_compat; [|lra].
  change 0 with (inject_Z 0). rewrite <- Zle_Qle. rewrite <- (rne_Z 0) at 1.
  apply rne_mono. change (inject_Z 0) with 0.
  apply Qle_shift_div_l; [lra|]. rewrite Qmult_0_l. lra.
Qed.

Lemma clamped_exponent (x : Q) :
  0 < x -> x < pow2 (Z.max (ilog2 x) (-1022) + 1).
Proof.
  intros Hx. destruct (ilog2_spec Hx) as [_ Hhi].
  eapply Qlt_le_trans; [exact Hhi|]. apply pow2_le. lia.
Qed.

Lemma ulp_times (e k : Z) : pow2 k * pow2 (e - 52) == pow2 (e + (k - 52)).
Proof. rewrite <- pow2_plus. now replace (k + (e - 52))%Z with (e + (k - 52))%Z by lia. Qed.

Lemma round_pos_upper (x : Q) :
  0 < x -> round_pos x <= pow2 (Z.max (ilog2 x) (-1022) + 1).
Proof.
  intros Hx. pose proof (clamped_exponent Hx) as Hhi.
  unfold round_pos, ulp. set (e := Z.max (ilog2 x) (-1022)) in *.
  pose proof (pow2_pos (e - 52)) as Hs.
  assert (Hq : x / pow2 (e - 52) <= inject_Z (2 ^ 53)).
  { apply Qle_shift_div_r; [exact Hs|].
    rewrite <- pow2_Z by lia. rewrite ulp_times.
    replace (e + (53 - 52))%Z with (e + 1)%Z by lia. now apply Qlt_le_weak. }
  apply rne_mono in Hq. rewrite rne_Z in Hq.
  rewrite Zle_Qle in Hq.
  eapply Qle_trans; [apply Qmult_le_compat_r; [exact Hq|now apply Qlt_le_weak]|].
  rewrite <- pow2_Z by lia. rewrite ulp_times.
  replace (e + (53 - 52))%Z with (e + 1)%Z by lia. apply Qle_refl.
Qed.

Lemma round_pos_lower (x : Q) :
  0 < x -> (-1022 <= ilog2 x)%Z -> pow2 (ilog2 x) <= round_pos x.
Proof.
  intros Hx He. destruct (ilog2_spec Hx) as [Hlo _].
  unfold round_pos, ulp. rewrite Z.max_l by exact He.
  set (e := ilog2 x) in *.
  pose proof (pow2_pos (e - 52)) as Hs.
  assert (Hq : inject_Z (2 ^ 52) <= x / pow2 (e - 52)).
  { apply Qle_shift_div_l; [exact Hs|].
    rewrite <- pow2_Z by lia. rewrite ulp_times.
    replace (e + (52 - 52))%Z with e by lia. exact Hlo. }
  apply rne_mono in Hq. rewrite rne_Z in Hq.
  rewrite Zle_Qle in Hq.
  eapply Qle_trans; [|apply Qmult_le_compat_r; [exact Hq|now apply Qlt_le_weak]].
  rewrite <- pow2_Z by lia. rewrite ulp_times.
  replace (e + (52 - 52))%Z with e by lia. apply Qle_refl.
Qed.

Lemma round_pos_mono (x y : Q) : 0 < x -> x <= y -> round_pos x <= round_pos y.
Proof.
  intros Hx Hle. assert (Hy : 0 < y) by (eapply Qlt_le_trans; eassumption).
  pose proof (ilog2_mono Hx Hle) as Hlog.
  destruct (Z.eq_dec (Z.max (ilog2 x) (-1022)) (Z.max (ilog2 y) (-1022))) as [Heq|Hne].
  - unfold round_pos, ulp. rewrite Heq.
    set (s := pow2 (Z.max (ilog2 y) (-1022) - 52)).
    assert (Hs : 0 < s) by apply pow2_pos.
    apply Qmult_le_compat_r; [|now apply Qlt_le_weak].
    rewrite <- Zle_Qle. apply rne_mono.
    apply Qmult_le_compat_r; [exact Hle|].
    apply Qinv_le_0_compat. now apply Qlt_le_weak.
  - assert (He : (-1022 <= ilog2 y)%Z) by lia.
    eapply Qle_trans; [apply (round_pos_upper Hx)|].
    eapply Qle_trans; [|apply (round_pos_lower Hy He)].
    apply pow2_le. lia.
Qed.

(** A number with a significand below 2^53 and an exponent no lower
    than that of the smallest subnormal is left as it is. *)
Lemma round_pos_id (x : Q) (m q : Z) :
  x == inject_Z m * pow2 q -> (0 < m < 2 ^ 53)%Z -> (-1074 <= q)%Z ->
  round_pos x == x.
Proof.
  intros Hx Hm Hq.
  assert (Hm0 : 0 < inject_Z m).
  { change 0 with (inject_Z 0). rewrite <- Zlt_Qlt. lia. }
  assert (Hpos : 0 < x).
  { rewrite Hx. apply Qmult_lt_0_compat; [exact Hm0|apply pow2_pos]. }
  destruct (ilog2_spec Hpos) as [Hlo _].
  assert (He : (ilog2 x < 53 + q)%Z).
  { apply pow2_lt_inv. eapply Qle_lt_trans; [exact Hlo|].
    rewrite Hx, pow2_plus, (pow2_Z (e := 53)) by lia.
    apply Qmult_lt_compat_r; [apply pow2_pos|]. rewrite <- Zlt_Qlt. lia. }
  unfold round_pos, ulp. set (e := Z.max (ilog2 x) (-1022)).
  assert (Hd : (0 <= q - (e - 52))%Z) by lia.
  pose proof (pow2_pos (e - 52)) as Hs.
  assert (Hs0 : ~ pow2 (e - 52) == 0).
  { intros H. rewrite H in Hs. now apply Qlt_irrefl in Hs. }
  assert (Hquot : x / pow2 (e - 52) == inject_Z (m * 2 ^ (q - (e - 52)))).
  { rewrite inject_Z_mult, <- pow2_Z by exact Hd.
    rewrite (pow2_minus q (e - 52)), Hx. unfold Qdiv. ring. }
  rewrite (rne_comp Hquot), rne_Z.
  rewrite inject_Z_mult, <- pow2_Z by exact Hd.
  rewrite (pow2_minus q (e - 52)), Hx.
  rewrite <- Qmult_assoc, (Qmult_comm (pow2 q / pow2 (e - 52))).
  rewrite Qmult_div_r by exact Hs0. reflexivity.
Qed.

(** The relative error of rounding a number in the normal range. *)
Lemma round_pos_err (x : Q) :
  pow2 (-1022) <= x ->
  x * (1 - pow2 (-53)) <= round_pos x /\ round_pos x <= x * (1 + pow2 (-53)).
Proof.
  intros Hn.
  assert (Hpos : 0 < x) by (eapply Qlt_le_trans; [apply (pow2_pos (-1022))|exact Hn]).
  destruct (ilog2_spec Hpos) as [Hlo Hhi].
  assert (He : (-1022 <= ilog2 x)%Z).
  { assert (H : (-1022 < ilog2 x + 1)%Z)
      by (apply pow2_lt_inv; eapply Qle_lt_trans; eassumption).
    lia. }
  destruct (round_pos_near x) as [Hnear1 Hnear2].
  assert (Hu : ulp x / 2 <= x * pow2 (-53)).
  { unfold ulp. rewrite Z.max_l by exact He.
    replace (ilog2 x - 52)%Z with (ilog2 x + (-53) + 1)%Z by lia.
    rewrite pow2_plus, pow2_plus.
    change (pow2 1) with 2.
    setoid_replace (pow2 (ilog2 x) * pow2 (-53) * 2 / 2)
      with (pow2 (ilog2 x) * pow2 (-53)) by field.
    apply Qmult_le_compat_r; [exact Hlo|]. apply Qlt_le_weak, pow2_pos. }
  split; lra.
Qed.

Lemma fl_comp (x y : Q) : x == y -> fl x == fl y.
Proof.
  intros H. unfold fl.
  rewrite (Qcompare_comp x y H 0 0 ltac:(reflexivity)).
  destruct (Qcompare_spec y 0) as [H0|H0|H0].
  - reflexivity.
  - apply Qopp_comp. apply round_pos_comp; [rewrite H; lra|now rewrite H].
  - apply round_pos_comp; [rewrite H; lra|exact H].
Qed.

Lemma fl_nonneg (x : Q) : 0 <= x -> 0 <= fl x.
Proof.
  intros Hx. unfold fl. destruct (Qcompare_spec x 0) as [H0|H0|H0].
  - apply Qle_refl.
  - lra.
  - now apply round_pos_nonneg.
Qed.

Lemma fl_nonpos (x : Q) : x <= 0 -> fl x <= 0.
Proof.
  intros Hx. unfold fl. destruct (Qcompare_spec x 0) as [H0|H0|H0].
  - apply Qle_refl.
  - assert (H : 0 <= round_pos (- x)) by (apply round_pos_nonneg; lra). lra.
  - lra.
Qed.

(** Rounding is monotone. *)
Lemma fl_mono (x y : Q) : x <= y -> fl x <= fl y.
Proof.
  intros Hle.
  destruct (Qlt_le_dec 0 x) as [Hx|Hx].
  - unfold fl.
    destruct (Qcompare_spec x 0) as [H0|H0|H0]; [lra|lra|].
    destruct (Qcompare_spec y 0) as [H1|H1|H1]; [lra|lra|].
    now apply round_pos_mono.
  - destruct (Qlt_le_dec y 0) as [Hy|Hy].
    + unfold fl.
      destruct (Qcompare_spec x 0) as [H0|H0|H0]; [lra| |lra].
      destruct (Qcompare_spec y 0) as [H1|H1|H1]; [lra| |lra].
      assert (H : round_pos (- y) <= round_pos (- x)) by (apply round_pos_mono; lra).
      lra.
    + eapply Qle_trans; [apply (fl_nonpos Hx)|apply (fl_nonneg Hy)].
Qed.

(** Numbers binary64 holds are left as they are. *)
Lemma fl_id (x : Q) (m q : Z) :
  x == inject_Z m * pow2 q -> (Z.abs m < 2 ^ 53)%Z -> (-1074 <= q)%Z ->
  fl x == x.
Proof.
  intros Hx Hm Hq. unfold fl.
  destruct (Qcompare_spec x 0) as [H0|H0|H0].
  - now symmetry.
  - assert (H : round_pos (- x) == - x).
    { apply (@round_pos_id (- x) (- m) q); [| |exact Hq].
      - rewrite Hx, inject_Z_opp. ring.
      - assert (Hneg : inject_Z m < 0).
        { destruct (Qlt_le_dec (inject_Z m) 0) as [Hlt|Hge]; [exact Hlt|].
          assert (0 <= inject_Z m * pow2 q)
            by (apply Qmult_le_0_compat; [exact Hge|apply Qlt_le_weak, pow2_pos]).
          lra. }
        change 0 with (inject_Z 0) in Hneg. rewrite <- Zlt_Qlt in Hneg. lia. }
    rewrite H. ring.
  - apply (@round_pos_id x m q); [exact Hx| |exact Hq].
    assert (Hp : 0 < inject_Z m).
    { destruct (Qlt_le_dec 0 (inject_Z m)) as [Hlt|Hge]; [exact Hlt|].
      assert (0 <= - inject_Z m * pow2 q)
        by (apply Qmult_le_0_compat; [lra|apply Qlt_le_weak, pow2_pos]).
      lra. }
    change 0 with (inject_Z 0) in Hp. rewrite <- Zlt_Qlt in Hp. lia.
Qed.

Lemma fl_Z (z : Z) : (Z.abs z < 2 ^ 53)%Z -> fl (inject_Z z) == inject_Z z.
Proof.
  intros Hz. apply (@fl_id (inject_Z z) z 0); [|exact Hz|lia].
  change (pow2 0) with 1. ring.
Qed.

Lemma fl_half_Z (z : Z) :
  (Z.abs z < 2 ^ 53)%Z -> fl (inject_Z z * (1 # 2)) == inject_Z z * (1 # 2).
Proof.
  intros Hz. apply (@fl_id (inject_Z z * (1 # 2)) z (-1)); [|exact Hz|lia].
  reflexivity.
Qed.

Lemma fl_err (x : Q) :
  pow2 (-1022) <= x ->
  x * (1 - pow2 (-53)) <= fl x /\ fl x <= x * (1 + pow2 (-53)).
Proof.
  intros Hn.
  assert (Hpos : 0 < x) by (eapply Qlt_le_trans; [apply (pow2_pos (-1022))|exact Hn]).
  unfold fl. destruct (Qcompare_spec x 0) as [H0|H0|H0]; [lra|lra|].
  now apply round_pos_err.
Qed.

Lemma fl_one : fl 1 == 1.
Proof. apply (fl_Z 1). reflexivity. Qed.

Lemma Qmin_comp_r (a b c : Q) : b == c -> Qmin a b == Qmin a c.
Proof.
  intros H.
  destruct (Q.min_spec a b) as [[H1 ->]|[H1 ->]];
    destruct (Q.min_spec a c) as [[H2 ->]|[H2 ->]]; lra.
Qed.

Lemma Qmin_comp_l (a b c : Q) : a == b -> Qmin a c == Qmin b c.
Proof.
  intros H.
  destruct (Q.min_spec a c) as [[H1 ->]|[H1 ->]];
    destruct (Q.min_spec b c) as [[H2 ->]|[H2 ->]]; lra.
Qed.

(** A whole number rounds to itself when the argument is within half a
    unit of it. *)
Lemma Math_round_within (x : Q) (z : Z) :
  inject_Z z - (1 # 2) <= x -> x < inject_Z z + (1 # 2) -> Js.Math_round x = z.
Proof.
  intros Hlo Hhi. unfold Js.Math_round.
  pose proof (Qfloor_le (x + (1 # 2))) as H1.
  pose proof (Qlt_floor (x + (1 # 2))) as H2.
  rewrite inject_Z_plus in H2. change (inject_Z 1) with 1 in H2.
  assert (Ha : inject_Z (Qfloor (x + (1 # 2))) < inject_Z (z + 1)).
  { rewrite inject_Z_plus. change (inject_Z 1) with 1. lra. }
  assert (Hb : inject_Z z < inject_Z (Qfloor (x + (1 # 2)) + 1)).
  { rewrite inject_Z_plus. change (inject_Z 1) with 1. lra. }
  rewrite <- Zlt_Qlt in Ha, Hb. lia.
Qed.

End Binary64Facts.

(** ** Lists of pages *)

Module ListFacts.

Lemma skipn_cons_inv {A} (l : list A) : forall k x rest,
  skipn k l = x :: rest ->
  nth_error l k = Some x /\ skipn (S k) l = rest /\ k < length l.
Proof.
  induction l as [|a l IH]; intros k x rest H.
  - destruct k; discriminate.
  - destruct k as [|k].
    + simpl in H. inversion H; subst. simpl. repeat split. lia.
    + simpl in H. destruct (IH _ _ _ H) as (H1 & H2 & H3).
      simpl. repeat split; auto. lia.
Qed.

Lemma forallb_false_ex {A} (f : A -> bool) (l : list A) :
  forallb f l = false <-> exists x, In x l /\ f x = false.
Proof.
  induction l as [|a l IH]; simpl.
  - split; [discriminate | intros (x & [] & _)].
  - rewrite andb_false_iff, IH. split.
    + intros [H | (x & Hin & Hx)]; eauto.
    + intros (x & [-> | Hin] & Hx); eauto.
Qed.

End ListFacts.

(** ** Saving a document *)

Module PdfFacts.

Lemma save_length (doc : PDFDocument) :
  length (PDFDocument_save doc) = Nat.max 1 (length doc).
Proof. destruct doc; reflexivity. Qed.

Lemma save_of_pages (doc : PDFDocument) :
  1 <= length doc -> PDFDocument_save doc = doc.
Proof. destruct doc; cbn; [lia|reflexivity]. Qed.

Lemma save_of_none (doc : PDFDocument) :
  length doc = 0 -> PDFDocument_save doc = [Blank].
Proof. destruct doc; cbn; [reflexivity|discriminate]. Qed.

End PdfFacts.

(** ** SplitPDF *)

Module SplitPdfFacts.

Import SplitPdf ListFacts.
Local Open Scope string_scope.
Local Open Scope list_scope.

Section Facts.

Variable byteLength : Blob -> N.

Lemma results_from_length k ps : length (results_from byteLength k ps) = length ps.
Proof. revert k. induction ps; simpl; intros; auto. Qed.

Lemma results_from_nth ps : forall k i p,
  nth_error ps i = Some p ->
  nth_error (results_from byteLength k ps) i = Some (page_result byteLength (k + i) p).
Proof.
  induction ps as [|q ps IH]; intros k i p H.
  - destruct i; discriminate.
  - destruct i as [|i]; simpl in *.
    + inversion H; subst. now rewrite Nat.add_0_r.
    + rewrite (IH (S k) i p H). f_equal. f_equal. lia.
Qed.

Lemma getPageIndices_nth (pdfDoc : list Page) k :
  k < length pdfDoc -> nth k (getPageIndices pdfDoc) 0 = k.
Proof. intros H. unfold getPageIndices. now rewrite seq_nth. Qed.

(** One turn of the loop. *)
Lemma split_pages_step pdfDoc pageIndices i rest results s :
  split_pages byteLength pdfDoc pageIndices (i :: rest) results s =
  let s1 := setProgress ("Splitting page " ++ Js.string_of_nat (i + 1) ++ " / "
              ++ Js.string_of_nat (length pageIndices) ++ "...")%string s in
  match nth_error pdfDoc (nth i pageIndices 0) with
  | Some p =>
      if copyable p then
        split_pages byteLength pdfDoc pageIndices rest
          (results ++ [page_result byteLength i p]) s1
      else (s1, Thrown (CopyError (nth i pageIndices 0)))
  | None => (s1, Thrown (CopyError (nth i pageIndices 0)))
  end.
Proof.
  cbn [split_pages]. unfold bind, set, await. cbn [copyPages].
  destruct (nth_error pdfDoc (nth i pageIndices 0)) as [p|]; [|reflexivity].
  destruct (copyable p); reflexivity.
Qed.

(** The loop writes no cell but [progress]. *)
Lemma split_pages_frame pdfDoc pageIndices todo : forall results s,
  let s' := fst (split_pages byteLength pdfDoc pageIndices todo results s) in
  splitPages s' = splitPages s /\ error s' = error s /\
  isSplitting s' = isSplitting s /\ file s' = file s /\ pages s' = pages s.
Proof.
  induction todo as [|i rest IH]; intros results s.
  - cbn. auto.
  - rewrite split_pages_step. cbv zeta.
    destruct (nth_error pdfDoc (nth i pageIndices 0)) as [p|]; [|cbn; auto].
    destruct (copyable p); [|cbn; auto].
    match goal with |- context [split_pages _ _ _ _ ?r ?st] =>
      destruct (IH r st) as (H1 & H2 & H3 & H4 & H5) end.
    cbv zeta in *. rewrite H1, H2, H3, H4, H5. cbn. auto.
Qed.

(** When every remaining page copies, the loop returns one entry per
    page, in page order. *)
Lemma split_pages_ok pdfDoc : forall ps k results s,
  skipn k pdfDoc = ps ->
  forallb copyable ps = true ->
  snd (split_pages byteLength pdfDoc (getPageIndices pdfDoc)
         (seq k (length ps)) results s)
  = Returned (results ++ results_from byteLength k ps).
Proof.
  induction ps as [|p ps IH]; intros k results s Hk Hall.
  - cbn. now rewrite app_nil_r.
  - destruct (skipn_cons_inv _ _ Hk) as (Hnth & Hrest & Hlt).
    cbn [forallb] in Hall. apply andb_true_iff in Hall. destruct Hall as [Hp Hps].
    cbn [length seq]. rewrite split_pages_step. cbv zeta.
    rewrite !getPageIndices_nth by assumption. rewrite Hnth, Hp.
    rewrite IH by assumption.
    cbn [results_from]. now rewrite <- app_assoc.
Qed.

(** When some remaining page does not copy, the loop throws. *)
Lemma split_pages_throws pdfDoc : forall ps k results s,
  skipn k pdfDoc = ps ->
  forallb copyable ps = false ->
  returned (snd (split_pages byteLength pdfDoc (getPageIndices pdfDoc)
                   (seq k (length ps)) results s)) = false.
Proof.
  induction ps as [|p ps IH]; intros k results s Hk Hall.
  - discriminate.
  - destruct (skipn_cons_inv _ _ Hk) as (Hnth & Hrest & Hlt).
    cbn [forallb] in Hall.
    cbn [length seq]. rewrite split_pages_step. cbv zeta.
    rewrite !getPageIndices_nth by assumption. rewrite Hnth.
    destruct (copyable p) eqn:Hp; [|reflexivity].
    apply IH; assumption.
Qed.

Lemma load_ignoring_encryption (b : Bytes) :
  parseable b = true -> PDFDocument_load b true = Returned (doc_pages b).
Proof.
  intros H. unfold PDFDocument_load. rewrite H. cbn.
  now rewrite andb_false_r.
Qed.

(** [split] on a file pdf-lib can parse: the loop decides the outcome. *)
Lemma split_run s f :
  file s = Some f ->
  parseable (arrayBuffer f) = true ->
  split byteLength s =
  let pdfDoc := doc_pages (arrayBuffer f) in
  let s1 := setSplitPages None
              (setProgress "Loading PDF..." (setIsSplitting true (setError "" s))) in
  match split_pages byteLength pdfDoc (getPageIndices pdfDoc)
          (seq 0 (length pdfDoc)) [] s1 with
  | (s', Returned results) =>
      setIsSplitting false (setProgress "Completed" (setSplitPages (Some results) s'))
  | (s', Thrown _) =>
      setIsSplitting false (setError "Failed to split PDF. Try a different file." s')
  end.
Proof.
  intros Hf Hparse. unfold split. cbn [file setError]. rewrite Hf.
  unfold try_catch_finally, split_body, bind, await, set.
  rewrite (load_ignoring_encryption _ Hparse). cbv zeta.
  unfold getPageIndices at 2. rewrite length_seq.
  destruct (split_pages _ _ _ _ _ _) as [s' [results|e]]; reflexivity.
Qed.

(** A run of [split] in which every page copies. *)
Lemma split_succeeds s f :
  file s = Some f ->
  parseable (arrayBuffer f) = true ->
  all_copyable (doc_pages (arrayBuffer f)) = true ->
  splitPages (split byteLength s)
    = Some (results_from byteLength 0 (doc_pages (arrayBuffer f))) /\
  error (split byteLength s) = "" /\
  progress (split byteLength s) = "Completed" /\
  isSplitting (split byteLength s) = false.
Proof.
  intros Hf Hparse Hall. rewrite (split_run s Hf Hparse). cbv zeta.
  match goal with |- context [split_pages _ ?d ?pi ?todo ?r ?st] =>
    pose proof (split_pages_ok d (ps := d) 0 r st eq_refl Hall) as Hok;
    destruct (split_pages_frame d pi todo r st) as (_ & He & _);
    destruct (split_pages byteLength d pi todo r st) as [s' o]
  end.
  cbn [fst snd] in *. subst o. cbn. rewrite He. cbn. auto.
Qed.

(** A run of [split] in which some page does not copy. *)
Lemma split_fails s f :
  file s = Some f ->
  parseable (arrayBuffer f) = true ->
  all_copyable (doc_pages (arrayBuffer f)) = false ->
  splitPages (split byteLength s) = None /\
  error (split byteLength s) = "Failed to split PDF. Try a different file." /\
  isSplitting (split byteLength s) = false.
Proof.
  intros Hf Hparse Hall. rewrite (split_run s Hf Hparse). cbv zeta.
  match goal with |- context [split_pages _ ?d ?pi ?todo ?r ?st] =>
    pose proof (split_pages_throws d (ps := d) 0 r st eq_refl Hall) as Hthrow;
    destruct (split_pages_frame d pi todo r st) as (Hsp & _);
    destruct (split_pages byteLength d pi todo r st) as [s' o]
  end.
  cbn [fst snd] in *. destruct o as [r|e]; [discriminate|].
  cbn. rewrite Hsp. cbn. auto.
Qed.

End Facts.

End SplitPdfFacts.

(** ** MergePDF *)

Module MergePdfFacts.

Import MergePdf ListFacts.
Local Open Scope string_scope.
Local Open Scope list_scope.

Lemma fold_addPage (copied : list OutPage) : forall doc,
  fold_left addPage copied doc = doc ++ copied.
Proof.
  induction copied as [|c copied IH]; intros doc; cbn.
  - now rewrite app_nil_r.
  - rewrite IH. unfold addPage. now rewrite <- app_assoc.
Qed.

Lemma copyPages_from (src : list Page) : forall ps k,
  skipn k src = ps ->
  forallb copyable ps = true ->
  copyPages src (seq k (length ps)) = Returned (map Copied ps).
Proof.
  induction ps as [|p ps IH]; intros k Hk Hall.
  - reflexivity.
  - destruct (skipn_cons_inv _ _ Hk) as (Hnth & Hrest & _).
    cbn [forallb] in Hall. apply andb_true_iff in Hall. destruct Hall as [Hp Hps].
    cbn [length seq copyPages]. rewrite Hnth, Hp, (IH (S k) Hrest Hps).
    reflexivity.
Qed.

Lemma copyPages_all (src : list Page) :
  all_copyable src = true ->
  copyPages src (getPageIndices src) = Returned (map Copied src).
Proof. intros H. exact (copyPages_from src (ps := src) 0 eq_refl H). Qed.

(** One turn of the loop. *)
Lemma merge_items_step total i it rest mergedDoc s :
  merge_items total i (it :: rest) mergedDoc s =
  let s1 := setProgress ("Processing " ++ Js.string_of_nat (i + 1) ++ " / "
              ++ Js.string_of_nat total ++ ": " ++ name it)%string s in
  match PDFDocument_load (arrayBuffer (file it)) false with
  | Returned pdf =>
      match copyPages pdf (getPageIndices pdf) with
      | Returned copied =>
          merge_items total (i + 1) rest (fold_left addPage copied mergedDoc) s1
      | Thrown e => (s1, Thrown e)
      end
  | Thrown e => (s1, Thrown e)
  end.
Proof.
  cbn [merge_items]. unfold bind, set, await.
  destruct (PDFDocument_load _ _) as [pdf|e]; [|reflexivity].
  destruct (copyPages _ _); reflexivity.
Qed.

(** The loop writes no cell but [progress]. *)
Lemma merge_items_frame total todo : forall i mergedDoc s,
  let s' := fst (merge_items total i todo mergedDoc s) in
  mergedUrl s' = mergedUrl s /\ error s' = error s /\
  isProcessing s' = isProcessing s /\ items s' = items s.
Proof.
  induction todo as [|it rest IH]; intros i mergedDoc s.
  - cbn. auto.
  - rewrite merge_items_step. cbv zeta.
    destruct (PDFDocument_load _ _) as [pdf|e]; [|cbn; auto].
    destruct (copyPages _ _) as [copied|e]; [|cbn; auto].
    match goal with |- context [merge_items _ ?j _ ?d ?st] =>
      destruct (IH j d st) as (H1 & H2 & H3 & H4) end.
    cbv zeta in *. rewrite H1, H2, H3, H4. cbn. auto.
Qed.

Lemma opens_pages it :
  opens it = true ->
  PDFDocument_load (arrayBuffer (file it)) false = Returned (pagesOf it).
Proof.
  unfold opens, pagesOf, PDFDocument_load.
  destruct (parseable _); cbn; [|discriminate].
  destruct (encrypted _); cbn; [discriminate|reflexivity].
Qed.

(** Every remaining item opens and copies: the loop appends the pages
    of each item, item after item. *)
Lemma merge_items_ok total : forall todo i mergedDoc s,
  forallb mergeable todo = true ->
  snd (merge_items total i todo mergedDoc s)
  = Returned (mergedDoc ++ flat_map (fun it => map Copied (pagesOf it)) todo).
Proof.
  induction todo as [|it rest IH]; intros i mergedDoc s Hall.
  - cbn. now rewrite app_nil_r.
  - cbn [forallb] in Hall. apply andb_true_iff in Hall. destruct Hall as [Hit Hrest].
    unfold mergeable in Hit. apply andb_true_iff in Hit. destruct Hit as [Hopen Hcopy].
    rewrite merge_items_step. cbv zeta.
    rewrite (opens_pages _ Hopen), (copyPages_all _ Hcopy).
    rewrite IH by assumption. rewrite fold_addPage. cbn [flat_map].
    now rewrite app_assoc.
Qed.

(** Some remaining item does not open: the loop throws. *)
Lemma merge_items_throws total : forall todo i mergedDoc s,
  forallb opens todo = false ->
  returned (snd (merge_items total i todo mergedDoc s)) = false.
Proof.
  induction todo as [|it rest IH]; intros i mergedDoc s Hall.
  - discriminate.
  - cbn [forallb] in Hall. rewrite merge_items_step. cbv zeta.
    unfold opens at 1 in Hall.
    destruct (PDFDocument_load _ _) as [pdf|e]; [|reflexivity].
    destruct (copyPages _ _) as [copied|e]; [|reflexivity].
    cbn in Hall. apply IH. exact Hall.
Qed.

(** [mergePDFs] past its two guards: the loop decides the outcome. *)
Lemma mergePDFs_run s :
  2 <= length (items s) ->
  (totalSize (items s) <= MAX_SIZE_BYTES)%N ->
  mergePDFs s =
  let s1 := setProgress "Creating new document..."
              (setIsProcessing true (setMergedUrl None (setError "" s))) in
  match merge_items (length (items s)) 0 (items s) PDFDocument_create s1 with
  | (s', Returned mergedDoc) =>
      setIsProcessing false
        (setProgress "Done"
          (setMergedUrl (Some (save_blob mergedDoc))
            (setProgress "Saving merged PDF..." s')))
  | (s', Thrown _) =>
      setIsProcessing false
        (setError "Failed to merge PDFs. Try re-uploading the files." s')
  end.
Proof.
  intros Hlen Hsize. unfold mergePDFs. cbn [items setMergedUrl setError].
  destruct (Nat.ltb_spec (length (items s)) 2) as [Hlt|_]; [lia|].
  fold (totalSize (items s)).
  destruct (N.ltb_spec MAX_SIZE_BYTES (totalSize (items s))) as [Hlt|_]; [lia|].
  unfold try_catch_finally, merge_body, bind, set. cbn [items setProgress setIsProcessing].
  destruct (merge_items _ _ _ _ _) as [s' [doc|e]]; reflexivity.
Qed.

End MergePdfFacts.

(** ** CompressPDF *)

Module CompressPdfFacts.

Import CompressPdf ListFacts.
Local Open Scope string_scope.
Local Open Scope list_scope.

Lemma rasterize_ok quality maxWidth p page :
  page_ok quality maxWidth page = true ->
  rasterize quality maxWidth p page = Returned (raster quality maxWidth page).
Proof.
  unfold page_ok, rasterize, raster.
  destruct (canvas_size maxWidth page) as [w h]. cbn [fst snd].
  destruct (renderable page); cbn; [|discriminate].
  destruct ((0 <? w)%Z && (0 <? h)%Z); [reflexivity|discriminate].
Qed.

Lemma rasterize_throws quality maxWidth p page :
  page_ok quality maxWidth page = false ->
  returned (rasterize quality maxWidth p page) = false.
Proof.
  unfold page_ok, rasterize.
  destruct (canvas_size maxWidth page) as [w h].
  destruct (renderable page); cbn; [|reflexivity].
  destruct ((0 <? w)%Z && (0 <? h)%Z); [discriminate|reflexivity].
Qed.

Lemma unrenderable_not_ok quality maxWidth page :
  renderable page = false -> page_ok quality maxWidth page = false.
Proof.
  intros H. unfold page_ok, rasterize.
  destruct (canvas_size maxWidth page). now rewrite H.
Qed.

Section Loop.

Variable meanwhile : nat -> State -> State.

(** One turn of the loop. *)
Lemma render_pages_step quality maxWidth numPages p page rest outPdf s :
  render_pages meanwhile quality maxWidth numPages p (page :: rest) outPdf s =
  let s1 := meanwhile p
              (setPageProgress (mkPageProgress p numPages)
                (setProgress ("Rendering page " ++ Js.string_of_nat p ++ "/"
                   ++ Js.string_of_nat numPages ++ "...")%string s)) in
  match rasterize quality maxWidth p page with
  | Returned newPage =>
      render_pages meanwhile quality maxWidth numPages (p + 1) rest
        (addPage outPdf newPage) s1
  | Thrown e => (s1, Thrown e)
  end.
Proof.
  cbn [render_pages]. unfold bind, set, await.
  destruct (rasterize _ _ _ _); reflexivity.
Qed.

(** Whatever else happens meanwhile, pages that all rasterize end up
    in the output, one image page each, in source order. *)
Lemma render_pages_ok quality maxWidth numPages : forall todo p outPdf s,
  forallb (page_ok quality maxWidth) todo = true ->
  snd (render_pages meanwhile quality maxWidth numPages p todo outPdf s)
  = Returned (outPdf ++ map (raster quality maxWidth) todo).
Proof.
  induction todo as [|page rest IH]; intros p outPdf s Hall.
  - cbn. now rewrite app_nil_r.
  - cbn [forallb] in Hall. apply andb_true_iff in Hall. destruct Hall as [Hp Hrest].
    rewrite render_pages_step. cbv zeta.
    rewrite (rasterize_ok _ _ p _ Hp). rewrite IH by assumption.
    unfold addPage. cbn [map]. now rewrite <- app_assoc.
Qed.

(** A page that does not rasterize makes the loop throw. *)
Lemma render_pages_throws quality maxWidth numPages : forall todo p outPdf s,
  forallb (page_ok quality maxWidth) todo = false ->
  returned (snd (render_pages meanwhile quality maxWidth numPages p todo outPdf s))
  = false.
Proof.
  induction todo as [|page rest IH]; intros p outPdf s Hall.
  - discriminate.
  - cbn [forallb] in Hall. rewrite render_pages_step. cbv zeta.
    destruct (page_ok quality maxWidth page) eqn:Hp.
    + rewrite (rasterize_ok _ _ p _ Hp). apply IH. exact Hall.
    + pose proof (rasterize_throws quality maxWidth p page Hp) as Ht.
      destruct (rasterize quality maxWidth p page); [discriminate|reflexivity].
Qed.

End Loop.

(** With nobody else touching the cells, the loop writes [progress] and
    [pageProgress] only. *)
Lemma render_pages_frame quality maxWidth numPages : forall todo p outPdf s,
  let s' := fst (render_pages undisturbed quality maxWidth numPages p todo outPdf s) in
  resultUrl s' = resultUrl s /\ resultSize s' = resultSize s /\
  error s' = error s /\ isProcessing s' = isProcessing s /\ file s' = file s.
Proof.
  induction todo as [|page rest IH]; intros p outPdf s.
  - cbn. auto.
  - rewrite render_pages_step. cbv zeta.
    destruct (rasterize _ _ _ _) as [newPage|e]; [|cbn; auto].
    match goal with |- context [render_pages _ _ _ _ ?j _ ?d ?st] =>
      destruct (IH j d st) as (H1 & H2 & H3 & H4 & H5) end.
    cbv zeta in *. rewrite H1, H2, H3, H4, H5. cbn. auto.
Qed.

(** With nobody else touching the cells, the loop reports the page
    numbers it reaches, in order: all of them when it returns. *)
Lemma render_pages_reported quality maxWidth numPages : forall todo p outPdf s,
  let run := render_pages undisturbed quality maxWidth numPages p todo outPdf s in
  exists k,
    k <= length todo /\
    reported (fst run)
      = reported s ++ map (fun c => mkPageProgress c numPages) (seq p k) /\
    (returned (snd run) = true -> k = length todo).
Proof.
  induction todo as [|page rest IH]; intros p outPdf s.
  - exists 0. cbn. rewrite app_nil_r. auto.
  - rewrite render_pages_step. cbv zeta.
    destruct (rasterize _ _ _ _) as [newPage|e].
    + match goal with |- context [render_pages _ _ _ _ ?j _ ?d ?st] =>
        destruct (IH j d st) as (k & Hk & Hrep & Hret) end.
      cbv zeta in *. exists (S k). repeat split.
      * cbn. lia.
      * rewrite Hrep. unfold undisturbed. cbn [reported setPageProgress setProgress].
        rewrite <- app_assoc. cbn [seq map app]. now rewrite Nat.add_1_r.
      * intros H. cbn [length]. f_equal. auto.
    + exists 1. repeat split.
      * cbn. lia.
      * cbn. discriminate.
Qed.

Section Run.

Variable byteLength : Blob -> N.
Variable meanwhile : nat -> State -> State.

(** [compressViaCanvas] in terms of its loop. *)
Lemma compressViaCanvas_run f quality maxWidth s :
  compressViaCanvas_with meanwhile f quality maxWidth s =
  match getDocument (arrayBuffer f) with
  | Thrown e => (s, Thrown e)
  | Returned pdf =>
      match render_pages meanwhile quality maxWidth (length pdf) 1 pdf
              PDFDocument_create
              (setPageProgress (mkPageProgress 0 (length pdf)) s) with
      | (s', Returned outPdf) =>
          (setProgress "Finalizing..." s', Returned (save_blob outPdf))
      | (s', Thrown e) => (s', Thrown e)
      end
  end.
Proof.
  unfold compressViaCanvas_with, bind, await, set, ret.
  destruct (getDocument _) as [pdf|e]; [|reflexivity].
  destruct (render_pages _ _ _ _ _ _ _ _) as [s' [outPdf|e]]; reflexivity.
Qed.

(** [compress] in terms of [compressViaCanvas]. *)
Lemma compress_run s f :
  file s = Some f ->
  compress_with byteLength meanwhile s =
  let s1 := setPageProgress (mkPageProgress 0 0)
              (setResultSize None
                (setResultUrl None
                  (setProgress "Starting compression..."
                    (setIsProcessing true (setError "" s))))) in
  match compressViaCanvas_with meanwhile f quality0 maxWidth0 s1 with
  | (s', Returned outBlob) =>
      setIsProcessing false
        (setProgress "Completed"
          (setResultSize (Some (byteLength outBlob))
            (setResultUrl (Some outBlob) s')))
  | (s', Thrown _) => setIsProcessing false (setError failure_message s')
  end.
Proof.
  intros Hf. unfold compress_with. cbn [file setError]. rewrite Hf.
  unfold try_catch_finally, bind, set. cbv zeta.
  fold quality0. fold maxWidth0.
  destruct (compressViaCanvas_with _ _ _ _ _) as [s' [outBlob|e]]; reflexivity.
Qed.

(** Whatever else happens meanwhile, a document whose pages all
    rasterize is compressed to the end. *)
Lemma compress_completes s f :
  file s = Some f ->
  pdfjs_opens (arrayBuffer f) = true ->
  forallb (page_ok quality0 maxWidth0) (doc_pages (arrayBuffer f)) = true ->
  let s' := compress_with byteLength meanwhile s in
  let outBlob := save_blob (map (raster quality0 maxWidth0) (doc_pages (arrayBuffer f))) in
  resultUrl s' = Some outBlob /\
  resultSize s' = Some (byteLength outBlob) /\
  progress s' = "Completed" /\
  isProcessing s' = false.
Proof.
  intros Hf Hopen Hall. cbv zeta. rewrite (compress_run s Hf). cbv zeta.
  rewrite compressViaCanvas_run. unfold getDocument. rewrite Hopen.
  match goal with |- context [render_pages _ ?q ?w ?n ?p ?todo ?out ?st] =>
    pose proof (render_pages_ok meanwhile q w n todo p out st Hall) as Hok;
    destruct (render_pages meanwhile q w n p todo out st) as [s' o]
  end.
  cbn [snd] in Hok. subst o. cbn. auto.
Qed.

End Run.

(** A document pdfjs cannot open, or with a page that does not
    rasterize: the run ends in the error state with nothing to download. *)
Lemma compress_aborts byteLength s f :
  file s = Some f ->
  pdfjs_opens (arrayBuffer f) = false \/
  forallb (page_ok quality0 maxWidth0) (doc_pages (arrayBuffer f)) = false ->
  let s' := compress byteLength s in
  resultUrl s' = None /\ resultSize s' = None /\
  error s' = failure_message /\ isProcessing s' = false.
Proof.
  intros Hf Hbad. cbv zeta. unfold compress. rewrite (compress_run _ _ s Hf). cbv zeta.
  rewrite compressViaCanvas_run. unfold getDocument.
  destruct (pdfjs_opens (arrayBuffer f)) eqn:Hopen.
  - destruct Hbad as [Hbad|Hbad]; [discriminate|].
    match goal with |- context [render_pages _ ?q ?w ?n ?p ?todo ?out ?st] =>
      pose proof (render_pages_throws undisturbed q w n todo p out st Hbad) as Hthrow;
      destruct (render_pages_frame q w n todo p out st) as (H1 & H2 & _);
      destruct (render_pages undisturbed q w n p todo out st) as [s' o]
    end.
    cbn [fst snd] in *. destruct o as [r|e]; [discriminate|].
    cbn. rewrite H1, H2. cbn. auto.
  - cbn. auto.
Qed.

(** The loop stops at the first page that does not rasterize: the
    pages after it are never announced. *)
Lemma render_pages_stops quality maxWidth numPages bad post : forall pre p outPdf s,
  forallb (page_ok quality maxWidth) pre = true ->
  page_ok quality maxWidth bad = false ->
  let run := render_pages undisturbed quality maxWidth numPages p
               (pre ++ bad :: post) outPdf s in
  returned (snd run) = false /\
  reported (fst run)
    = reported s ++ map (fun c => mkPageProgress c numPages) (seq p (length pre + 1)).
Proof.
  induction pre as [|page pre IH]; intros p outPdf s Hpre Hbad; cbv zeta.
  - cbn [app length Nat.add]. rewrite render_pages_step. cbv zeta.
    pose proof (rasterize_throws quality maxWidth p bad Hbad) as Ht.
    destruct (rasterize quality maxWidth p bad); [discriminate|].
    split; reflexivity.
  - cbn [forallb] in Hpre. apply andb_true_iff in Hpre. destruct Hpre as [Hp Hpre].
    cbn [app]. rewrite render_pages_step. cbv zeta.
    rewrite (rasterize_ok _ _ p _ Hp).
    match goal with |- context [render_pages _ _ _ _ ?j _ ?d ?st] =>
      destruct (IH j d st Hpre Hbad) as (Hret & Hrep) end.
    cbv zeta in *. split; [exact Hret|].
    rewrite Hrep. unfold undisturbed. cbn [reported setPageProgress setProgress].
    rewrite <- app_assoc. cbn [length Nat.add seq map app]. now rewrite Nat.add_1_r.
Qed.

Lemma progress_trace_app s s' seen :
  reported s' = reported s ++ seen -> progress_trace s s' = seen.
Proof.
  intros H. unfold progress_trace. rewrite H.
  rewrite skipn_app, skipn_all, Nat.sub_diag. reflexivity.
Qed.

Lemma nondecreasing_seq : forall n a, nondecreasing (seq a n).
Proof.
  induction n as [|n IH]; intros a; [exact I|].
  destruct n as [|n]; [exact I|].
  change (a <= S a /\ nondecreasing (seq (S a) (S n))). split; [lia|apply IH].
Qed.

Lemma count_occ_seq_out : forall n a x,
  x < a -> count_occ Nat.eq_dec (seq a n) x = 0.
Proof.
  induction n as [|n IH]; intros a x H; [reflexivity|].
  cbn [seq count_occ]. destruct (Nat.eq_dec a x); [lia|]. apply IH. lia.
Qed.

Lemma count_occ_seq_in : forall n a x,
  a <= x < a + n -> count_occ Nat.eq_dec (seq a n) x = 1.
Proof.
  induction n as [|n IH]; intros a x H; [lia|].
  cbn [seq count_occ]. destruct (Nat.eq_dec a x) as [->|Hne].
  - rewrite count_occ_seq_out by lia. reflexivity.
  - apply IH. lia.
Qed.

Lemma map_current_seq numPages l :
  map current (map (fun c => mkPageProgress c numPages) l) = l.
Proof. rewrite map_map. cbn. apply map_id. Qed.

(** What [compressViaCanvas] reports: nothing when pdfjs cannot open the
    file; otherwise 0, 1, ..., k, where k is the last page it reached,
    the last page of the document when it returns. *)
Lemma compressViaCanvas_reported f quality maxWidth s :
  let run := compressViaCanvas f quality maxWidth s in
  let numPages := length (doc_pages (arrayBuffer f)) in
  (returned (snd run) = false /\ reported (fst run) = reported s) \/
  (exists k,
      k <= numPages /\
      reported (fst run)
        = reported s ++ map (fun c => mkPageProgress c numPages) (seq 0 (S k)) /\
      (returned (snd run) = true -> k = numPages)).
Proof.
  cbv zeta. unfold compressViaCanvas. rewrite compressViaCanvas_run.
  unfold getDocument. destruct (pdfjs_opens (arrayBuffer f)); [|left; auto].
  right.
  match goal with |- context [render_pages _ ?q ?w ?n ?p ?todo ?out ?st] =>
    destruct (render_pages_reported q w n todo p out st) as (k & Hk & Hrep & Hret);
    destruct (render_pages undisturbed q w n p todo out st) as [s' o]
  end.
  cbn [fst snd] in *. exists k. split; [exact Hk|].
  cbn [reported setPageProgress] in Hrep. rewrite <- app_assoc in Hrep.
  destruct o as [outPdf|e]; cbn [fst snd reported setProgress]; auto.
Qed.

(** [compress] reports the reset to 0 of 0, then what
    [compressViaCanvas] reports. *)
Lemma compress_reported byteLength s f :
  file s = Some f ->
  let s1 := entering s in
  let run := compressViaCanvas f quality0 maxWidth0 s1 in
  reported s1 = reported s ++ [mkPageProgress 0 0] /\
  reported (compress byteLength s) = reported (fst run) /\
  (returned (snd run) = true <-> resultUrl (compress byteLength s) <> None).
Proof.
  intros Hf. cbv zeta. unfold entering. split; [reflexivity|].
  unfold compress. rewrite (compress_run _ _ s Hf). cbv zeta.
  fold compressViaCanvas.
  pose proof (compressViaCanvas_run undisturbed f quality0 maxWidth0) as Hrun.
  fold compressViaCanvas in Hrun.
  match goal with |- context [compressViaCanvas f quality0 maxWidth0 ?st] =>
    specialize (Hrun st); remember (compressViaCanvas f quality0 maxWidth0 st) as run
  end.
  destruct run as [s' [outBlob|e]].
  - cbn. repeat split; auto. discriminate.
  - cbn [fst snd returned reported setIsProcessing setError resultUrl].
    split; [reflexivity|]. split; [discriminate|].
    intros Hurl. exfalso. apply Hurl.
    unfold getDocument in Hrun.
    destruct (pdfjs_opens (arrayBuffer f)).
    + match type of Hrun with context [render_pages _ ?q ?w ?n ?p ?todo ?out ?st] =>
        destruct (render_pages_frame q w n todo p out st) as (H1 & _);
        destruct (render_pages undisturbed q w n p todo out st) as [s2 o]
      end.
      cbn [fst] in H1. destruct o; inversion Hrun; subst. exact H1.
    + inversion Hrun; subst. reflexivity.
Qed.

End CompressPdfFacts.

(* ================================================================== *)
(** * The pipelines' contracts *)

Section FailurePolicy.

Local Open Scope string_scope.
Local Open Scope list_scope.

Variable byteLength : Blob -> N.

(** C1, as the code has it.  In split mode a page that cannot be copied
    makes the whole run fail: the failure is reported through the one
    error message, and no page output is handed to the caller, not even
    for the pages split before the failing one, since the results are
    published only after the loop has gone through every page. *)
Theorem split_is_all_or_nothing (s : SplitPdf.State) (f : File) :
  SplitPdf.file s = Some f ->
  parseable (arrayBuffer f) = true ->
  all_copyable (doc_pages (arrayBuffer f)) = false ->
  let s' := SplitPdf.split byteLength s in
  SplitPdf.emitted s' = [] /\
  SplitPdf.splitPages s' = None /\
  SplitPdf.error s' = "Failed to split PDF. Try a different file." /\
  SplitPdf.isSplitting s' = false.
Proof.
  intros Hf Hparse Hbad s'.
  destruct (SplitPdfFacts.split_fails byteLength s Hf Hparse Hbad) as (Hnone & Herr & Hbusy).
  subst s'. unfold SplitPdf.emitted. rewrite Hnone. auto.
Qed.

(** C2.  In rasterCompress mode the first page that fails to render
    aborts the run: the pages after it are never announced, the
    component ends in its error state, and there is no output document,
    partial or otherwise. *)
Theorem compress_aborts_on_first_failing_page
    (s : CompressPdf.State) (f : File) (pre post : list Page) (bad : Page) :
  CompressPdf.file s = Some f ->
  pdfjs_opens (arrayBuffer f) = true ->
  doc_pages (arrayBuffer f) = pre ++ bad :: post ->
  forallb (CompressPdf.page_ok CompressPdf.quality0 CompressPdf.maxWidth0) pre = true ->
  renderable bad = false ->
  let s' := CompressPdf.compress byteLength s in
  CompressPdf.resultUrl s' = None /\
  CompressPdf.outputPages s' = None /\
  CompressPdf.resultSize s' = None /\
  CompressPdf.error s' = CompressPdf.failure_message /\
  CompressPdf.isProcessing s' = false /\
  map CompressPdf.current (CompressPdf.progress_trace s s')
    = 0 :: 0 :: seq 1 (length pre + 1).
Proof.
  intros Hf Hopen Hpages Hpre Hbad s'.
  pose proof (CompressPdfFacts.unrenderable_not_ok
                CompressPdf.quality0 CompressPdf.maxWidth0 bad Hbad) as Hnok.
  assert (Hall : forallb (CompressPdf.page_ok CompressPdf.quality0
                            CompressPdf.maxWidth0) (doc_pages (arrayBuffer f)) = false).
  { rewrite Hpages, forallb_app. cbn [forallb]. rewrite Hnok.
    now rewrite andb_false_r. }
  destruct (CompressPdfFacts.compress_aborts byteLength s Hf (or_intror Hall))
    as (Hurl & Hsize & Herr & Hbusy).
  fold s' in Hurl, Hsize, Herr, Hbusy.
  repeat split; auto.
  - unfold CompressPdf.outputPages. now rewrite Hurl.
  - subst s'. unfold CompressPdf.compress.
    rewrite (CompressPdfFacts.compress_run _ _ s Hf). cbv zeta.
    rewrite CompressPdfFacts.compressViaCanvas_run. unfold getDocument.
    rewrite Hopen, Hpages.
    match goal with |- context [CompressPdf.render_pages _ ?q ?w ?n ?p _ ?out ?st] =>
      destruct (CompressPdfFacts.render_pages_stops q w n bad post pre p out st Hpre Hnok)
        as (Hret & Hrep);
      destruct (CompressPdf.render_pages CompressPdf.undisturbed q w n p
                  (pre ++ bad :: post) out st) as [s1 o]
    end.
    cbn [fst snd] in Hret, Hrep. destruct o as [r|e]; [discriminate|].
    erewrite CompressPdfFacts.progress_trace_app.
    2:{ cbn [CompressPdf.reported CompressPdf.setIsProcessing CompressPdf.setError].
        rewrite Hrep.
        cbn [CompressPdf.reported CompressPdf.setPageProgress CompressPdf.setResultSize
             CompressPdf.setResultUrl CompressPdf.setProgress CompressPdf.setIsProcessing
             CompressPdf.setError].
        rewrite <- !app_assoc. reflexivity. }
    rewrite map_app, map_app, CompressPdfFacts.map_current_seq. reflexivity.
Qed.

(** C5.  In merge mode a document that cannot be opened leaves no merged
    output at all: [mergedUrl] stays empty and an error is shown. *)
Theorem merge_aborts_on_undecodable_input (s : MergePdf.State) (it : MergePdf.Item) :
  In it (MergePdf.items s) ->
  MergePdf.opens it = false ->
  let s' := MergePdf.mergePDFs s in
  MergePdf.mergedUrl s' = None /\
  MergePdf.mergedPages s' = None /\
  MergePdf.error s' <> "" /\
  (2 <= length (MergePdf.items s) ->
   (MergePdf.totalSize (MergePdf.items s) <= MergePdf.MAX_SIZE_BYTES)%N ->
   MergePdf.error s' = "Failed to merge PDFs. Try re-uploading the files." /\
   MergePdf.isProcessing s' = false).
Proof.
  intros Hin Hopen s'.
  assert (Hall : forallb MergePdf.opens (MergePdf.items s) = false).
  { apply ListFacts.forallb_false_ex. eauto. }
  assert (Hrun : 2 <= length (MergePdf.items s) ->
                 (MergePdf.totalSize (MergePdf.items s) <= MergePdf.MAX_SIZE_BYTES)%N ->
                 MergePdf.mergedUrl s' = None /\
                 MergePdf.error s' = "Failed to merge PDFs. Try re-uploading the files." /\
                 MergePdf.isProcessing s' = false).
  { intros Hlen Hsize. subst s'. rewrite (MergePdfFacts.mergePDFs_run s Hlen Hsize).
    cbv zeta.
    match goal with |- context [MergePdf.merge_items ?n ?i ?todo ?d ?st] =>
      pose proof (MergePdfFacts.merge_items_throws n todo i d st Hall) as Hthrow;
      destruct (MergePdfFacts.merge_items_frame n todo i d st) as (Hurl & _);
      destruct (MergePdf.merge_items n i todo d st) as [s1 o]
    end.
    cbn [fst snd] in *. destruct o as [r|e]; [discriminate|].
    cbn. rewrite Hurl. cbn. auto. }
  assert (Hmain : MergePdf.mergedUrl s' = None /\ MergePdf.error s' <> "").
  { destruct (Nat.ltb_spec (length (MergePdf.items s)) 2) as [Hlt|Hge].
    - subst s'. unfold MergePdf.mergePDFs.
      cbn [MergePdf.items MergePdf.setMergedUrl MergePdf.setError].
      destruct (Nat.ltb_spec (length (MergePdf.items s)) 2) as [_|Hge]; [|lia].
      cbn. split; [reflexivity|discriminate].
    - destruct (N.ltb_spec MergePdf.MAX_SIZE_BYTES (MergePdf.totalSize (MergePdf.items s)))
        as [Hbig|Hok].
      + subst s'. unfold MergePdf.mergePDFs.
        cbn [MergePdf.items MergePdf.setMergedUrl MergePdf.setError].
        destruct (Nat.ltb_spec (length (MergePdf.items s)) 2) as [Hlt|_]; [lia|].
        fold (MergePdf.totalSize (MergePdf.items s)).
        destruct (N.ltb_spec MergePdf.MAX_SIZE_BYTES
                    (MergePdf.totalSize (MergePdf.items s))) as [_|Hok]; [|lia].
        cbn. split; [reflexivity|discriminate].
      + destruct (Hrun Hge Hok) as (Hurl & Herr & _).
        split; [exact Hurl|]. rewrite Herr. discriminate. }
  destruct Hmain as [Hurl Herr].
  repeat split; auto.
  - unfold MergePdf.mergedPages. now rewrite Hurl.
  - apply Hrun; assumption.
  - apply Hrun; assumption.
Qed.

End FailurePolicy.

Section PageAccounting.

Local Open Scope string_scope.
Local Open Scope list_scope.

Variable byteLength : Blob -> N.

(** Merging any list of documents that open and copy: the merged
    document is the concatenation of their pages, in list order, as
    pdf-lib saves it. *)
Lemma merge_concatenates (s : MergePdf.State) :
  2 <= length (MergePdf.items s) ->
  (MergePdf.totalSize (MergePdf.items s) <= MergePdf.MAX_SIZE_BYTES)%N ->
  forallb MergePdf.mergeable (MergePdf.items s) = true ->
  MergePdf.mergedPages (MergePdf.mergePDFs s)
    = Some (PDFDocument_save
              (flat_map (fun it => map Copied (MergePdf.pagesOf it)) (MergePdf.items s))) /\
  MergePdf.error (MergePdf.mergePDFs s) = "" /\
  MergePdf.progress (MergePdf.mergePDFs s) = "Done".
Proof.
  intros Hlen Hsize Hall. rewrite (MergePdfFacts.mergePDFs_run s Hlen Hsize). cbv zeta.
  match goal with |- context [MergePdf.merge_items ?n ?i ?todo ?d ?st] =>
    pose proof (MergePdfFacts.merge_items_ok n todo i d st Hall) as Hok;
    destruct (MergePdfFacts.merge_items_frame n todo i d st) as (_ & Herr & _);
    destruct (MergePdf.merge_items n i todo d st) as [s1 o]
  end.
  cbn [fst snd] in *. subst o. cbn. rewrite Herr. cbn. auto.
Qed.

(** C4.  Merging document A followed by document B gives one document
    whose first a pages are A's pages in their order and whose next b
    pages are B's pages in their order.  When the two have a page
    between them these a + b pages are all there is; when neither has a
    page the merged document is the one blank page pdf-lib saves. *)
Theorem merge_preserves_order (s : MergePdf.State) (A B : MergePdf.Item) :
  MergePdf.items s = [A; B] ->
  MergePdf.mergeable A = true ->
  MergePdf.mergeable B = true ->
  (MergePdf.size A + MergePdf.size B <= MergePdf.MAX_SIZE_BYTES)%N ->
  let a := length (MergePdf.pagesOf A) in
  let b := length (MergePdf.pagesOf B) in
  exists merged,
    MergePdf.mergedPages (MergePdf.mergePDFs s) = Some merged /\
    firstn a merged = map Copied (MergePdf.pagesOf A) /\
    firstn b (skipn a merged) = map Copied (MergePdf.pagesOf B) /\
    (1 <= a + b ->
       length merged = a + b /\ skipn a merged = map Copied (MergePdf.pagesOf B)) /\
    (a + b = 0 -> merged = [Blank]).
Proof.
  intros Hitems HA HB Hsize a b.
  destruct (merge_concatenates s) as (Hout & _).
  - rewrite Hitems. cbn. lia.
  - rewrite Hitems. unfold MergePdf.totalSize. cbn [fold_left]. lia.
  - rewrite Hitems. cbn [forallb]. now rewrite HA, HB.
  - rewrite Hitems in Hout. cbn [flat_map] in Hout. rewrite app_nil_r in Hout.
    eexists. split; [exact Hout|].
    set (PA := map Copied (MergePdf.pagesOf A)).
    set (PB := map Copied (MergePdf.pagesOf B)).
    assert (Ha : length PA = a) by apply length_map.
    assert (Hb : length PB = b) by apply length_map.
    assert (Hcat : firstn a (PA ++ PB) = PA /\ skipn a (PA ++ PB) = PB).
    { rewrite <- Ha, firstn_app, firstn_all, skipn_app, skipn_all, Nat.sub_diag.
      cbn. now rewrite app_nil_r. }
    destruct (Nat.eq_dec (a + b) 0) as [Hzero|Hsome].
    + assert (HPA : PA = []) by (apply length_zero_iff_nil; lia).
      assert (HPB : PB = []) by (apply length_zero_iff_nil; lia).
      rewrite HPA, HPB. replace a with 0 by lia. replace b with 0 by lia.
      cbn. split; [reflexivity|]. split; [reflexivity|]. split; [lia|reflexivity].
    + rewrite PdfFacts.save_of_pages by (rewrite length_app; lia).
      destruct Hcat as [Hfirst Hskip]. rewrite Hfirst, Hskip.
      split; [reflexivity|]. split.
      * rewrite <- Hb. apply firstn_all.
      * split; [|lia]. intros _. split; [|reflexivity].
        rewrite length_app. lia.
Qed.

(** C6, as the code has it.  A document of N pages that goes through
    without error comes out of split as N one-page documents, the i-th
    holding the i-th source page.  Out of rasterCompress it comes as one
    document which, for N of at least 1, has N pages, the i-th being the
    image of the i-th source page; for N = 0 it has one page, the blank
    page pdf-lib adds when it saves a document without pages. *)
Theorem round_trip_page_count
    (f : File) (ss : SplitPdf.State) (sc : CompressPdf.State) :
  SplitPdf.file ss = Some f ->
  CompressPdf.file sc = Some f ->
  parseable (arrayBuffer f) = true ->
  all_copyable (doc_pages (arrayBuffer f)) = true ->
  pdfjs_opens (arrayBuffer f) = true ->
  forallb (CompressPdf.page_ok CompressPdf.quality0 CompressPdf.maxWidth0)
    (doc_pages (arrayBuffer f)) = true ->
  let numPages := length (doc_pages (arrayBuffer f)) in
  (exists outs,
     SplitPdf.splitPages (SplitPdf.split byteLength ss) = Some outs /\
     length outs = numPages /\
     forall i p, nth_error (doc_pages (arrayBuffer f)) i = Some p ->
       exists r, nth_error outs i = Some r /\
                 blob_parts (SplitPdf.url r) = [Copied p] /\
                 SplitPdf.pageNum r = i + 1) /\
  (exists out,
     CompressPdf.outputPages (CompressPdf.compress byteLength sc) = Some out /\
     (1 <= numPages ->
        length out = numPages /\
        forall i p, nth_error (doc_pages (arrayBuffer f)) i = Some p ->
          nth_error out i
            = Some (CompressPdf.raster CompressPdf.quality0
                      CompressPdf.maxWidth0 p)) /\
     (numPages = 0 -> out = [Blank])).
Proof.
  intros Hfs Hfc Hparse Hcopy Hopen Hok numPages. split.
  - destruct (SplitPdfFacts.split_succeeds byteLength ss Hfs Hparse Hcopy) as (Hout & _).
    eexists. split; [exact Hout|]. split.
    + apply SplitPdfFacts.results_from_length.
    + intros i p Hi. eexists. split.
      * apply SplitPdfFacts.results_from_nth. exact Hi.
      * split; reflexivity.
  - destruct (CompressPdfFacts.compress_completes byteLength CompressPdf.undisturbed
                sc Hfc Hopen Hok) as (Hurl & _).
    eexists. split.
    + unfold CompressPdf.outputPages, CompressPdf.compress. rewrite Hurl. reflexivity.
    + cbn [blob_parts save_blob]. split.
      * intros Hsome.
        rewrite PdfFacts.save_of_pages by (rewrite length_map; exact Hsome).
        split; [apply length_map|].
        intros i p Hi. now apply map_nth_error.
      * intros Hnone. apply PdfFacts.save_of_none. rewrite length_map. exact Hnone.
Qed.

End PageAccounting.

Section Progress.

Import CompressPdf CompressPdfFacts.
Local Open Scope list_scope.

Variable byteLength : Blob -> N.

(** C7.  Across a rasterCompress run the [current] values handed to the
    progress observer never decrease; and in a run that completes on an
    N-page document the orchestrator reports 0, 1, ..., N: every page
    once, N exactly once. *)
Theorem progress_is_monotonic (s : State) (f : File) :
  file s = Some f ->
  let numPages := length (doc_pages (arrayBuffer f)) in
  let s' := compress byteLength s in
  let seen := map current (progress_trace s s') in
  let own := map current (progress_trace (entering s) s') in
  nondecreasing seen /\
  (resultUrl s' <> None ->
     own = seq 0 (S numPages) /\
     count_occ Nat.eq_dec own numPages = 1 /\
     seen = 0 :: own /\
     (forall p, 1 <= p <= numPages -> count_occ Nat.eq_dec seen p = 1)).
Proof.
  intros Hf numPages s' seen own.
  destruct (compress_reported byteLength s Hf) as (Hs1 & Hrep & Hret).
  cbv zeta in Hrep, Hret. fold s' in Hrep, Hret.
  destruct (compressViaCanvas_reported f quality0 maxWidth0 (entering s))
    as [(Hthrown & Hsame) | (k & Hk & Hseq & Hall)].
  - (* pdfjs could not open the file *)
    assert (Hseen : seen = [0]).
    { subst seen. rewrite (progress_trace_app s s' [mkPageProgress 0 0]); [reflexivity|].
      rewrite Hrep, Hsame. exact Hs1. }
    split; [rewrite Hseen; exact I|].
    intros Hurl. apply Hret in Hurl. congruence.
  - fold numPages in Hk, Hseq, Hall.
    assert (Hown : own = seq 0 (S k)).
    { subst own.
      rewrite (progress_trace_app (entering s) s'
                 (map (fun c => mkPageProgress c numPages) (seq 0 (S k)))).
      - apply map_current_seq.
      - rewrite Hrep. exact Hseq. }
    assert (Hseen : seen = 0 :: seq 0 (S k)).
    { subst seen.
      rewrite (progress_trace_app s s'
                 (mkPageProgress 0 0
                    :: map (fun c => mkPageProgress c numPages) (seq 0 (S k)))).
      - cbn [map current]. f_equal. apply map_current_seq.
      - rewrite Hrep, Hseq, Hs1, <- app_assoc. reflexivity. }
    split.
    + rewrite Hseen. split; [lia|apply nondecreasing_seq].
    + intros Hurl. apply Hret in Hurl. specialize (Hall Hurl). subst k.
      rewrite Hseen, Hown. repeat split.
      * apply count_occ_seq_in. lia.
      * intros p Hp. cbn [count_occ].
        destruct (Nat.eq_dec 0 p); [lia|].
        apply count_occ_seq_in. lia.
Qed.

End Progress.

Section Scaling.

Import CompressPdf CompressPdfFacts Binary64 Binary64Facts.
Local Open Scope Q_scope.

Variable byteLength : Blob -> N.

(** The viewport at scale 1 has the sides of the page box. *)
Lemma viewport_at_scale_1 (page : Page) :
  fl (native_width page) == native_width page ->
  width (getViewport page 1) == native_width page.
Proof.
  intros Hd. cbn [getViewport width].
  rewrite (fl_comp (x := native_width page * 1) (y := native_width page)); [exact Hd|ring].
Qed.

Lemma render_scale_spec (maxWidth : Q) (page : Page) :
  0 < native_width page ->
  fl (native_width page) == native_width page ->
  render_scale maxWidth (getViewport page 1)
  == Qmin 1 (fl (maxWidth / native_width page)).
Proof.
  intros Hw Hd. pose proof (viewport_at_scale_1 page Hd) as Hv.
  unfold render_scale.
  destruct (Qeq_bool (width (getViewport page 1)) 0) eqn:Hz.
  - apply Qeq_bool_eq in Hz. rewrite Hv in Hz. rewrite Hz in Hw. discriminate.
  - apply Qmin_comp_r. apply fl_comp. now rewrite Hv.
Qed.

Lemma scale_at_most_one (x : Q) : Qmin 1 x <= 1.
Proof. apply Q.le_min_l. Qed.

Lemma scale_of_narrow_page (maxWidth w : Q) :
  0 < w -> w <= maxWidth -> Qmin 1 (fl (maxWidth / w)) == 1.
Proof.
  intros Hw Hle. apply Q.min_l. rewrite <- fl_one at 1. apply fl_mono.
  apply Qle_shift_div_l; [exact Hw|]. now rewrite Qmult_1_l.
Qed.

(** The canvas of a page, in the page's own numbers. *)
Lemma canvas_size_spec (maxWidth : Q) (page : Page) :
  0 < native_width page ->
  fl (native_width page) == native_width page ->
  let scale := Qmin 1 (fl (maxWidth / native_width page)) in
  canvas_size maxWidth page
  = (Js.Math_round (fl (native_width page * scale)),
     Js.Math_round (fl (native_height page * scale))).
Proof.
  intros Hw Hd scale. pose proof (render_scale_spec maxWidth page Hw Hd) as Hs.
  fold scale in Hs. unfold canvas_size. cbn [getViewport width height].
  f_equal; apply JsFacts.Math_round_comp, fl_comp; now rewrite Hs.
Qed.

(** C3.  Every page of a document the compress pipeline turns into an
    output is rendered at scale min(1, 1400 / nativeWidth) into a
    canvas of round(nativeWidth * scale) by round(nativeHeight * scale)
    pixels, each quotient and product being the binary64 one, and the
    image embedded for the page has that size.  So the image is never
    wider than the page; a page no wider than 1400 keeps its width; and
    a page 2000 wide becomes 1400 wide, at the scale binary64 has for
    0.7. *)
Theorem raster_scale_never_upscales
    (s : State) (f : File) (i : nat) (page : Page) :
  file s = Some f ->
  pdfjs_opens (arrayBuffer f) = true ->
  forallb (page_ok quality0 maxWidth0) (doc_pages (arrayBuffer f)) = true ->
  nth_error (doc_pages (arrayBuffer f)) i = Some page ->
  0 < native_width page ->
  fl (native_width page) == native_width page ->
  let scale := Qmin 1 (fl (1400 / native_width page)) in
  let w := Js.Math_round (fl (native_width page * scale)) in
  let h := Js.Math_round (fl (native_height page * scale)) in
  render_scale 1400 (getViewport page 1) == scale /\
  (exists out,
     outputPages (compress byteLength s) = Some out /\
     nth_error out i = Some (Image w h quality0 page)) /\
  (w <= Js.Math_round (native_width page))%Z /\
  (native_width page <= 1400 -> w = Js.Math_round (native_width page)) /\
  (forall z : Z, native_width page == inject_Z z ->
                 native_width page <= 1400 -> w = z) /\
  (native_width page == 2000 -> scale == fl (7 # 10) /\ w = 1400%Z).
Proof.
  intros Hf Hopen Hok Hnth Hw Hd scale w h.
  pose proof (render_scale_spec 1400 page Hw Hd) as Hscale. fold scale in Hscale.
  assert (Hone : scale <= 1) by apply scale_at_most_one.
  split; [exact Hscale|]. split; [|split; [|split; [|split]]].
  - destruct (compress_completes byteLength undisturbed s Hf Hopen Hok) as (Hurl & _).
    eexists. split.
    + unfold outputPages, compress. rewrite Hurl. reflexivity.
    + cbn [blob_parts save_blob].
      rewrite PdfFacts.save_of_pages.
      * rewrite (map_nth_error _ _ _ Hnth). f_equal. unfold raster.
        change maxWidth0 with 1400. rewrite (canvas_size_spec 1400 page Hw Hd).
        reflexivity.
      * rewrite length_map.
        assert (Hi : (i < length (doc_pages (arrayBuffer f)))%nat)
          by (apply nth_error_Some; congruence).
        lia.
  - apply JsFacts.Math_round_mono. rewrite <- Hd at 2. apply fl_mono.
    rewrite <- (Qmult_1_r (native_width page)) at 2.
    apply Qmult_le_l; [exact Hw|exact Hone].
  - intros Hle. apply JsFacts.Math_round_comp.
    transitivity (fl (native_width page)); [|exact Hd].
    apply fl_comp. unfold scale.
    rewrite (scale_of_narrow_page Hw Hle). apply Qmult_1_r.
  - intros z Hz Hle.
    rewrite <- (JsFacts.Math_round_Z z).
    apply JsFacts.Math_round_comp.
    transitivity (fl (native_width page)); [|now rewrite Hd].
    apply fl_comp. unfold scale.
    rewrite (scale_of_narrow_page Hw Hle). apply Qmult_1_r.
  - intros H2000.
    assert (Hq : fl (1400 / native_width page) == fl (7 # 10)).
    { apply fl_comp. rewrite H2000. reflexivity. }
    assert (Hs : scale == fl (7 # 10)).
    { unfold scale. rewrite (Qmin_comp_r 1 Hq). apply Q.min_r.
      vm_compute. discriminate. }
    split; [exact Hs|].
    unfold w.
    rewrite (JsFacts.Math_round_comp (x := fl (native_width page * scale))
               (y := fl (2000 * fl (7 # 10)))).
    + vm_compute. reflexivity.
    + apply fl_comp. now rewrite Hs, H2000.
Qed.

End Scaling.

(** ** ImageReduce *)

Module ImageReduceFacts.

Import ImageReduce Binary64 Binary64Facts.
Local Open Scope Q_scope.

Lemma resize_scale_unfold bmp cfg cw ch :
  resize_scale bmp cfg cw ch =
  Qmin (fl (Qmin (fst (requested bmp cfg cw ch)) (inject_Z (bmp_width bmp))
              / inject_Z (bmp_width bmp)))
       (fl (Qmin (snd (requested bmp cfg cw ch)) (inject_Z (bmp_height bmp))
              / inject_Z (bmp_height bmp))).
Proof.
  unfold resize_scale. destruct (requested bmp cfg cw ch). reflexivity.
Qed.

(** The sides of a bitmap are below 2^32. *)
Lemma bitmap_sides (bmp : ImageBitmap) :
  (bmp_width bmp < 4294967296 /\ bmp_height bmp < 4294967296)%Z.
Proof.
  pose proof (bmp_unsigned_long bmp) as H. apply andb_true_iff in H.
  destruct H as [Hw Hh]. apply Z.ltb_lt in Hw, Hh. split; assumption.
Qed.

(** A side is a number binary64 holds. *)
Lemma fl_side (b : Z) :
  (1 <= b < 4294967296)%Z -> fl (inject_Z b) == inject_Z b.
Proof. intros Hb. apply fl_Z. lia. Qed.

Lemma side_pos (b : Z) : (1 <= b)%Z -> 0 < inject_Z b.
Proof. intros H. change 0 with (inject_Z 0). rewrite <- Zlt_Qlt. lia. Qed.

Lemma clamped_ratio (t b : Q) : 0 < b -> Qmin t b / b <= 1.
Proof.
  intros Hb. apply Qle_shift_div_r; [exact Hb|].
  rewrite Qmult_1_l. apply Q.le_min_r.
Qed.

Lemma resize_scale_le_1 bmp cfg cw ch :
  (1 <= bmp_width bmp)%Z -> resize_scale bmp cfg cw ch <= 1.
Proof.
  intros Hw. rewrite resize_scale_unfold.
  eapply Qle_trans; [apply Q.le_min_l|].
  rewrite <- fl_one. apply fl_mono.
  apply clamped_ratio. now apply side_pos.
Qed.

(** A side of [b] pixels scaled by at most 1 and rounded stays within
    1 .. b. *)
Lemma scaled_side_bounds (b : Z) (scale : Q) :
  (1 <= b < 4294967296)%Z -> scale <= 1 ->
  (1 <= Z.max 1 (Js.Math_round (fl (inject_Z b * scale))) <= b)%Z.
Proof.
  intros Hb Hs. split; [lia|].
  apply Z.max_lub; [lia|].
  rewrite <- (JsFacts.Math_round_Z b) at 2.
  apply JsFacts.Math_round_mono.
  rewrite <- (fl_side Hb) at 2. apply fl_mono.
  rewrite <- (Qmult_1_r (inject_Z b)) at 2.
  apply Qmult_le_l; [|exact Hs].
  apply side_pos. lia.
Qed.

(** Unless the floor of one pixel applies, the rounded side is within
    half a pixel of the scaled one. *)
Lemma scaled_side_near (b : Z) (scale : Q) :
  let out := Z.max 1 (Js.Math_round (fl (inject_Z b * scale))) in
  out = 1%Z \/
  (fl (inject_Z b * scale) - (1 # 2) < inject_Z out /\
   inject_Z out <= fl (inject_Z b * scale) + (1 # 2)).
Proof.
  cbv zeta.
  destruct (Z.max_spec 1 (Js.Math_round (fl (inject_Z b * scale)))) as [[_ ->]|[_ ->]].
  - right. apply JsFacts.Math_round_near.
  - now left.
Qed.

End ImageReduceFacts.

Section ImageSizing.

Import ImageReduce ImageReduceFacts Binary64.
Local Open Scope Q_scope.

Variable toBlob : Z -> Z -> string -> Q -> option N.

(** C10.  Every image the image-reduce path processes successfully comes
    out no larger than the source bitmap in either dimension and at
    least one pixel in each; both sides are the source sides times one
    scale, the smaller of the width ratio and the height ratio of the
    target clamped to the source, rounded.  The ratios and the products
    are the binary64 ones. *)
Theorem image_reduce_output_size (s : State) (selected : ImageFile) (bmp : ImageBitmap) :
  selectedFile s = Some selected ->
  bitmap selected = inl bmp ->
  (1 <= bmp_width bmp)%Z ->
  (1 <= bmp_height bmp)%Z ->
  error (handleUpload toBlob s) = ""%string ->
  exists r targetW targetH scale,
    resizedImage (handleUpload toBlob s) = Some r /\
    requested bmp (getCurrentConfig s) (customWidth s) (customHeight s)
      = (targetW, targetH) /\
    scale = Qmin (fl (Qmin targetW (inject_Z (bmp_width bmp)) / inject_Z (bmp_width bmp)))
                 (fl (Qmin targetH (inject_Z (bmp_height bmp)) / inject_Z (bmp_height bmp))) /\
    scale <= 1 /\
    canvas_width (url r)
      = Z.max 1 (Js.Math_round (fl (inject_Z (bmp_width bmp) * scale))) /\
    canvas_height (url r)
      = Z.max 1 (Js.Math_round (fl (inject_Z (bmp_height bmp) * scale))) /\
    (1 <= canvas_width (url r) <= bmp_width bmp)%Z /\
    (1 <= canvas_height (url r) <= bmp_height bmp)%Z /\
    (canvas_width (url r) = 1%Z \/
     (fl (inject_Z (bmp_width bmp) * scale) - (1 # 2) < inject_Z (canvas_width (url r)) /\
      inject_Z (canvas_width (url r)) <= fl (inject_Z (bmp_width bmp) * scale) + (1 # 2))) /\
    (canvas_height (url r) = 1%Z \/
     (fl (inject_Z (bmp_height bmp) * scale) - (1 # 2) < inject_Z (canvas_height (url r)) /\
      inject_Z (canvas_height (url r)) <= fl (inject_Z (bmp_height bmp) * scale) + (1 # 2))).
Proof.
  intros Hsel Hbmp Hw Hh Herr.
  pose proof (resize_scale_le_1 bmp (getCurrentConfig s) (customWidth s) (customHeight s) Hw)
    as Hle.
  pose proof (resize_scale_unfold bmp (getCurrentConfig s) (customWidth s) (customHeight s))
    as Hunf.
  destruct (bitmap_sides bmp) as [Hbw Hbh].
  unfold handleUpload in *. rewrite Hsel in *.
  unfold try_catch_finally, upload_body, bind, await, set in *.
  rewrite Hbmp in *. unfold output_size in *.
  set (scale := resize_scale bmp (getCurrentConfig s) (customWidth s) (customHeight s)) in *.
  destruct (requested bmp (getCurrentConfig s) (customWidth s) (customHeight s))
    as [targetW targetH] eqn:Hreq.
  cbn [fst snd] in Hunf.
  match type of Herr with context [toBlob ?w ?h ?m ?q] =>
    destruct (toBlob w h m q) as [n|];
    [exists (mkResized (mkCanvasBlob w h m q n) (bytesToKB n)), targetW, targetH, scale|]
  end.
  - cbn [url canvas_width canvas_height].
    split; [reflexivity|]. split; [reflexivity|]. split; [exact Hunf|].
    split; [exact Hle|]. split; [reflexivity|]. split; [reflexivity|].
    split; [apply scaled_side_bounds; [lia|assumption]|].
    split; [apply scaled_side_bounds; [lia|assumption]|].
    split; apply scaled_side_near.
  - cbn in Herr. discriminate.
Qed.

End ImageSizing.

Section Cancellation.

Import CompressPdf CompressPdfFacts.
Local Open Scope string_scope.

Variable byteLength : Blob -> N.

(** C9, as the code has it.  The orchestrator consults no cancellation
    flag: whatever the handlers of other events do to the cells between
    pages, pressing Reset included, a run over a document whose pages
    all rasterize goes through every page, ends in the Completed state
    and produces the output document: the images of the pages, as
    pdf-lib saves them. *)
Theorem compress_runs_to_completion
    (meanwhile : nat -> State -> State) (s : State) (f : File) :
  file s = Some f ->
  pdfjs_opens (arrayBuffer f) = true ->
  forallb (page_ok quality0 maxWidth0) (doc_pages (arrayBuffer f)) = true ->
  let s' := compress_with byteLength meanwhile s in
  let images := map (raster quality0 maxWidth0) (doc_pages (arrayBuffer f)) in
  progress s' = "Completed" /\
  outputPages s' = Some (PDFDocument_save images) /\
  (1 <= length (doc_pages (arrayBuffer f)) -> outputPages s' = Some images) /\
  resultSize s' = Some (byteLength (save_blob images)) /\
  isProcessing s' = false.
Proof.
  intros Hf Hopen Hok s' images.
  destruct (compress_completes byteLength meanwhile s Hf Hopen Hok)
    as (Hurl & Hsize & Hprog & Hbusy).
  fold s' in Hurl, Hsize, Hprog, Hbusy. fold images in Hurl, Hsize.
  assert (Hout : outputPages s' = Some (PDFDocument_save images)).
  { unfold outputPages. rewrite Hurl. reflexivity. }
  split; [exact Hprog|]. split; [exact Hout|]. split; [|split; assumption].
  intros Hsome. rewrite Hout. f_equal. apply PdfFacts.save_of_pages.
  unfold images. now rewrite length_map.
Qed.

End Cancellation.

Section Decoding.

Local Open Scope string_scope.
Local Open Scope list_scope.

(** A document that is well formed and encrypted: ignore-encryption
    handling opens it, [mergePDFs] does not. *)
Lemma encrypted_document_opens_only_when_ignored (b : Bytes) :
  parseable b = true ->
  encrypted b = true ->
  PDFDocument_load b true = Returned (doc_pages b) /\
  PDFDocument_load b false = Thrown EncryptedPDFError.
Proof.
  intros Hp He. unfold PDFDocument_load. rewrite Hp, He. auto.
Qed.

(** C8, where the code departs from it.  A well-formed encrypted
    document is opened by ignore-encryption handling: the page counter of
    the merge list reads its two pages and split turns it into two
    one-page documents.  [mergePDFs] loads it without the option, and
    the merge of a plain document with it fails. *)
Theorem merge_rejects_encrypted_document :
  let s0 := MergePdf.onDrop [("1", Samples.doc_A);
                             ("2", Samples.doc_encrypted)] MergePdf.initial in
  let s := MergePdf.mergePDFs s0 in
  PDFDocument_load (arrayBuffer Samples.doc_encrypted) true
    = Returned [Samples.a4 31 true; Samples.a4 32 true] /\
  map MergePdf.pages (MergePdf.items s0) = [Some 3; Some 2] /\
  option_map (@length _)
    (SplitPdf.splitPages
       (SplitPdf.split Samples.flat_writer
          (Samples.split_loaded Samples.doc_encrypted))) = Some 2 /\
  PDFDocument_load (arrayBuffer Samples.doc_encrypted) false
    = Thrown EncryptedPDFError /\
  MergePdf.mergedUrl s = None /\
  MergePdf.error s = "Failed to merge PDFs. Try re-uploading the files.".
Proof. vm_compute. repeat split; reflexivity. Qed.

End Decoding.

(* ================================================================== *)
(** * Worked instances *)

Module Instances.

Local Open Scope string_scope.
Local Open Scope list_scope.

(** ** Split: five pages, the third corrupt *)

Lemma split_is_all_or_nothing_witness :
  SplitPdf.emitted Samples.split_run = [] /\
  SplitPdf.splitPages Samples.split_run = None /\
  SplitPdf.error Samples.split_run = "Failed to split PDF. Try a different file." /\
  SplitPdf.isSplitting Samples.split_run = false.
Proof.
  apply (@split_is_all_or_nothing Samples.flat_writer
           (Samples.split_loaded Samples.five_pages_third_corrupt)
           Samples.five_pages_third_corrupt); reflexivity.
Defined.

(** C1 as stated fails: on the five-page document whose third page is
    corrupt, split hands over no page at all, neither the four the
    claim promises nor the two split before the failure. *)
Lemma split_keeps_nothing_after_a_page_failure :
  SplitPdf.splitPages Samples.split_run = None /\
  length (SplitPdf.emitted Samples.split_run) <> 4 /\
  ~ In (SplitPdf.page_result Samples.flat_writer 0 (Samples.a4 1 true))
       (SplitPdf.emitted Samples.split_run) /\
  ~ SplitPdf.best_effort Samples.flat_writer Samples.five_pages_third_corrupt Samples.split_run.
Proof.
  assert (Hnone : SplitPdf.emitted Samples.split_run = []) by (vm_compute; reflexivity).
  split; [vm_compute; reflexivity|].
  split; [rewrite Hnone; discriminate|].
  split; [rewrite Hnone; intros []|].
  intros [Hall _].
  specialize (Hall 0 (Samples.a4 1 true) eq_refl eq_refl).
  rewrite Hnone in Hall. exact Hall.
Qed.

(** ** Compress: five pages, the third corrupt *)

Lemma compress_aborts_on_first_failing_page_witness :
  let s := Samples.compress_loaded Samples.five_pages_third_corrupt in
  let s' := CompressPdf.compress Samples.flat_writer s in
  CompressPdf.resultUrl s' = None /\
  CompressPdf.outputPages s' = None /\
  CompressPdf.resultSize s' = None /\
  CompressPdf.error s' = CompressPdf.failure_message /\
  CompressPdf.isProcessing s' = false /\
  map CompressPdf.current (CompressPdf.progress_trace s s') = [0; 0; 1; 2; 3].
Proof.
  apply (@compress_aborts_on_first_failing_page Samples.flat_writer
           (Samples.compress_loaded Samples.five_pages_third_corrupt)
           Samples.five_pages_third_corrupt
           [Samples.a4 1 true; Samples.a4 2 true]
           [Samples.a4 4 true; Samples.a4 5 true]
           (Samples.a4 3 false)); reflexivity.
Defined.

(** ** Compress: a 2000-wide first page *)

Lemma raster_scale_never_upscales_witness :
  exists out,
    CompressPdf.outputPages
      (CompressPdf.compress Samples.flat_writer
         (Samples.compress_loaded Samples.three_pages)) = Some out /\
    nth_error out 0 = Some (Image 1400 2100 CompressPdf.quality0 Samples.wide_page).
Proof.
  pose proof (@raster_scale_never_upscales Samples.flat_writer
                (Samples.compress_loaded Samples.three_pages)
                Samples.three_pages 0 Samples.wide_page
                eq_refl eq_refl eq_refl eq_refl eq_refl
                ltac:(vm_compute; reflexivity)) as H.
  cbv zeta in H. destruct H as (_ & (out & Hout & Hnth) & _).
  exists out. split; [exact Hout|].
  rewrite Hnth. vm_compute. reflexivity.
Defined.

(** ** Merge *)

Lemma merge_preserves_order_witness :
  exists merged,
    MergePdf.mergedPages (MergePdf.mergePDFs (Samples.listed [Samples.A; Samples.B])) = Some merged /\
    firstn 3 merged = map Copied (MergePdf.pagesOf Samples.A) /\
    firstn 2 (skipn 3 merged) = map Copied (MergePdf.pagesOf Samples.B) /\
    length merged = 3 + 2.
Proof.
  destruct (@merge_preserves_order (Samples.listed [Samples.A; Samples.B])
              Samples.A Samples.B eq_refl eq_refl eq_refl
              ltac:(vm_compute; discriminate))
    as (merged & Hout & HA & HB & Hall & _).
  exists merged. split; [exact Hout|]. split; [exact HA|]. split; [exact HB|].
  apply Hall. simpl. lia.
Defined.

Lemma merge_aborts_on_undecodable_input_witness :
  let s' := MergePdf.mergePDFs (Samples.listed [Samples.A; Samples.C; Samples.B]) in
  MergePdf.mergedUrl s' = None /\ MergePdf.mergedPages s' = None.
Proof.
  pose proof (@merge_aborts_on_undecodable_input (Samples.listed [Samples.A; Samples.C; Samples.B]) Samples.C) as H.
  cbv zeta in H. destruct H as (Hurl & Hpages & _).
  - simpl. auto.
  - reflexivity.
  - split; assumption.
Defined.

(** ** Page counts: five sound pages *)

Lemma round_trip_page_count_witness :
  (exists outs,
     SplitPdf.splitPages
       (SplitPdf.split Samples.flat_writer
          (Samples.split_loaded Samples.five_pages)) = Some outs /\
     length outs = 5) /\
  (exists out,
     CompressPdf.outputPages
       (CompressPdf.compress Samples.flat_writer
          (Samples.compress_loaded Samples.five_pages)) = Some out /\
     length out = 5).
Proof.
  destruct (@round_trip_page_count Samples.flat_writer Samples.five_pages
              (Samples.split_loaded Samples.five_pages)
              (Samples.compress_loaded Samples.five_pages)
              eq_refl eq_refl eq_refl eq_refl eq_refl eq_refl)
    as [(outs & Hs & Hn & _) (out & Hc & Hm & _)].
  split; [exists outs | exists out]; split; try assumption.
  apply Hm. simpl. lia.
Defined.

(** C6 as stated fails: a well-formed document without pages goes
    through rasterCompress without error, and the output document has
    one page, not none. *)
Lemma compress_of_no_pages_has_a_page :
  let s' := CompressPdf.compress Samples.flat_writer
              (Samples.compress_loaded Samples.no_pages) in
  length (doc_pages (arrayBuffer Samples.no_pages)) = 0 /\
  CompressPdf.error s' = "" /\
  CompressPdf.progress s' = "Completed" /\
  CompressPdf.outputPages s' = Some [Blank] /\
  option_map (@length _) (CompressPdf.outputPages s')
    <> Some (length (doc_pages (arrayBuffer Samples.no_pages))).
Proof.
  cbv zeta.
  split; [reflexivity|].
  split; [vm_compute; reflexivity|].
  split; [vm_compute; reflexivity|].
  split; [vm_compute; reflexivity|].
  vm_compute. discriminate.
Qed.

(** ** Progress: three pages *)

Lemma progress_is_monotonic_witness :
  let s := Samples.compress_loaded Samples.three_pages in
  let s' := CompressPdf.compress Samples.flat_writer s in
  CompressPdf.nondecreasing
    (map CompressPdf.current (CompressPdf.progress_trace s s')) /\
  count_occ Nat.eq_dec
    (map CompressPdf.current
       (CompressPdf.progress_trace (CompressPdf.entering s) s')) 3 = 1.
Proof.
  pose proof (@progress_is_monotonic Samples.flat_writer
                (Samples.compress_loaded Samples.three_pages)
                Samples.three_pages eq_refl) as H.
  cbv zeta in H. destruct H as (Hmono & Hdone).
  split; [exact Hmono|].
  destruct Hdone as (_ & Hcount & _); [vm_compute; discriminate|exact Hcount].
Defined.

(** ** Cancellation: Reset pressed while page 2 of 3 is in the works *)

Lemma compress_runs_to_completion_witness :
  CompressPdf.progress Samples.abandoned_run = "Completed" /\
  CompressPdf.outputPages Samples.abandoned_run
    = Some (map (CompressPdf.raster CompressPdf.quality0 CompressPdf.maxWidth0)
              (doc_pages (arrayBuffer Samples.three_pages))).
Proof.
  pose proof (@compress_runs_to_completion Samples.flat_writer
                (CompressPdf.reset_during 2)
                (Samples.compress_loaded Samples.three_pages)
                Samples.three_pages eq_refl eq_refl eq_refl) as H.
  cbv zeta in H. destruct H as (Hdone & _ & Hout & _).
  split; [exact Hdone|]. apply Hout. simpl. lia.
Defined.

(** C9 as stated fails: the caller abandons the run during page 2 (the
    Reset handler clears the file), and the orchestrator still announces
    page 3, reaches Completed and leaves a three-page output. *)
Lemma compress_ignores_reset :
  CompressPdf.file Samples.abandoned_run = None /\
  map CompressPdf.current
    (CompressPdf.progress_trace
       (Samples.compress_loaded Samples.three_pages) Samples.abandoned_run)
    = [0; 0; 1; 2; 0; 3] /\
  CompressPdf.progress Samples.abandoned_run = "Completed" /\
  option_map (@length _) (CompressPdf.outputPages Samples.abandoned_run) = Some 3 /\
  ~ (CompressPdf.progress Samples.abandoned_run <> "Completed" /\
     CompressPdf.resultUrl Samples.abandoned_run = None).
Proof.
  split; [vm_compute; reflexivity|].
  split; [vm_compute; reflexivity|].
  split; [vm_compute; reflexivity|].
  split; [vm_compute; reflexivity|].
  intros [Hnot _]. apply Hnot. vm_compute. reflexivity.
Qed.

(** ** Image reduce: a 1200 x 800 photograph for the SSC preset *)

Lemma image_reduce_output_size_witness :
  exists r,
    ImageReduce.resizedImage
      (ImageReduce.handleUpload Samples.flat_encoder
         (Samples.selected Samples.photograph "SSC")) = Some r /\
    (1 <= ImageReduce.canvas_width (ImageReduce.url r) <= 1200)%Z /\
    (1 <= ImageReduce.canvas_height (ImageReduce.url r) <= 800)%Z.
Proof.
  destruct (@image_reduce_output_size Samples.flat_encoder
              (Samples.selected Samples.photograph "SSC")
              Samples.photograph (ImageReduce.mkBitmap 1200 800 eq_refl)
              eq_refl eq_refl ltac:(simpl; lia) ltac:(simpl; lia)
              ltac:(vm_compute; reflexivity))
    as (r & tw & th & sc & Hr & _ & _ & _ & _ & _ & Hw & Hh & _).
  exists r. split; [exact Hr|]. split; [exact Hw|exact Hh].
Defined.

End Instances.

(* ================================================================== *)
(** * Further properties of the handlers *)

(** ** Text *)

Module TextFacts.

Local Open Scope string_scope.

Lemma length_append (a b : string) :
  String.length (a ++ b) = String.length a + String.length b.
Proof. induction a as [|c a IH]; cbn; [reflexivity|now rewrite IH]. Qed.

Lemma append_nil_r (a : string) : a ++ "" = a.
Proof. induction a as [|c a IH]; cbn; [reflexivity|now rewrite IH]. Qed.

Lemma append_assoc (a b c : string) : (a ++ b) ++ c = a ++ (b ++ c).
Proof. induction a as [|x a IH]; cbn; [reflexivity|now rewrite IH]. Qed.

Lemma append_inj_l (a x y : string) : a ++ x = a ++ y -> x = y.
Proof.
  induction a as [|c a IH]; cbn; intros H; [exact H|].
  inversion H. auto.
Qed.

Lemma append_inj_r (z : string) : forall x y, x ++ z = y ++ z -> x = y.
Proof.
  induction x as [|c x IH]; intros y H.
  - destruct y as [|d y]; [reflexivity|].
    apply (f_equal String.length) in H. cbn in H. rewrite length_append in H. lia.
  - destruct y as [|d y].
    + apply (f_equal String.length) in H. cbn in H. rewrite length_append in H. lia.
    + cbn in H. inversion H. f_equal. auto.
Qed.

Lemma substring_all (b : string) : substring 0 (String.length b) b = b.
Proof. induction b as [|c b IH]; cbn; [reflexivity|now rewrite IH]. Qed.

Lemma substring_skip (a b : string) :
  substring (String.length a) (String.length b) (a ++ b) = b.
Proof. induction a as [|c a IH]; cbn; [apply substring_all|exact IH]. Qed.

Lemma endsWith_append (a b : string) : Js.endsWith (a ++ b) b = true.
Proof.
  unfold Js.endsWith. rewrite length_append.
  replace (String.length a + String.length b - String.length b) with (String.length a) by lia.
  rewrite substring_skip, String.eqb_refl, andb_true_r.
  apply Nat.leb_le. lia.
Qed.

Lemma toLowerCase_append (a b : string) :
  Js.toLowerCase (a ++ b) = Js.toLowerCase a ++ Js.toLowerCase b.
Proof. induction a as [|c a IH]; cbn; [reflexivity|now rewrite IH]. Qed.

Lemma string_of_uint_inj (d e : Decimal.uint) :
  d <> Decimal.Nil -> e <> Decimal.Nil ->
  NilZero.string_of_uint d = NilZero.string_of_uint e -> d = e.
Proof.
  intros Hd He H.
  pose proof (NilZero.usu d Hd) as H1. pose proof (NilZero.usu e He) as H2.
  rewrite H in H1. congruence.
Qed.

Lemma to_uint_nonnil (n : nat) : Nat.to_uint n <> Decimal.Nil.
Proof.
  pose proof (DecimalNat.Unsigned.to_of (Nat.to_uint n)) as H.
  rewrite DecimalNat.Unsigned.of_to in H. rewrite H.
  apply DecimalFacts.unorm_nonnil.
Qed.

(** Different numbers print differently. *)
Lemma string_of_nat_inj (a b : nat) : Js.string_of_nat a = Js.string_of_nat b -> a = b.
Proof.
  intros H. apply DecimalNat.Unsigned.to_uint_inj.
  apply string_of_uint_inj; auto using to_uint_nonnil.
Qed.

End TextFacts.

(** ** Selecting a file *)

Section FileSelection.

Local Open Scope string_scope.

(** X1.  SplitPDF's [handleFileSet] accepts a file exactly when it is a
    PDF by type or name, is not empty and is at most 100 MB.  An accepted
    file becomes the selected one with no error; a rejected one leaves
    the selection as it was and shows an error.  Either way the previous
    split results and page count are dropped. *)
Theorem split_handleFileSet_accepts (f : File) (s : SplitPdf.State) :
  let s' := fst (SplitPdf.handleFileSet f s) in
  let accepted := snd (SplitPdf.handleFileSet f s) in
  (accepted = true <->
     SplitPdf.isPdfFile f = true /\ Pdf.size f <> 0%N /\
     (Pdf.size f <= 100 * 1024 * 1024)%N) /\
  (accepted = true -> SplitPdf.file s' = Some f /\ SplitPdf.error s' = "") /\
  (accepted = false -> SplitPdf.file s' = SplitPdf.file s /\ SplitPdf.error s' <> "") /\
  SplitPdf.splitPages s' = None /\ SplitPdf.pages s' = None /\
  SplitPdf.isSplitting s' = SplitPdf.isSplitting s.
Proof.
  cbv zeta. unfold SplitPdf.handleFileSet.
  destruct (SplitPdf.isPdfFile f) eqn:Hpdf; cbn [negb].
  - destruct (N.eqb_spec (Pdf.size f) 0) as [Hz|Hz].
    + cbn. intuition (try discriminate; try congruence).
    + destruct (N.ltb_spec (100 * 1024 * 1024) (Pdf.size f)) as [Hbig|Hok].
      * cbn. intuition (try discriminate; try congruence; try lia).
      * cbn. intuition (try discriminate; try congruence).
  - cbn. intuition (try discriminate; try congruence).
Qed.

(** X2.  A file whose name ends in [.pdf] written in any mix of upper and
    lower case is taken for a PDF by both file pickers, whatever its MIME
    type is. *)
Theorem isPdfFile_ignores_extension_case (f : File) (base ext : string) :
  Pdf.name f = base ++ ext ->
  Js.toLowerCase ext = ".pdf" ->
  SplitPdf.isPdfFile f = true /\ CompressPdfUi.isPdfFile f = true.
Proof.
  intros Hname Hext.
  assert (H : Js.endsWith (Js.toLowerCase (Pdf.name f)) ".pdf" = true).
  { rewrite Hname, TextFacts.toLowerCase_append, Hext.
    apply TextFacts.endsWith_append. }
  unfold SplitPdf.isPdfFile, CompressPdfUi.isPdfFile. rewrite H.
  destruct (String.eqb (Pdf.type f) "application/pdf"); auto.
Qed.

(** X3.  The page counters open a file ignoring encryption: for bytes
    pdf-lib can parse, encrypted or not, the page count is shown and the
    error is left alone; for bytes it cannot parse the count is left as it
    was and a read error is shown.  The progress line is empty at the end
    either way. *)
Theorem page_counters_ignore_encryption (f : File) (ss : SplitPdf.State) (sc : CompressPdf.State) :
  let ss' := SplitPdf.readPdfPages f ss in
  let sc' := CompressPdfUi.readPdf f sc in
  let n := length (doc_pages (arrayBuffer f)) in
  SplitPdf.progress ss' = "" /\ CompressPdf.progress sc' = "" /\
  (parseable (arrayBuffer f) = true ->
     SplitPdf.pages ss' = Some n /\ SplitPdf.error ss' = SplitPdf.error ss /\
     CompressPdf.pages sc' = Some n /\ CompressPdf.error sc' = CompressPdf.error sc) /\
  (parseable (arrayBuffer f) = false ->
     SplitPdf.pages ss' = SplitPdf.pages ss /\
     SplitPdf.error ss' = "Failed to read PDF. The file may be corrupted." /\
     CompressPdf.pages sc' = CompressPdf.pages sc /\
     CompressPdf.error sc'
       = "Failed to read PDF file. The file may be corrupted or unsupported.").
Proof.
  cbv zeta. unfold SplitPdf.readPdfPages, CompressPdfUi.readPdf.
  unfold try_catch_finally, bind, set, await, PDFDocument_load.
  destruct (parseable (arrayBuffer f)); cbn [negb].
  - rewrite andb_false_r. cbn. repeat split; auto; discriminate.
  - cbn. repeat split; auto; discriminate.
Qed.

(** X4.  CompressPDF's file picker accepts every file SplitPDF's accepts;
    it has no size limit.  An accepted file is selected with its size as
    the original size and the old result dropped; when pdf-lib cannot parse
    it, it stays selected, with a read error and no page count. *)
Theorem compress_selectFile (f : File) (s : CompressPdf.State) (ss : SplitPdf.State) :
  let accepted := snd (CompressPdfUi.handleFileSet f s) in
  let s' := CompressPdfUi.selectFile f s in
  (snd (SplitPdf.handleFileSet f ss) = true -> accepted = true) /\
  (accepted = true <-> CompressPdfUi.isPdfFile f = true /\ Pdf.size f <> 0%N) /\
  CompressPdf.resultUrl s' = None /\ CompressPdf.resultSize s' = None /\
  (accepted = false ->
     CompressPdf.file s' = CompressPdf.file s /\ CompressPdf.error s' <> "" /\
     CompressPdf.originalSize s' = CompressPdf.originalSize s) /\
  (accepted = true ->
     CompressPdf.file s' = Some f /\
     CompressPdf.originalSize s' = Some (Pdf.size f) /\
     (parseable (arrayBuffer f) = true ->
        CompressPdf.pages s' = Some (length (doc_pages (arrayBuffer f))) /\
        CompressPdf.error s' = "") /\
     (parseable (arrayBuffer f) = false ->
        CompressPdf.pages s' = None /\
        CompressPdf.error s'
          = "Failed to read PDF file. The file may be corrupted or unsupported.")).
Proof.
  cbv zeta. unfold CompressPdfUi.selectFile, CompressPdfUi.handleFileSet, SplitPdf.handleFileSet.
  change (CompressPdfUi.isPdfFile f) with (SplitPdf.isPdfFile f).
  destruct (SplitPdf.isPdfFile f) eqn:Hpdf; cbn [negb fst snd].
  - destruct (N.eqb_spec (Pdf.size f) 0) as [Hz|Hz]; cbn [fst snd].
    + cbn. intuition (try discriminate; try congruence).
    + unfold CompressPdfUi.readPdf, try_catch_finally, bind, set, await, PDFDocument_load.
      destruct (parseable (arrayBuffer f)); cbn [negb].
      * rewrite andb_false_r. cbn. intuition (try discriminate; try congruence).
      * cbn. intuition (try discriminate; try congruence).
  - cbn. intuition (try discriminate; try congruence).
Qed.

End FileSelection.

(** ** Downloading the split pages *)

Module DownloadFacts.

Import SplitPdf SplitPdfUi.
Local Open Scope string_scope.
Local Open Scope list_scope.

(** The anchor for page [p] of a file named [fileName]. *)
Lemma downloadName_inj (fileName : string) (p q : SplitPage) :
  downloadName fileName p = downloadName fileName q -> pageNum p = pageNum q.
Proof.
  unfold downloadName. intros H.
  apply TextFacts.append_inj_l in H. apply TextFacts.append_inj_l in H.
  apply TextFacts.append_inj_r in H. now apply TextFacts.string_of_nat_inj.
Qed.

Lemma click_all_selected (s : State) (f : File) :
  file s = Some f ->
  forall todo clicked,
    click_all s todo clicked
    = (clicked ++ map (fun p => mkDownload (url p) (downloadName (Pdf.name f) p)) todo,
       Returned tt).
Proof.
  intros Hf. induction todo as [|p rest IH]; intros clicked; cbn [click_all map].
  - now rewrite app_nil_r.
  - unfold downloadSingle. rewrite Hf. rewrite IH, <- app_assoc. reflexivity.
Qed.

Lemma results_from_pageNums byteLength : forall ps k,
  map pageNum (results_from byteLength k ps) = seq (k + 1) (length ps).
Proof.
  induction ps as [|p ps IH]; intros k; cbn [results_from map length seq].
  - reflexivity.
  - rewrite IH. unfold page_result. cbn [pageNum].
    replace (S k + 1) with (S (k + 1)) by lia. reflexivity.
Qed.

Lemma results_from_urls byteLength : forall ps k,
  map url (results_from byteLength k ps) = map (fun p => save_blob [Copied p]) ps.
Proof.
  induction ps as [|p ps IH]; intros k; cbn [results_from map].
  - reflexivity.
  - now rewrite IH.
Qed.

Lemma NoDup_names (fileName : string) (ps : list SplitPage) :
  NoDup (map pageNum ps) -> NoDup (map (downloadName fileName) ps).
Proof.
  induction ps as [|p ps IH]; cbn; intros H; [constructor|].
  inversion H as [|? ? Hnotin Hrest]; subst. constructor; [|auto].
  intros Hin. apply in_map_iff in Hin. destruct Hin as (q & Hq & Hin).
  apply Hnotin. apply in_map_iff. exists q. split; [|exact Hin].
  now apply downloadName_inj in Hq.
Qed.

Lemma split_keeps_file byteLength (s : State) (f : File) :
  file s = Some f -> parseable (arrayBuffer f) = true ->
  file (split byteLength s) = Some f.
Proof.
  intros Hf Hparse. rewrite (SplitPdfFacts.split_run byteLength s Hf Hparse). cbv zeta.
  match goal with |- context [split_pages _ ?d ?pi ?todo ?r ?st] =>
    destruct (SplitPdfFacts.split_pages_frame byteLength d pi todo r st) as (_ & _ & _ & Hfile & _);
    destruct (split_pages byteLength d pi todo r st) as [s' o]
  end.
  cbn [fst] in Hfile. destruct o; cbn; rewrite Hfile; exact Hf.
Qed.

End DownloadFacts.

Section Downloads.

Import SplitPdf SplitPdfUi.
Local Open Scope string_scope.
Local Open Scope list_scope.

Variable byteLength : Blob -> N.

(** X5.  After a split that went through, Download All clicks one anchor
    per page, in page order, each pointing at that page's document, and
    no two of them carry the same file name. *)
Theorem downloadAll_saves_every_page_once (s : State) (f : File) :
  file s = Some f ->
  parseable (arrayBuffer f) = true ->
  all_copyable (doc_pages (arrayBuffer f)) = true ->
  doc_pages (arrayBuffer f) <> [] ->
  let run := downloadAll (split byteLength s) in
  map href (snd run)
    = map (fun p => save_blob [Copied p]) (doc_pages (arrayBuffer f)) /\
  NoDup (map download (snd run)) /\
  progress (fst run) = "All pages downloaded" /\
  error (fst run) = "".
Proof.
  intros Hf Hparse Hall Hne. cbv zeta.
  destruct (SplitPdfFacts.split_succeeds byteLength s Hf Hparse Hall) as (Hres & Herr & _).
  pose proof (DownloadFacts.split_keeps_file byteLength s Hf Hparse) as Hfile.
  unfold downloadAll. rewrite Hres.
  destruct (results_from byteLength 0 (doc_pages (arrayBuffer f))) as [|r rs] eqn:Hrs.
  { destruct (doc_pages (arrayBuffer f)); [contradiction|discriminate]. }
  rewrite (DownloadFacts.click_all_selected _ Hfile). cbn [fst snd app].
  rewrite <- Hrs. repeat split.
  - rewrite map_map. cbn [href]. apply DownloadFacts.results_from_urls.
  - rewrite map_map. cbn [download]. apply DownloadFacts.NoDup_names.
    rewrite DownloadFacts.results_from_pageNums. apply seq_NoDup.
  - exact Herr.
Qed.

End Downloads.

(** ** The merge list *)

Module MergeListFacts.

Import MergePdf MergePdfList MergePdfVocabulary.
Local Open Scope string_scope.
Local Open Scope list_scope.

(** The first loop writes no cell but [error]. *)
Lemma collect_frame count : forall fs newFiles s,
  let s' := fst (collect count fs newFiles s) in
  items s' = items s /\ isProcessing s' = isProcessing s /\
  mergedUrl s' = mergedUrl s /\ progress s' = progress s.
Proof.
  induction fs as [|[fresh f] rest IH]; intros newFiles s; cbn [collect].
  - cbn. auto.
  - destruct (MAX_FILES <=? count + length newFiles)%nat; [cbn; auto|].
    destruct (String.eqb (Pdf.type f) "application/pdf"); cbn [negb].
    + destruct (Pdf.size f <=? 0)%N.
      * unfold bind, set.
        match goal with |- context [collect _ _ ?n ?st] =>
          destruct (IH n st) as (H1 & H2 & H3 & H4) end.
        cbv zeta in *. rewrite H1, H2, H3, H4. cbn. auto.
      * apply IH.
    + unfold bind, set.
      match goal with |- context [collect _ _ ?n ?st] =>
        destruct (IH n st) as (H1 & H2 & H3 & H4) end.
      cbv zeta in *. rewrite H1, H2, H3, H4. cbn. auto.
Qed.

(** What the first loop collects. *)
Lemma collect_result count : forall fs newFiles s,
  snd (collect count fs newFiles s)
  = Returned (newFiles
              ++ map pendingAs
                   (firstn (MAX_FILES - count - length newFiles)
                      (filter (fun x => acceptable (snd x)) fs))).
Proof.
  induction fs as [|[fresh f] rest IH]; intros newFiles s; cbn [collect filter snd].
  - rewrite firstn_nil. cbn. now rewrite app_nil_r.
  - destruct (Nat.leb_spec MAX_FILES (count + length newFiles)) as [Hfull|Hroom].
    + replace (MAX_FILES - count - length newFiles) with 0 by lia.
      cbn. now rewrite app_nil_r.
    + unfold acceptable at 1. cbn [snd].
      destruct (String.eqb (Pdf.type f) "application/pdf"); cbn [negb andb].
      * destruct (Pdf.size f <=? 0)%N; cbn [negb].
        -- unfold bind, set. apply IH.
        -- rewrite IH. rewrite length_app. cbn [length].
           replace (MAX_FILES - count - length newFiles)
             with (S (MAX_FILES - count - (length newFiles + 1))) by lia.
           cbn [firstn map]. rewrite <- app_assoc. reflexivity.
      * unfold bind, set. apply IH.
Qed.

Lemma withPages_ids ident n l : map id (withPages ident n l) = map id l.
Proof.
  unfold withPages. rewrite map_map. apply map_ext.
  intros it. destruct (String.eqb (id it) ident); reflexivity.
Qed.

Lemma withPages_files ident n l : map file (withPages ident n l) = map file l.
Proof.
  unfold withPages. rewrite map_map. apply map_ext.
  intros it. destruct (String.eqb (id it) ident); reflexivity.
Qed.

Lemma withPages_absent ident n l : ~ In ident (map id l) -> withPages ident n l = l.
Proof.
  induction l as [|it l IH]; cbn; intros H; [reflexivity|].
  destruct (String.eqb_spec (id it) ident) as [Heq|Hne]; [tauto|].
  f_equal. apply IH. tauto.
Qed.

(** One turn of the second loop. *)
Lemma loadPageCounts_step nf rest s :
  loadPageCounts (nf :: rest) s
  = loadPageCounts rest (setItems (withPages (id nf) (pageCount (file nf)) (items s)) s).
Proof.
  cbn [loadPageCounts]. unfold pageCount.
  destruct (PDFDocument_load (arrayBuffer (file nf)) true); reflexivity.
Qed.

(** The second loop changes page counts only. *)
Lemma loadPageCounts_frame : forall newFiles s,
  let s' := loadPageCounts newFiles s in
  map id (items s') = map id (items s) /\ map file (items s') = map file (items s) /\
  error s' = error s /\ mergedUrl s' = mergedUrl s /\
  isProcessing s' = isProcessing s /\ progress s' = progress s.
Proof.
  induction newFiles as [|nf rest IH]; intros s.
  - cbn. repeat split; reflexivity.
  - rewrite loadPageCounts_step.
    match goal with |- context [loadPageCounts rest ?st] =>
      destruct (IH st) as (H1 & H2 & H3 & H4 & H5 & H6) end.
    cbv zeta in *. rewrite H1, H2, H3, H4, H5, H6.
    cbn [items setItems error mergedUrl isProcessing progress].
    rewrite withPages_ids, withPages_files. repeat split; reflexivity.
Qed.

(** With every id different from the others, the second loop fills in
    the page count of the new rows and of no other. *)
Lemma loadPageCounts_counts : forall newFiles pre s,
  items s = pre ++ newFiles ->
  NoDup (map id (pre ++ newFiles)) ->
  items (loadPageCounts newFiles s) = pre ++ map counted newFiles.
Proof.
  induction newFiles as [|nf rest IH]; intros pre s Hitems Hnodup.
  - cbn. exact Hitems.
  - rewrite loadPageCounts_step.
    rewrite (IH (pre ++ [counted nf])).
    + rewrite <- app_assoc. reflexivity.
    + cbn [items setItems]. rewrite Hitems.
      rewrite map_app in Hnodup. cbn [map] in Hnodup.
      apply NoDup_remove in Hnodup. destruct Hnodup as [_ Hnotin].
      rewrite in_app_iff in Hnotin.
      unfold withPages at 1. rewrite map_app. cbn [map].
      rewrite String.eqb_refl.
      fold (withPages (id nf) (pageCount (file nf)) pre).
      fold (withPages (id nf) (pageCount (file nf)) rest).
      rewrite !withPages_absent by tauto.
      rewrite <- app_assoc. reflexivity.
    + rewrite <- app_assoc. cbn [app].
      replace (map id (pre ++ counted nf :: rest)) with (map id (pre ++ nf :: rest)).
      * exact Hnodup.
      * rewrite !map_app. reflexivity.
Qed.

Lemma map_pending_ids l : map id (map pendingAs l) = map fst l.
Proof. rewrite map_map. reflexivity. Qed.

Lemma map_pending_files l : map file (map pendingAs l) = map snd l.
Proof. rewrite map_map. reflexivity. Qed.

Lemma map_counted_pending l : map counted (map pendingAs l) = map listedAs l.
Proof. rewrite map_map. reflexivity. Qed.

Lemma in_firstn {A} (x : A) : forall n l, In x (firstn n l) -> In x l.
Proof.
  induction n as [|n IH]; intros [|y l] H; cbn in *; try tauto.
  destruct H as [H|H]; auto.
Qed.

Lemma admitted_incl k (p : string * File -> bool) : forall fs y,
  In y (map fst (firstn k (filter p fs))) -> In y (map fst fs).
Proof.
  intros fs y H. apply in_map_iff in H. destruct H as (x & Hx & Hin).
  apply in_map_iff. exists x. split; [exact Hx|].
  apply in_firstn in Hin. apply filter_In in Hin. tauto.
Qed.

Lemma admitted_NoDup (p : string * File -> bool) : forall fs k,
  NoDup (map fst fs) -> NoDup (map fst (firstn k (filter p fs))).
Proof.
  induction fs as [|x fs IH]; intros k H.
  - cbn. rewrite firstn_nil. constructor.
  - cbn [map] in H. inversion H as [|? ? Hnotin Hrest]; subst.
    cbn [filter]. destruct (p x).
    + destruct k as [|k]; [constructor|].
      cbn [firstn map]. constructor; [|auto].
      intros Hin. apply Hnotin. eapply admitted_incl. exact Hin.
    + auto.
Qed.

(** [onDrop] in terms of what it admits. *)
Lemma onDrop_unfold fs s :
  onDrop fs s
  = match map pendingAs (admitted (length (items s)) fs) with
    | [] => setError (error (fst (collect (length (items s)) fs [] (setError "" s))))
              (setError "" s)
    | newFiles =>
        loadPageCounts newFiles
          (setItems (items s ++ newFiles)
             (setError (error (fst (collect (length (items s)) fs [] (setError "" s))))
                (setError "" s)))
    end.
Proof.
  unfold onDrop, admitted.
  destruct fs as [|x fs].
  - cbn [filter]. rewrite firstn_nil. reflexivity.
  - pose proof (collect_result (length (items s)) (x :: fs) [] (setError "" s)) as Hres.
    destruct (collect_frame (length (items s)) (x :: fs) [] (setError "" s))
      as (H1 & H2 & H3 & H4).
    cbv zeta in *. cbn [app length] in Hres. rewrite Nat.sub_0_r in Hres.
    destruct (collect (length (items s)) (x :: fs) [] (setError "" s)) as [s1 o].
    cbn [fst snd] in *. subst o.
    assert (Hs1 : s1 = setError (error s1) (setError "" s)).
    { destruct s1, s. cbn in H1, H2, H3, H4 |- *. subst. reflexivity. }
    destruct (map pendingAs _) as [|it its] eqn:Hnew.
    + exact Hs1.
    + rewrite H1. rewrite Hs1 at 1 2. cbn [items setError]. reflexivity.
Qed.

End MergeListFacts.

Section DroppingFiles.

Import MergePdf MergePdfList MergePdfVocabulary.
Local Open Scope string_scope.
Local Open Scope list_scope.

(** X6.  Dropping files on the merge list keeps the rows already there,
    in place, and appends the dropped files that are of type
    application/pdf and not empty, in the order dropped, as far as the
    limit of 20 rows leaves room; so a list within the limit stays within
    it.  A merged result already there is left alone. *)
Theorem onDrop_admits_pdfs_up_to_the_limit (fs : list (string * File)) (s : State) :
  let s' := onDrop fs s in
  let added := admitted (length (items s)) fs in
  map file (items s') = map file (items s) ++ map snd added /\
  map id (items s') = map id (items s) ++ map fst added /\
  (forall x, In x added ->
     In x fs /\ Pdf.type (snd x) = "application/pdf" /\ Pdf.size (snd x) <> 0%N) /\
  (length (items s) <= MAX_FILES -> length (items s') <= MAX_FILES) /\
  mergedUrl s' = mergedUrl s.
Proof.
  cbv zeta.
  assert (Hshape :
    map file (items (onDrop fs s))
      = map file (items s) ++ map snd (admitted (length (items s)) fs) /\
    map id (items (onDrop fs s))
      = map id (items s) ++ map fst (admitted (length (items s)) fs) /\
    mergedUrl (onDrop fs s) = mergedUrl s).
  { rewrite MergeListFacts.onDrop_unfold.
    pose proof (MergeListFacts.map_pending_files (admitted (length (items s)) fs)) as Hf.
    pose proof (MergeListFacts.map_pending_ids (admitted (length (items s)) fs)) as Hi.
    destruct (map pendingAs (admitted (length (items s)) fs)) as [|it its].
    - cbn [map] in Hf, Hi. rewrite <- Hf, <- Hi. cbn. rewrite !app_nil_r. auto.
    - cbv zeta.
      match goal with |- context [loadPageCounts ?n ?st] =>
        destruct (MergeListFacts.loadPageCounts_frame n st) as (H1 & H2 & _ & H4 & _) end.
      cbv zeta in H1, H2, H4. rewrite H1, H2, H4.
      cbn [items setItems setError mergedUrl]. rewrite !map_app, Hf, Hi. auto. }
  destruct Hshape as (Hfiles & Hids & Hurl).
  split; [exact Hfiles|]. split; [exact Hids|]. split; [|split; [|exact Hurl]].
  - intros x Hin. unfold admitted in Hin.
    apply MergeListFacts.in_firstn in Hin. apply filter_In in Hin.
    destruct Hin as [Hin Hacc]. split; [exact Hin|].
    unfold acceptable in Hacc. apply andb_true_iff in Hacc. destruct Hacc as [Ht Hs].
    split; [now apply String.eqb_eq|].
    apply negb_true_iff in Hs. apply N.leb_gt in Hs. lia.
  - intros Hlen.
    apply (f_equal (@length _)) in Hids. rewrite length_app, !length_map in Hids.
    rewrite Hids. unfold admitted. rewrite length_firstn. lia.
Qed.

(** X7.  When every row and every dropped file has an id of its own,
    each admitted file ends up as one row carrying its name, size and page
    count, read ignoring encryption and zero when the bytes do not
    parse; the rows that were there are untouched. *)
Theorem onDrop_lists_page_counts (fs : list (string * File)) (s : State) :
  NoDup (map id (items s) ++ map fst fs) ->
  items (onDrop fs s) = items s ++ map listedAs (admitted (length (items s)) fs).
Proof.
  intros Hnodup. rewrite MergeListFacts.onDrop_unfold.
  pose proof (MergeListFacts.map_counted_pending (admitted (length (items s)) fs)) as Hc.
  pose proof (MergeListFacts.map_pending_ids (admitted (length (items s)) fs)) as Hi.
  destruct (map pendingAs (admitted (length (items s)) fs)) as [|it its] eqn:Hnew.
  - cbn [map] in Hc. rewrite <- Hc. cbn. now rewrite app_nil_r.
  - cbv zeta. rewrite (MergeListFacts.loadPageCounts_counts (it :: its) (items s)).
    + now rewrite Hc.
    + reflexivity.
    + rewrite map_app, Hi.
      apply NoDup_app.
      * eapply NoDup_app_remove_r. exact Hnodup.
      * apply MergeListFacts.admitted_NoDup. eapply NoDup_app_remove_l. exact Hnodup.
      * intros a Ha Hb. apply MergeListFacts.admitted_incl in Hb.
        clear - Hnodup Ha Hb.
        induction (map id (items s)) as [|x l IH]; [contradiction|].
        cbn in Hnodup. inversion Hnodup as [|? ? Hnotin Hrest]; subst.
        destruct Ha as [->|Ha]; [|auto].
        apply Hnotin. apply in_app_iff. now right.
Qed.

End DroppingFiles.

(** ** Reordering and removing rows *)

Module ReorderFacts.

Import MergePdfList.
Local Open Scope list_scope.

Lemma moveItem_in_range {A} (from to : nat) (prev : list A) (x : A) :
  nth_error prev from = Some x ->
  moveItem from to prev
  = map Some (firstn to (firstn from prev ++ skipn (S from) prev)
              ++ x :: skipn to (firstn from prev ++ skipn (S from) prev)).
Proof.
  intros Hx. unfold moveItem. rewrite Hx.
  rewrite !firstn_map, !skipn_map, <- map_app, firstn_map, skipn_map.
  rewrite map_app. reflexivity.
Qed.

Lemma removed_length {A} (from : nat) (prev : list A) (x : A) :
  nth_error prev from = Some x ->
  length (firstn from prev ++ skipn (S from) prev) = length prev - 1.
Proof.
  intros Hx. pose proof (firstn_skipn_middle from prev Hx) as H.
  apply (f_equal (@length _)) in H. rewrite length_app in H. cbn [length] in H.
  rewrite length_app. lia.
Qed.

Lemma firstn_length_app {A} (l r : list A) : firstn (length l) (l ++ r) = l.
Proof. induction l as [|x l IH]; cbn; [reflexivity | now rewrite IH]. Qed.

Lemma skipn_length_app {A} (l r : list A) : skipn (length l) (l ++ r) = r.
Proof. induction l as [|x l IH]; cbn; [reflexivity | exact IH]. Qed.

Lemma insert_at {A} (pre post : list A) (x : A) :
  firstn (length pre) (pre ++ post) ++ x :: skipn (length pre) (pre ++ post)
  = pre ++ x :: post.
Proof. now rewrite firstn_length_app, skipn_length_app. Qed.

Lemma moveItem_at {A} (to : nat) (pre post : list A) (x : A) :
  moveItem (length pre) to (pre ++ x :: post)
  = map Some (firstn to (pre ++ post) ++ x :: skipn to (pre ++ post)).
Proof.
  rewrite (@moveItem_in_range A (length pre) to (pre ++ x :: post) x).
  - rewrite firstn_length_app.
    change (S (length pre)) with (1 + length pre).
    rewrite <- skipn_skipn, skipn_length_app. reflexivity.
  - rewrite nth_error_app2 by lia. now rewrite Nat.sub_diag.
Qed.

Lemma remove_at {A} (pre post : list A) (x : A) (k : nat) :
  length pre = k ->
  firstn k (pre ++ x :: post) ++ skipn (S k) (pre ++ x :: post) = pre ++ post.
Proof.
  intros <-. rewrite firstn_length_app.
  change (S (length pre)) with (1 + length pre).
  rewrite <- skipn_skipn, skipn_length_app. reflexivity.
Qed.

End ReorderFacts.

Section Reordering.

Import MergePdf MergePdfList.
Local Open Scope string_scope.
Local Open Scope list_scope.

(** X8.  [moveItem] asked to move a row that exists gives back the same
    rows, none lost, doubled or undefined, with the moved row at the
    target position, or last when the target is past the end.  Asked to
    move a row that is not there it leaves an undefined entry in the
    list. *)
Theorem moveItem_rearranges (A : Type) (from to : nat) (prev : list A) :
  (from < length prev ->
     exists moved,
       moveItem from to prev = map Some moved /\
       Permutation prev moved /\
       nth_error moved (Nat.min to (length prev - 1)) = nth_error prev from) /\
  (length prev <= from ->
     In None (moveItem from to prev) /\
     length (moveItem from to prev) = S (length prev)).
Proof.
  split.
  - intros Hlt.
    destruct (nth_error prev from) as [x|] eqn:Hx;
      [|apply nth_error_None in Hx; lia].
    set (rest := firstn from prev ++ skipn (S from) prev).
    exists (firstn to rest ++ x :: skipn to rest).
    split; [exact (ReorderFacts.moveItem_in_range from to prev Hx)|]. split.
    + rewrite <- (firstn_skipn_middle from prev Hx) at 1.
      fold rest.
      transitivity (x :: rest).
      * symmetry. apply Permutation_middle.
      * rewrite <- (firstn_skipn to rest) at 1. apply Permutation_middle.
    + pose proof (ReorderFacts.removed_length from prev Hx) as Hlen. fold rest in Hlen.
      rewrite <- Hlen.
      destruct (Nat.le_gt_cases to (length rest)) as [Hle|Hgt].
      * rewrite Nat.min_l by exact Hle.
        rewrite nth_error_app2 by (rewrite length_firstn; lia).
        rewrite length_firstn, Nat.min_l by exact Hle.
        rewrite Nat.sub_diag. reflexivity.
      * rewrite Nat.min_r by lia.
        rewrite firstn_all2 by lia.
        rewrite nth_error_app2 by lia.
        rewrite Nat.sub_diag. reflexivity.
  - intros Hge. unfold moveItem.
    rewrite (proj2 (nth_error_None prev from) Hge).
    split.
    + apply in_app_iff. right. now left.
    + rewrite length_app. cbn [length]. rewrite length_firstn, length_skipn.
      rewrite length_app, length_firstn, length_skipn, length_map. lia.
Qed.

(** X9.  Move up on the lower of two neighbouring rows and Move down on
    the upper one both swap the two and touch no other row; Move up on
    the first row and Move down on the last change nothing. *)
Theorem move_buttons_swap_neighbours (A : Type) (pre post : list A) (a b : A) :
  let prev := pre ++ a :: b :: post in
  moveUp (length pre + 1) prev = map Some (pre ++ b :: a :: post) /\
  moveDown (length pre) prev = map Some (pre ++ b :: a :: post) /\
  moveUp 0 prev = map Some prev /\
  moveDown (length prev - 1) prev = map Some prev.
Proof.
  cbv zeta.
  split; [|split; [|split]].
  - unfold moveUp.
    destruct (Nat.ltb_spec 0 (length pre + 1)) as [_|H]; [|lia].
    replace (length pre + 1 - 1) with (length pre) by lia.
    replace (length pre + 1) with (length (pre ++ [a])) by (rewrite length_app; cbn; lia).
    replace (pre ++ a :: b :: post) with ((pre ++ [a]) ++ b :: post)
      by (rewrite <- app_assoc; reflexivity).
    rewrite ReorderFacts.moveItem_at. f_equal.
    rewrite <- app_assoc. cbn [app].
    apply ReorderFacts.insert_at.
  - unfold moveDown.
    destruct (Z.ltb_spec (Z.of_nat (length pre))
                (Z.of_nat (length (pre ++ a :: b :: post)) - 1)) as [_|H].
    2:{ rewrite length_app in H. cbn [length] in H. lia. }
    rewrite ReorderFacts.moveItem_at. f_equal.
    replace (length pre + 1) with (length (pre ++ [b])) by (rewrite length_app; cbn; lia).
    replace (pre ++ b :: post) with ((pre ++ [b]) ++ post)
      by (rewrite <- app_assoc; reflexivity).
    rewrite ReorderFacts.insert_at.
    rewrite <- app_assoc. reflexivity.
  - reflexivity.
  - unfold moveDown.
    destruct (Z.ltb_spec (Z.of_nat (length (pre ++ a :: b :: post) - 1))
                (Z.of_nat (length (pre ++ a :: b :: post)) - 1)) as [H|_];
      [|reflexivity].
    rewrite length_app in H. cbn [length] in H. lia.
Qed.

(** X10.  With ids that are all different, [removeItem] takes out exactly
    the row with that id and keeps the others in their order; an id that
    is not in the list changes nothing. *)
Theorem removeItem_removes_one_row (s : State) (ident : string) :
  NoDup (map id (items s)) ->
  (forall pre it post,
      items s = pre ++ it :: post -> id it = ident ->
      items (removeItem ident s) = pre ++ post) /\
  (~ In ident (map id (items s)) -> items (removeItem ident s) = items s).
Proof.
  intros Hnodup.
  assert (Hkeep : forall l, ~ In ident (map id l) ->
            filter (fun it => negb (String.eqb (id it) ident)) l = l).
  { induction l as [|x l IH]; cbn; intros H; [reflexivity|].
    destruct (String.eqb_spec (id x) ident) as [Heq|Hne]; [tauto|].
    cbn. f_equal. apply IH. tauto. }
  split.
  - intros pre it post Hitems Hid. unfold removeItem. cbn [items setItems].
    rewrite Hitems in *. rewrite map_app in Hnodup. cbn [map] in Hnodup.
    apply NoDup_remove_2 in Hnodup. rewrite in_app_iff, Hid in Hnodup.
    rewrite filter_app. cbn [filter]. rewrite Hid, String.eqb_refl. cbn [negb].
    rewrite !Hkeep by tauto. reflexivity.
  - intros Hnotin. unfold removeItem. cbn [items setItems]. now apply Hkeep.
Qed.

End Reordering.

(** ** What a merge run ends in *)

Module MergeRunFacts.

Import MergePdf MergePdfList MergePdfVocabulary.
Local Open Scope string_scope.
Local Open Scope list_scope.

Lemma copyPages_from_throws (src : list Page) : forall ps k,
  skipn k src = ps ->
  forallb copyable ps = false ->
  returned (copyPages src (seq k (length ps))) = false.
Proof.
  induction ps as [|p ps IH]; intros k Hk Hall.
  - discriminate.
  - destruct (ListFacts.skipn_cons_inv _ _ Hk) as (Hnth & Hrest & _).
    cbn [forallb] in Hall. cbn [length seq copyPages]. rewrite Hnth.
    destruct (copyable p); [|reflexivity].
    cbn [andb] in Hall. specialize (IH (S k) Hrest Hall).
    destruct (copyPages src (seq (S k) (length ps))); [discriminate|reflexivity].
Qed.

(** Some remaining item does not open or does not copy: the loop throws. *)
Lemma merge_items_throws_unmergeable total : forall todo i mergedDoc s,
  forallb mergeable todo = false ->
  returned (snd (merge_items total i todo mergedDoc s)) = false.
Proof.
  induction todo as [|it rest IH]; intros i mergedDoc s Hall.
  - discriminate.
  - cbn [forallb] in Hall. rewrite MergePdfFacts.merge_items_step. cbv zeta.
    unfold mergeable at 1 in Hall.
    destruct (opens it) eqn:Hopen.
    + rewrite (MergePdfFacts.opens_pages _ Hopen).
      destruct (all_copyable (pagesOf it)) eqn:Hcopy.
      * rewrite (MergePdfFacts.copyPages_all _ Hcopy). apply IH. exact Hall.
      * pose proof (@copyPages_from_throws (pagesOf it) (pagesOf it) 0 eq_refl Hcopy) as H.
        unfold getPageIndices.
        destruct (copyPages (pagesOf it) (seq 0 (length (pagesOf it))));
          [discriminate|reflexivity].
    + unfold opens in Hopen.
      destruct (PDFDocument_load (arrayBuffer (file it)) false); [discriminate|reflexivity].
Qed.

Lemma mergeable_pageCount it :
  mergeable it = true -> pageCount (file it) = length (pagesOf it).
Proof.
  unfold mergeable, opens, pageCount, pagesOf, PDFDocument_load.
  destruct (parseable _); cbn; [|discriminate].
  destruct (encrypted _); cbn; [discriminate|reflexivity].
Qed.

Lemma fold_pages (l : list Item) : forall acc,
  fold_left (fun acc it => acc + match pages it with Some n => n | None => 0 end) l acc
  = acc + list_sum (map (fun it => match pages it with Some n => n | None => 0 end) l).
Proof.
  induction l as [|it l IH]; intros acc; cbn [fold_left map].
  - cbn. lia.
  - rewrite IH. unfold list_sum. cbn [fold_right]. lia.
Qed.

End MergeRunFacts.

Section MergeRun.

Import MergePdf MergePdfList MergePdfVocabulary.
Local Open Scope string_scope.
Local Open Scope list_scope.

(** X11.  What Merge ends in, for any list: with fewer than two rows, or
    more than 200 MB in total, it stops before opening any file, with the
    message for that case; otherwise it gives the pages of all rows, row
    after row, as pdf-lib saves them (one blank page when no row has a
    page), when every row opens and copies, and the failure message and
    no document when one does not.  A result of an earlier merge is
    dropped in every case but the successful one, and the rows are never
    changed. *)
Theorem mergePDFs_outcome (s : State) :
  let s' := mergePDFs s in
  items s' = items s /\
  (length (items s) < 2 ->
     mergedUrl s' = None /\ isProcessing s' = isProcessing s /\
     progress s' = progress s /\
     error s' = "Select at least two PDF files to merge.") /\
  (2 <= length (items s) -> (MAX_SIZE_BYTES < totalSize (items s))%N ->
     mergedUrl s' = None /\ isProcessing s' = isProcessing s /\
     progress s' = progress s /\
     error s' = "Total file size too large. Try fewer or smaller PDFs.") /\
  (2 <= length (items s) -> (totalSize (items s) <= MAX_SIZE_BYTES)%N ->
     isProcessing s' = false /\
     if forallb mergeable (items s)
     then mergedPages s'
            = Some (PDFDocument_save
                      (flat_map (fun it => map Copied (pagesOf it)) (items s))) /\
          error s' = "" /\ progress s' = "Done"
     else mergedUrl s' = None /\
          error s' = "Failed to merge PDFs. Try re-uploading the files.").
Proof.
  cbv zeta.
  assert (Hrun : 2 <= length (items s) -> (totalSize (items s) <= MAX_SIZE_BYTES)%N ->
            items (mergePDFs s) = items s /\
            isProcessing (mergePDFs s) = false /\
            if forallb mergeable (items s)
            then mergedPages (mergePDFs s)
                   = Some (PDFDocument_save
                             (flat_map (fun it => map Copied (pagesOf it)) (items s))) /\
                 error (mergePDFs s) = "" /\ progress (mergePDFs s) = "Done"
            else mergedUrl (mergePDFs s) = None /\
                 error (mergePDFs s)
                 = "Failed to merge PDFs. Try re-uploading the files.").
  { intros Hlen Hsize. rewrite (MergePdfFacts.mergePDFs_run s Hlen Hsize). cbv zeta.
    destruct (forallb mergeable (items s)) eqn:Hall.
    - match goal with |- context [merge_items ?n ?i ?todo ?d ?st] =>
        pose proof (MergePdfFacts.merge_items_ok n todo i d st Hall) as Hok;
        destruct (MergePdfFacts.merge_items_frame n todo i d st) as (_ & Herr & _ & Hit);
        destruct (merge_items n i todo d st) as [s1 o]
      end.
      cbn [fst snd] in *. subst o. cbn. rewrite Herr, Hit. cbn. auto.
    - match goal with |- context [merge_items ?n ?i ?todo ?d ?st] =>
        pose proof (MergeRunFacts.merge_items_throws_unmergeable n todo i d st Hall) as Hthrow;
        destruct (MergePdfFacts.merge_items_frame n todo i d st) as (Hurl & _ & _ & Hit);
        destruct (merge_items n i todo d st) as [s1 o]
      end.
      cbn [fst snd] in *. destruct o as [r|e]; [discriminate|].
      cbn. rewrite Hurl, Hit. cbn. auto. }
  split; [|split; [|split]].
  - destruct (Nat.ltb_spec (length (items s)) 2) as [Hlt|Hge].
    + unfold mergePDFs. cbn [items setMergedUrl setError].
      destruct (Nat.ltb_spec (length (items s)) 2) as [_|Hge]; [reflexivity|lia].
    + destruct (N.ltb_spec MAX_SIZE_BYTES (totalSize (items s))) as [Hbig|Hok].
      * unfold mergePDFs. cbn [items setMergedUrl setError].
        destruct (Nat.ltb_spec (length (items s)) 2) as [Hlt|_]; [lia|].
        fold (totalSize (items s)).
        destruct (N.ltb_spec MAX_SIZE_BYTES (totalSize (items s))) as [_|Hok];
          [reflexivity|lia].
      * apply (Hrun Hge Hok).
  - intros Hlt. unfold mergePDFs. cbn [items setMergedUrl setError].
    destruct (Nat.ltb_spec (length (items s)) 2) as [_|Hge]; [|lia].
    cbn. auto.
  - intros Hge Hbig. unfold mergePDFs. cbn [items setMergedUrl setError].
    destruct (Nat.ltb_spec (length (items s)) 2) as [Hlt|_]; [lia|].
    fold (totalSize (items s)).
    destruct (N.ltb_spec MAX_SIZE_BYTES (totalSize (items s))) as [_|Hok]; [|lia].
    cbn. auto.
  - intros Hge Hok. destruct (Hrun Hge Hok) as (_ & Hproc & Hrest).
    split; [exact Hproc|exact Hrest].
Qed.

(** X12.  Once the page counts of all rows have been read, the Estimated
    pages figure is the number of pages of the document a successful
    merge gives, except that rows without any page at all give a
    document of one blank page. *)
Theorem estimated_pages_match_merged_document (s : State) :
  2 <= length (items s) ->
  (totalSize (items s) <= MAX_SIZE_BYTES)%N ->
  forallb mergeable (items s) = true ->
  (forall it, In it (items s) -> pages it = Some (pageCount (file it))) ->
  exists merged,
    mergedPages (mergePDFs s) = Some merged /\
    length merged = Nat.max 1 (statEstimatedPages s).
Proof.
  intros Hlen Hsize Hall Hpages.
  assert (Hcount : length (flat_map (fun it => map Copied (pagesOf it)) (items s))
                   = statEstimatedPages s).
  { unfold statEstimatedPages. rewrite MergeRunFacts.fold_pages. cbn [Nat.add].
    clear Hlen Hsize.
    induction (items s) as [|it l IH]; [reflexivity|].
    cbn [forallb] in Hall. apply andb_true_iff in Hall. destruct Hall as [Hit Hl].
    cbn [flat_map map list_sum fold_right]. rewrite length_app, length_map.
    rewrite (Hpages it (or_introl eq_refl)), (MergeRunFacts.mergeable_pageCount _ Hit).
    f_equal. apply IH; [exact Hl|]. intros it' Hin. apply Hpages. now right. }
  rewrite (MergePdfFacts.mergePDFs_run s Hlen Hsize). cbv zeta.
  match goal with |- context [merge_items ?n ?i ?todo ?d ?st] =>
    pose proof (MergePdfFacts.merge_items_ok n todo i d st Hall) as Hok;
    destruct (merge_items n i todo d st) as [s1 o]
  end.
  cbn [fst snd] in Hok. subst o.
  eexists. split; [reflexivity|].
  cbn [blob_parts save_blob app PDFDocument_create].
  now rewrite PdfFacts.save_length, Hcount.
Qed.

End MergeRun.

(** ** ImageReduce: the size asked for and the size given *)

Module ParseFacts.

Ltac eval_char :=
  repeat match goal with
  | |- context [Js.digit_of ?c] =>
      let v := eval vm_compute in (Js.digit_of c) in change (Js.digit_of c) with v
  | |- context [Js.is_space ?c] =>
      let v := eval vm_compute in (Js.is_space c) in change (Js.is_space c) with v
  end.

Lemma digits_string_of_uint d : forall a : nat,
  Js.digits (NilEmpty.string_of_uint d) (Some (Z.of_nat a))
  = Some (Z.of_nat (Nat.of_uint_acc d a)).
Proof.
  induction d as [|d IH|d IH|d IH|d IH|d IH|d IH|d IH|d IH|d IH|d IH]; intros a;
    cbn [NilEmpty.string_of_uint Js.digits Nat.of_uint_acc];
    [reflexivity|..];
    eval_char; cbv iota beta; rewrite Nat.tail_mul_spec, <- IH; do 2 f_equal; lia.
Qed.

Lemma digits_string_of_uint_start d :
  d <> Decimal.Nil ->
  Js.digits (NilEmpty.string_of_uint d) None = Some (Z.of_nat (Nat.of_uint d)).
Proof.
  intros Hd. unfold Nat.of_uint.
  destruct d; [congruence|..];
    cbn [NilEmpty.string_of_uint Js.digits Nat.of_uint_acc];
    eval_char; cbv iota beta; rewrite <- digits_string_of_uint; do 2 f_equal.
Qed.

Lemma parseInt_string_of_uint d :
  Js.parseInt (NilZero.string_of_uint d) = Some (Z.of_nat (Nat.of_uint d)).
Proof.
  destruct d eqn:Hd; [reflexivity|..];
    rewrite <- Hd; rewrite <- digits_string_of_uint_start by (subst; discriminate);
    subst d; unfold Js.parseInt;
    cbn [NilZero.string_of_uint NilEmpty.string_of_uint Js.trimStart];
    eval_char; reflexivity.
Qed.

(** [parseInt] reads back the number a template literal wrote. *)
Lemma parseInt_string_of_nat (n : nat) :
  Js.parseInt (Js.string_of_nat n) = Some (Z.of_nat n).
Proof.
  unfold Js.string_of_nat. rewrite parseInt_string_of_uint.
  now rewrite DecimalNat.Unsigned.of_to.
Qed.

Lemma or_zero_string_of_nat (n : nat) :
  ImageReduce.or_zero (Js.string_of_nat n) = Js.string_of_nat n.
Proof.
  unfold ImageReduce.or_zero.
  destruct (String.eqb_spec (Js.string_of_nat n) "") as [Heq|_]; [|reflexivity].
  pose proof (parseInt_string_of_nat n) as H. rewrite Heq in H. discriminate.
Qed.

End ParseFacts.

Module SizingFacts.

Import ImageReduce ImageReduceFacts Binary64 Binary64Facts.
Local Open Scope Q_scope.

Lemma Qmin_inject_Z (a b : Z) :
  Qmin (inject_Z a) (inject_Z b) == inject_Z (Z.min a b).
Proof.
  destruct (Q.min_spec (inject_Z a) (inject_Z b)) as [[Hlt ->]|[Hle ->]].
  - rewrite <- Zlt_Qlt in Hlt. now rewrite Z.min_l by lia.
  - rewrite <- Zle_Qle in Hle. now rewrite Z.min_r by lia.
Qed.

Lemma inject_Z_pos (b : Z) : (1 <= b)%Z -> 0 < inject_Z b.
Proof. intros H. change 0 with (inject_Z 0). rewrite <- Zlt_Qlt. lia. Qed.

Lemma inject_Z_ge_1 (b : Z) : (1 <= b)%Z -> 1 <= inject_Z b.
Proof. intros H. change 1 with (inject_Z 1). rewrite <- Zle_Qle. lia. Qed.

Lemma inject_Z_side (b : Z) : (b <= 4294967296)%Z -> inject_Z b <= 4294967296.
Proof.
  intros H. change 4294967296 with (inject_Z 4294967296). now rewrite <- Zle_Qle.
Qed.

(** Half a side is a number binary64 holds, and [Math.round] takes it
    to the next whole number. *)
Lemma Math_round_half (b : Z) :
  (1 <= b < 4294967296)%Z ->
  Js.Math_round (fl (inject_Z b * (1 # 2))) = ((b + 1) / 2)%Z.
Proof.
  intros Hb.
  rewrite (JsFacts.Math_round_comp (x := fl (inject_Z b * (1 # 2)))
             (y := inject_Z b * (1 # 2))) by (apply fl_half_Z; lia).
  unfold Js.Math_round.
  transitivity (Qfloor ((b + 1) # 2)); [|reflexivity].
  apply Qfloor_comp. unfold Qeq. cbn. lia.
Qed.

Lemma times_ratio (b m : Z) :
  (1 <= b)%Z -> inject_Z b * (inject_Z m / inject_Z b) == inject_Z m.
Proof.
  intros Hb. apply Qmult_div_r.
  intros H. pose proof (inject_Z_pos Hb) as Hpos. rewrite H in Hpos.
  now apply Qlt_irrefl in Hpos.
Qed.

(** The ratio of two sides is in the normal range of binary64. *)
Lemma ratio_normal (B T : Z) :
  (1 <= T)%Z -> (1 <= B < 4294967296)%Z ->
  pow2 (-1022) <= inject_Z T / inject_Z B.
Proof.
  intros HT HB.
  apply Qle_trans with (y := pow2 (-32)); [apply pow2_le; lia|].
  change (pow2 (-32)) with (1 # 4294967296).
  pose proof (inject_Z_pos (proj1 HB)) as Hpos.
  pose proof (inject_Z_ge_1 HT) as H1.
  pose proof (@inject_Z_side B ltac:(lia)) as H2.
  apply Qle_shift_div_l; [exact Hpos|]. lra.
Qed.

(** A side times the binary64 ratio of the target to it is the target,
    up to one rounding. *)
Lemma ratio_err (B T : Z) :
  (1 <= T)%Z -> (1 <= B < 4294967296)%Z ->
  inject_Z T * (1 - (1 # 9007199254740992))
    <= inject_Z B * fl (inject_Z T / inject_Z B) /\
  inject_Z B * fl (inject_Z T / inject_Z B)
    <= inject_Z T * (1 + (1 # 9007199254740992)).
Proof.
  intros HT HB. pose proof (inject_Z_pos (proj1 HB)) as Hpos.
  destruct (fl_err (ratio_normal HT HB)) as [Hlo Hhi].
  change (pow2 (-53)) with (1 # 9007199254740992) in Hlo, Hhi.
  pose proof (times_ratio T (proj1 HB)) as Hx.
  set (x := inject_Z T / inject_Z B) in *.
  set (r := fl x) in *.
  apply (Qmult_le_l _ _ (inject_Z B) Hpos) in Hlo.
  apply (Qmult_le_l _ _ (inject_Z B) Hpos) in Hhi.
  rewrite Qmult_assoc, Hx in Hlo. rewrite Qmult_assoc, Hx in Hhi.
  split; assumption.
Qed.

(** A product within one rounding of a whole number of pixels rounds,
    and then rounds again with [Math.round], to that number. *)
Lemma product_round (T : Z) (y : Q) :
  (1 <= T <= 4294967296)%Z ->
  inject_Z T * (1 - (1 # 9007199254740992)) <= y ->
  y <= inject_Z T * (1 + (1 # 9007199254740992)) ->
  Js.Math_round (fl y) = T.
Proof.
  intros HT Hlo Hhi.
  pose proof (inject_Z_ge_1 (proj1 HT)) as H1.
  pose proof (inject_Z_side (proj2 HT)) as H2.
  assert (Hn : pow2 (-1022) <= y).
  { apply Qle_trans with (y := 1 # 2); [|lra].
    change (1 # 2) with (pow2 (-1)). apply pow2_le. lia. }
  destruct (fl_err Hn) as [Hflo Hfhi].
  change (pow2 (-53)) with (1 # 9007199254740992) in Hflo, Hfhi.
  apply Math_round_within; lra.
Qed.

Lemma product_round_le (T : Z) (y : Q) :
  (1 <= T <= 4294967296)%Z ->
  y <= inject_Z T * (1 + (1 # 9007199254740992)) ->
  (Js.Math_round (fl y) <= T)%Z.
Proof.
  intros HT Hhi.
  pose proof (inject_Z_ge_1 (proj1 HT)) as H1.
  assert (Hat : Js.Math_round (fl (inject_Z T * (1 + (1 # 9007199254740992)))) = T)
    by (apply product_round; [exact HT|lra|lra]).
  rewrite <- Hat at 1.
  apply JsFacts.Math_round_mono, fl_mono, Hhi.
Qed.

(** A side scaled by exactly the ratio of its target comes out as the
    target. *)
Lemma side_exact (B T : Z) (scale : Q) :
  (1 <= T <= B)%Z -> (B < 4294967296)%Z ->
  scale == fl (inject_Z T / inject_Z B) ->
  Z.max 1 (Js.Math_round (fl (inject_Z B * scale))) = T.
Proof.
  intros HT HB Hs.
  destruct (@ratio_err B T ltac:(lia) ltac:(lia)) as [Hlo Hhi].
  rewrite (JsFacts.Math_round_comp (x := fl (inject_Z B * scale))
             (y := fl (inject_Z B * fl (inject_Z T / inject_Z B))))
    by (apply fl_comp; now rewrite Hs).
  rewrite (@product_round T _ ltac:(lia) Hlo Hhi). lia.
Qed.

(** A side scaled by no more than the ratio of its target stays within
    the target. *)
Lemma side_within (B T : Z) (scale : Q) :
  (1 <= T <= B)%Z -> (B < 4294967296)%Z ->
  scale <= fl (inject_Z T / inject_Z B) ->
  (1 <= Z.max 1 (Js.Math_round (fl (inject_Z B * scale))) <= T)%Z.
Proof.
  intros HT HB Hs. split; [lia|].
  apply Z.max_lub; [lia|].
  destruct (@ratio_err B T ltac:(lia) ltac:(lia)) as [_ Hhi].
  apply product_round_le; [lia|].
  eapply Qle_trans; [|exact Hhi].
  apply Qmult_le_l; [apply inject_Z_pos; lia|exact Hs].
Qed.

(** The scale is the ratio of one side of the clamped target, and no
    more than the ratio of the other. *)
Lemma scale_cases bmp cfg cw ch (tW tH : Q) (Tw Th : Z) :
  requested bmp cfg cw ch = (tW, tH) ->
  Qmin tW (inject_Z (bmp_width bmp)) == inject_Z Tw ->
  Qmin tH (inject_Z (bmp_height bmp)) == inject_Z Th ->
  let scale := resize_scale bmp cfg cw ch in
  let rw := fl (inject_Z Tw / inject_Z (bmp_width bmp)) in
  let rh := fl (inject_Z Th / inject_Z (bmp_height bmp)) in
  (scale == rw /\ scale <= rh) \/ (scale == rh /\ scale <= rw).
Proof.
  intros Hreq Hw Hh. cbv zeta. rewrite resize_scale_unfold, Hreq. cbn [fst snd].
  assert (Hrw : fl (Qmin tW (inject_Z (bmp_width bmp)) / inject_Z (bmp_width bmp))
                == fl (inject_Z Tw / inject_Z (bmp_width bmp)))
    by (apply fl_comp; now rewrite Hw).
  assert (Hrh : fl (Qmin tH (inject_Z (bmp_height bmp)) / inject_Z (bmp_height bmp))
                == fl (inject_Z Th / inject_Z (bmp_height bmp)))
    by (apply fl_comp; now rewrite Hh).
  match goal with |- context [Qmin ?x ?y] =>
    destruct (Q.min_spec x y) as [[Hlt ->]|[Hle ->]] end.
  - left. split; [exact Hrw|]. rewrite <- Hrh. now apply Qlt_le_weak.
  - right. split; [exact Hrh|]. rewrite <- Hrw. exact Hle.
Qed.

Lemma fits_box bmp cfg cw ch (tW tH : Q) (Tw Th : Z) :
  requested bmp cfg cw ch = (tW, tH) ->
  Qmin tW (inject_Z (bmp_width bmp)) == inject_Z Tw ->
  Qmin tH (inject_Z (bmp_height bmp)) == inject_Z Th ->
  (1 <= Tw <= bmp_width bmp)%Z -> (1 <= Th <= bmp_height bmp)%Z ->
  let out := output_size bmp cfg cw ch in
  (1 <= fst out <= Tw)%Z /\
  (1 <= snd out <= Th)%Z /\
  (fst out = Tw \/ snd out = Th).
Proof.
  intros Hreq Hw Hh HTw HTh. cbv zeta. unfold output_size. cbn [fst snd].
  destruct (bitmap_sides bmp) as [Hbw Hbh].
  pose proof (@scale_cases bmp cfg cw ch tW tH Tw Th Hreq Hw Hh) as Hcases.
  cbv zeta in Hcases. destruct Hcases as [[Heq Hle]|[Heq Hle]].
  - rewrite (side_exact HTw Hbw Heq).
    split; [lia|]. split; [exact (side_within HTh Hbh Hle)|]. now left.
  - rewrite (side_exact HTh Hbh Heq).
    split; [exact (side_within HTw Hbw Hle)|]. split; [lia|]. now right.
Qed.

(** A target no smaller than the bitmap on either side: the scale is 1. *)
Lemma keeps_size bmp cfg cw ch (tW tH : Q) :
  requested bmp cfg cw ch = (tW, tH) ->
  Qmin tW (inject_Z (bmp_width bmp)) == inject_Z (bmp_width bmp) ->
  Qmin tH (inject_Z (bmp_height bmp)) == inject_Z (bmp_height bmp) ->
  (1 <= bmp_width bmp)%Z -> (1 <= bmp_height bmp)%Z ->
  output_size bmp cfg cw ch = (bmp_width bmp, bmp_height bmp).
Proof.
  intros Hreq Hw Hh Hbw1 Hbh1.
  destruct (bitmap_sides bmp) as [Hbw Hbh].
  assert (Hone : forall b : Z, (1 <= b)%Z -> fl (inject_Z b / inject_Z b) == 1).
  { intros b Hb. transitivity (fl 1); [|apply fl_one].
    apply fl_comp. apply Qmult_inv_r.
    intros H. pose proof (inject_Z_pos Hb) as Hpos. rewrite H in Hpos.
    now apply Qlt_irrefl in Hpos. }
  pose proof (@scale_cases bmp cfg cw ch tW tH _ _ Hreq Hw Hh) as Hcases.
  cbv zeta in Hcases.
  assert (Hscale : resize_scale bmp cfg cw ch == 1).
  { destruct Hcases as [[Heq _]|[Heq _]]; rewrite Heq; now apply Hone. }
  unfold output_size. f_equal.
  - apply side_exact; [lia|exact Hbw|]. rewrite Hscale. symmetry. now apply Hone.
  - apply side_exact; [lia|exact Hbh|]. rewrite Hscale. symmetry. now apply Hone.
Qed.

End SizingFacts.

Module TargetFacts.

Import ImageReduce ImageReduceFacts SizingFacts Binary64 Binary64Facts.
Local Open Scope string_scope.

Lemma truthy (q : Q) : (1 <= q)%Q -> falsy (Some q) = false.
Proof.
  intros Hq. unfold falsy. destruct (Qeq_bool q 0) eqn:H; [|reflexivity].
  apply Qeq_bool_eq in H. lra.
Qed.

Lemma truthy_inject_Z (t : Z) : (1 <= t)%Z -> falsy (Some (inject_Z t)) = false.
Proof. intros Ht. apply truthy. now apply inject_Z_ge_1. Qed.

(** The Number a typed whole number of at least 1 converts to. *)
Lemma Number_ge_1 (z : Z) : (1 <= z)%Z -> (1 <= Number_of_Z z)%Q.
Proof.
  intros Hz. unfold Number_of_Z. rewrite <- fl_one at 1.
  apply fl_mono. now apply inject_Z_ge_1.
Qed.

(** Clamped to a side of the bitmap, the Number is the smaller of the
    typed number and the side. *)
Lemma clamp_Number (z B : Z) :
  (0 <= z)%Z -> (1 <= B < 4294967296)%Z ->
  (Qmin (Number_of_Z z) (inject_Z B) == inject_Z (Z.min z B))%Q.
Proof.
  intros Hz HB. unfold Number_of_Z.
  destruct (Z_lt_le_dec z (2 ^ 53)) as [Hsmall|Hbig].
  - rewrite (Qmin_comp_l (inject_Z B) (fl_Z z ltac:(lia))). apply Qmin_inject_Z.
  - rewrite Z.min_r by lia. apply Q.min_r.
    assert (H53 : (fl (inject_Z (2 ^ 53)) == inject_Z (2 ^ 53))%Q).
    { apply (@fl_id (inject_Z (2 ^ 53)) 1 53); [reflexivity|reflexivity|lia]. }
    apply Qle_trans with (y := inject_Z (2 ^ 53)).
    + rewrite <- Zle_Qle. lia.
    + apply Qle_trans with (y := fl (inject_Z (2 ^ 53))).
      * rewrite H53. apply Qle_refl.
      * apply fl_mono. now rewrite <- Zle_Qle.
Qed.

Lemma requested_preset bmp (c : Preset) cw ch (tw th : Z) :
  width c = inject_Z tw -> height c = inject_Z th ->
  (1 <= tw)%Z -> (1 <= th)%Z ->
  requested bmp (Some c) cw ch = (inject_Z tw, inject_Z th).
Proof.
  intros Hw Hh Htw Hth. unfold requested. rewrite Hw, Hh.
  rewrite (truthy_inject_Z Htw), (truthy_inject_Z Hth). reflexivity.
Qed.

Lemma requested_typed bmp (w h : nat) :
  1 <= w -> 1 <= h ->
  requested bmp None (Js.string_of_nat w) (Js.string_of_nat h)
  = (Number_of_Z (Z.of_nat w), Number_of_Z (Z.of_nat h)).
Proof.
  intros Hw Hh. unfold requested.
  rewrite !ParseFacts.or_zero_string_of_nat, !ParseFacts.parseInt_string_of_nat.
  cbn [option_map].
  rewrite (truthy (@Number_ge_1 (Z.of_nat w) ltac:(lia))).
  rewrite (truthy (@Number_ge_1 (Z.of_nat h) ltac:(lia))).
  reflexivity.
Qed.

Lemma requested_blank bmp cw ch :
  (1 <= bmp_width bmp)%Z -> (1 <= bmp_height bmp)%Z ->
  cw = "" \/ ch = "" ->
  requested bmp None cw ch
  = (inject_Z ((bmp_width bmp + 1) / 2), inject_Z ((bmp_height bmp + 1) / 2)).
Proof.
  intros Hbw Hbh H. destruct (bitmap_sides bmp) as [Hw Hh].
  unfold requested. rewrite !Math_round_half by lia.
  assert (Hzero : falsy (option_map Number_of_Z (Js.parseInt (or_zero ""))) = true)
    by (vm_compute; reflexivity).
  destruct H as [-> | ->]; rewrite Hzero.
  - reflexivity.
  - now rewrite orb_true_r.
Qed.

End TargetFacts.

Section ImageTargets.

Import ImageReduce.
Local Open Scope string_scope.

(** X13.  With an exam preset of W x H pixels the image is scaled, sides
    in proportion, to fit inside W x H and inside its own size: neither
    side exceeds the preset or the source, and one side meets that bound
    exactly.  A preset at least as large as the image leaves its size
    unchanged. *)
Theorem preset_output_fits_the_box
    (s : State) (bmp : ImageBitmap) (c : Preset) (tw th : Z) :
  getCurrentConfig s = Some c ->
  width c = inject_Z tw -> height c = inject_Z th ->
  (1 <= tw)%Z -> (1 <= th)%Z ->
  (1 <= bmp_width bmp)%Z -> (1 <= bmp_height bmp)%Z ->
  let out := output_size bmp (getCurrentConfig s) (customWidth s) (customHeight s) in
  (1 <= fst out <= Z.min tw (bmp_width bmp))%Z /\
  (1 <= snd out <= Z.min th (bmp_height bmp))%Z /\
  (fst out = Z.min tw (bmp_width bmp) \/ snd out = Z.min th (bmp_height bmp)) /\
  ((bmp_width bmp <= tw)%Z -> (bmp_height bmp <= th)%Z ->
   out = (bmp_width bmp, bmp_height bmp)).
Proof.
  intros Hcfg Hw Hh Htw Hth Hbw Hbh. cbv zeta. rewrite Hcfg.
  pose proof (@TargetFacts.requested_preset bmp c (customWidth s) (customHeight s)
                tw th Hw Hh Htw Hth) as Hreq.
  pose proof (SizingFacts.Qmin_inject_Z tw (bmp_width bmp)) as Hcw.
  pose proof (SizingFacts.Qmin_inject_Z th (bmp_height bmp)) as Hch.
  pose proof (@SizingFacts.fits_box bmp (Some c) (customWidth s) (customHeight s)
                _ _ _ _ Hreq Hcw Hch ltac:(lia) ltac:(lia)) as Hfit.
  cbv zeta in Hfit. destruct Hfit as (H1 & H2 & H3).
  split; [exact H1|]. split; [exact H2|]. split; [exact H3|].
  intros Hle1 Hle2.
  apply (@SizingFacts.keeps_size bmp (Some c) _ _ _ _ Hreq); try assumption.
  - rewrite Hcw. now rewrite Z.min_r by lia.
  - rewrite Hch. now rewrite Z.min_r by lia.
Qed.

(** X14.  With no exam selected and a width W and a height H typed as
    decimal numbers of at least 1, the image is scaled the same way to
    fit inside W x H and inside its own size. *)
Theorem typed_output_fits_the_box (bmp : ImageBitmap) (w h : nat) :
  1 <= w -> 1 <= h ->
  (1 <= bmp_width bmp)%Z -> (1 <= bmp_height bmp)%Z ->
  let out := output_size bmp None (Js.string_of_nat w) (Js.string_of_nat h) in
  (1 <= fst out <= Z.min (Z.of_nat w) (bmp_width bmp))%Z /\
  (1 <= snd out <= Z.min (Z.of_nat h) (bmp_height bmp))%Z /\
  (fst out = Z.min (Z.of_nat w) (bmp_width bmp) \/
   snd out = Z.min (Z.of_nat h) (bmp_height bmp)) /\
  ((bmp_width bmp <= Z.of_nat w)%Z -> (bmp_height bmp <= Z.of_nat h)%Z ->
   out = (bmp_width bmp, bmp_height bmp)).
Proof.
  intros Hw Hh Hbw Hbh. cbv zeta.
  destruct (ImageReduceFacts.bitmap_sides bmp) as [Hsw Hsh].
  pose proof (@TargetFacts.requested_typed bmp w h Hw Hh) as Hreq.
  pose proof (@TargetFacts.clamp_Number (Z.of_nat w) (bmp_width bmp)
                ltac:(lia) ltac:(lia)) as Hcw.
  pose proof (@TargetFacts.clamp_Number (Z.of_nat h) (bmp_height bmp)
                ltac:(lia) ltac:(lia)) as Hch.
  pose proof (@SizingFacts.fits_box bmp None _ _ _ _ _ _ Hreq Hcw Hch
                ltac:(lia) ltac:(lia)) as Hfit.
  cbv zeta in Hfit. destruct Hfit as (H1 & H2 & H3).
  split; [exact H1|]. split; [exact H2|]. split; [exact H3|].
  intros Hle1 Hle2.
  apply (@SizingFacts.keeps_size bmp None _ _ _ _ Hreq); try assumption.
  - rewrite Hcw. now rewrite Z.min_r by lia.
  - rewrite Hch. now rewrite Z.min_r by lia.
Qed.

(** X15.  With no exam selected and the width or the height left blank,
    the image comes out at half its size on each side, a half pixel
    rounded up. *)
Theorem blank_size_halves_the_image (bmp : ImageBitmap) (cw ch : string) :
  (1 <= bmp_width bmp)%Z -> (1 <= bmp_height bmp)%Z ->
  cw = "" \/ ch = "" ->
  output_size bmp None cw ch
  = ((bmp_width bmp + 1) / 2, (bmp_height bmp + 1) / 2)%Z.
Proof.
  intros Hbw Hbh Hblank.
  destruct (ImageReduceFacts.bitmap_sides bmp) as [Hsw Hsh].
  pose proof (@TargetFacts.requested_blank bmp cw ch Hbw Hbh Hblank) as Hreq.
  set (hw := ((bmp_width bmp + 1) / 2)%Z) in *.
  set (hh := ((bmp_height bmp + 1) / 2)%Z) in *.
  assert (Hhw : (1 <= hw <= bmp_width bmp /\ bmp_width bmp <= 2 * hw)%Z).
  { subst hw. pose proof (Z.div_mod (bmp_width bmp + 1) 2 ltac:(lia)).
    pose proof (Z.mod_pos_bound (bmp_width bmp + 1) 2 ltac:(lia)). lia. }
  assert (Hhh : (1 <= hh <= bmp_height bmp /\ bmp_height bmp <= 2 * hh)%Z).
  { subst hh. pose proof (Z.div_mod (bmp_height bmp + 1) 2 ltac:(lia)).
    pose proof (Z.mod_pos_bound (bmp_height bmp + 1) 2 ltac:(lia)). lia. }
  assert (Hcw : (Qmin (inject_Z hw) (inject_Z (bmp_width bmp)) == inject_Z hw)%Q).
  { rewrite SizingFacts.Qmin_inject_Z. now rewrite Z.min_l by lia. }
  assert (Hch : (Qmin (inject_Z hh) (inject_Z (bmp_height bmp)) == inject_Z hh)%Q).
  { rewrite SizingFacts.Qmin_inject_Z. now rewrite Z.min_l by lia. }
  pose proof (@SizingFacts.fits_box bmp None cw ch _ _ hw hh Hreq Hcw Hch
                ltac:(lia) ltac:(lia)) as Hfit.
  cbv zeta in Hfit. destruct Hfit as (H1 & H2 & _).
  (* neither side falls below half: the scale is at least one half *)
  assert (Hhalf : (1 # 2 <= resize_scale bmp None cw ch)%Q).
  { assert (Hr : forall b m : Z, (1 <= b)%Z -> (b <= 2 * m)%Z ->
                 (1 # 2 <= Binary64.fl (inject_Z m / inject_Z b))%Q).
    { intros b m Hb Hm.
      rewrite <- (Binary64Facts.fl_half_Z 1 ltac:(reflexivity)).
      apply Binary64Facts.fl_mono.
      apply Qle_shift_div_l; [now apply SizingFacts.inject_Z_pos|].
      unfold Qle, Qmult, inject_Z. cbn [Qnum Qden]. lia. }
    pose proof (@SizingFacts.scale_cases bmp None cw ch _ _ hw hh Hreq Hcw Hch) as Hcases.
    cbv zeta in Hcases.
    destruct Hcases as [[Heq _]|[Heq _]]; rewrite Heq; apply Hr; lia. }
  assert (Hlow : forall b : Z, (1 <= b < 4294967296)%Z ->
            ((b + 1) / 2
             <= Z.max 1 (Js.Math_round
                           (Binary64.fl (inject_Z b * resize_scale bmp None cw ch))))%Z).
  { intros b Hb. rewrite <- (SizingFacts.Math_round_half Hb).
    etransitivity; [|apply Z.le_max_r].
    apply JsFacts.Math_round_mono, Binary64Facts.fl_mono.
    apply Qmult_le_l; [apply SizingFacts.inject_Z_pos; lia|exact Hhalf]. }
  unfold output_size in *. cbn [fst snd] in H1, H2.
  pose proof (Hlow (bmp_width bmp) ltac:(lia)).
  pose proof (Hlow (bmp_height bmp) ltac:(lia)).
  subst hw hh. f_equal; lia.
Qed.

(** X16.  The size shown in KB is within 0.05 of the exact figure, and a
    larger file is never shown as smaller. *)
Theorem bytesToKB_is_accurate (a b : N) :
  (Qabs (bytesToKB a - inject_Z (Z.of_N a) / 1024) <= 1 # 20)%Q /\
  ((a <= b)%N -> (bytesToKB a <= bytesToKB b)%Q).
Proof.
  split.
  - unfold bytesToKB.
    set (x := (inject_Z (Z.of_N a) / 1024)%Q).
    destruct (JsFacts.Math_round_near (x * 10)%Q) as [Hlo Hhi].
    set (r := inject_Z (Js.Math_round (x * 10)%Q)) in *.
    apply Qabs_case; intros _.
    + apply Qle_minus_iff. apply Qle_minus_iff in Hhi.
      setoid_replace ((1 # 20) + - (r / 10 - x))%Q
        with (((x * 10 + (1 # 2)) + - r) / 10)%Q by field.
      apply Qle_shift_div_l; [reflexivity|]. now rewrite Qmult_0_l.
    + apply Qlt_le_weak in Hlo. apply Qle_minus_iff. apply Qle_minus_iff in Hlo.
      setoid_replace ((1 # 20) + - - (r / 10 - x))%Q
        with ((r + - (x * 10 - (1 # 2))) / 10)%Q by field.
      apply Qle_shift_div_l; [reflexivity|]. now rewrite Qmult_0_l.
  - intros Hab. unfold bytesToKB.
    apply Qmult_le_compat_r; [|discriminate].
    rewrite <- Zle_Qle. apply JsFacts.Math_round_mono.
    apply Qmult_le_compat_r; [|discriminate].
    apply Qmult_le_compat_r; [|discriminate].
    rewrite <- Zle_Qle. lia.
Qed.

End ImageTargets.

Section UploadOutcome.

Import ImageReduce.
Local Open Scope string_scope.

Variable toBlob : Z -> Z -> string -> Q -> option N.

(** X17.  Resize ends without an error exactly when an image is
    selected, the browser decodes it and the canvas encoder hands back a
    blob; the result then has the computed size and reports the
    encoder's byte count in KB, whatever the preset's maxKB.  A run that
    ends in an error leaves the result and the success flag of an
    earlier run in place. *)
Theorem upload_outcome (s : State) :
  let s' := handleUpload toBlob s in
  (error s' = "" ->
     exists sel bmp r,
       selectedFile s = Some sel /\ bitmap sel = inl bmp /\
       resizedImage s' = Some r /\ success s' = true /\ loading s' = false /\
       (canvas_width (url r), canvas_height (url r))
         = output_size bmp (getCurrentConfig s) (customWidth s) (customHeight s) /\
       toBlob (canvas_width (url r)) (canvas_height (url r))
              (mime (url r)) (encoder_quality (url r)) = Some (blob_size (url r)) /\
       sizeKB r = bytesToKB (blob_size (url r))) /\
  (error s' <> "" ->
     resizedImage s' = resizedImage s /\ success s' = success s) /\
  (forall sel bmp,
     selectedFile s = Some sel -> bitmap sel = inl bmp ->
     (error s' = "" <->
      exists w h m q, toBlob w h m q <> None /\
        (w, h) = output_size bmp (getCurrentConfig s) (customWidth s) (customHeight s) /\
        m = (if String.eqb (format s) "png" then "image/png"
             else if String.eqb (format s) "webp" then "image/webp"
             else "image/jpeg") /\
        q = (if String.eqb m "image/png" then 1%Q
             else Qmax (Binary64.fl (1 # 100)) (Binary64.fl (quality s / 100))))).
Proof.
  cbv zeta. unfold handleUpload.
  destruct (selectedFile s) as [sel|] eqn:Hsel.
  2:{ cbn. repeat split; try discriminate; try reflexivity. }
  unfold try_catch_finally, upload_body, bind, await, set.
  destruct (bitmap sel) as [bmp|m] eqn:Hbmp.
  2:{ split; [|split].
      - cbn. destruct (String.eqb_spec m ""); [discriminate|].
        intros H. congruence.
      - intros _. cbn. auto.
      - intros sel' bmp' Hs Hb. inversion Hs; subst. congruence. }
  destruct (output_size bmp (getCurrentConfig s) (customWidth s) (customHeight s))
    as [outW outH] eqn:Hout.
  match goal with |- context [toBlob ?w ?h ?m ?q] =>
    destruct (toBlob w h m q) as [n|] eqn:Hblob end.
  - split; [|split].
    + intros _. eexists sel, bmp, _.
      split; [reflexivity|]. split; [exact Hbmp|]. split; [cbn; reflexivity|].
      split; [reflexivity|]. split; [reflexivity|].
      split; [symmetry; exact Hout|].
      split; [exact Hblob|reflexivity].
    + cbn. intros H. now contradiction H.
    + intros sel' bmp' Hs Hb. inversion Hs; subst sel'.
      rewrite Hbmp in Hb. inversion Hb; subst bmp'. rewrite Hout.
      split; [|reflexivity].
      intros _. eexists outW, outH, _, _.
      split; [|split; [reflexivity|split; reflexivity]].
      rewrite Hblob. discriminate.
  - split; [|split].
    + cbn. discriminate.
    + intros _. cbn. auto.
    + intros sel' bmp' Hs Hb. inversion Hs; subst sel'.
      rewrite Hbmp in Hb. inversion Hb; subst bmp'. rewrite Hout.
      split; [cbn; discriminate|].
      intros (w & h & m & q & Hsome & Hwh & -> & ->).
      inversion Hwh; subst. now contradiction Hsome.
Qed.

End UploadOutcome.

(** ** Removebg and the remove.bg proxy *)

Section BackgroundRemoval.

Import Removebg.
Local Open Scope string_scope.

(** X18.  Remove Background, sent through the proxy: when remove.bg
    answers with a success status the image it returned becomes the
    processed image; when it answers with another status its own text is
    shown as the error, or a fixed message when the text is empty; when
    the call to remove.bg fails, the proxy's JSON error body is shown as
    it is.  In the two failing cases the earlier result stays. *)
Theorem removeBackground_through_proxy
    (removebg : Server.Upload -> Outcome Server.Upstream) (s : State) (f : ImageFile) :
  file s = Some f ->
  let s' := removeBackground (through_proxy removebg) s in
  loading s' = false /\ file s' = Some f /\
  match removebg (Server.mkUpload (content f) (name f) (type f)) with
  | Returned up =>
      if Server.ok (Server.upstream_status up)
      then processedImage s' = Some (Server.upstream_bytes up) /\
           success s' = true /\ error s' = ""
      else error s' = (if String.eqb (Server.upstream_text up) ""
                       then "Failed to remove background"
                       else Server.upstream_text up) /\
           processedImage s' = processedImage s /\ success s' = success s
  | Thrown _ =>
      error s' = Server.error_json "Proxy error" /\
      processedImage s' = processedImage s /\ success s' = success s
  end.
Proof.
  intros Hfile. cbv zeta. unfold removeBackground. rewrite Hfile.
  unfold try_catch_finally, remove_body, bind, await, set, through_proxy, Server.remove_bg.
  destruct (removebg _) as [up|e].
  - destruct (Server.ok (Server.upstream_status up)) eqn:Hok; cbn [negb].
    + cbn. rewrite Hfile. auto.
    + cbn [Server.status]. rewrite Hok. cbn [negb Server.body text_of].
      destruct (String.eqb_spec (Server.upstream_text up) "") as [Heq|Hne].
      * cbn. rewrite Hfile. auto.
      * cbn [message]. destruct (String.eqb_spec (Server.upstream_text up) "");
          [contradiction|].
        cbn. rewrite Hfile. auto.
  - cbn. rewrite Hfile. auto.
Qed.

(** X19.  Choosing a file in Removebg: a file whose type starts with
    image/ and whose size is at most 12 MiB becomes the selected file;
    any other is refused with a message, and the file selected before
    stays selected, so that Remove Background still sends that earlier
    file.  Either way the earlier result is cleared. *)
Theorem handleImageUpload_selection (f : ImageFile) (s : State) :
  let s1 := handleImageUpload (Some f) s in
  processedImage s1 = None /\ success s1 = false /\
  (prefix "image/" (type f) = true -> (size f <= 12 * 1024 * 1024)%N ->
     file s1 = Some f /\ error s1 = "") /\
  (prefix "image/" (type f) = false \/ (12 * 1024 * 1024 < size f)%N ->
     file s1 = file s /\ error s1 <> "" /\
     forall post f0 r,
       file s = Some f0 -> post f0 = Returned r ->
       Server.ok (Server.status r) = true ->
       processedImage (removeBackground post s1) = Some (blob_of (Server.body r))).
Proof.
  cbv zeta. unfold handleImageUpload.
  assert (Hkeeps : forall (msg : string) post f0 r,
            file s = Some f0 -> post f0 = Returned r ->
            Server.ok (Server.status r) = true ->
            processedImage
              (removeBackground post
                 (setError msg (setProcessedImage None (setSuccess false (setError "" s)))))
            = Some (blob_of (Server.body r))).
  { intros msg post f0 r Hf0 Hpost Hstatus.
    unfold removeBackground. cbn [file setError setProcessedImage setSuccess].
    rewrite Hf0. unfold try_catch_finally, remove_body, bind, await, set.
    rewrite Hpost, Hstatus. reflexivity. }
  destruct (prefix "image/" (type f)) eqn:Htype; cbn [negb].
  - destruct (N.ltb_spec (12 * 1024 * 1024) (size f)) as [Hbig|Hok].
    + split; [reflexivity|]. split; [reflexivity|]. split.
      * intros _ Hle. lia.
      * intros _. split; [reflexivity|]. split; [cbn; discriminate|]. apply Hkeeps.
    + split; [reflexivity|]. split; [reflexivity|]. split.
      * intros _ _. split; reflexivity.
      * intros [Hno|Hgt]; [discriminate|lia].
  - split; [reflexivity|]. split; [reflexivity|]. split.
    + intros Hyes. discriminate.
    + intros _. split; [reflexivity|]. split; [cbn; discriminate|]. apply Hkeeps.
Qed.

End BackgroundRemoval.

(** ** Dragging a row *)

Section Dragging.

Import MergePdfList.
Local Open Scope list_scope.

(** X20.  Dropping a dragged row on another row of the list puts the
    dragged row at the position of the row it was dropped on and keeps
    all other rows in the order they had; dropping it on itself, or a
    drop with no row being dragged, changes nothing. *)
Theorem onDropItem_places_the_row (A : Type) (from index : nat) (prev : list A) :
  from < length prev -> index < length prev ->
  (exists moved,
     onDropItem (Some from) index prev = map Some moved /\
     nth_error moved index = nth_error prev from /\
     firstn index moved ++ skipn (S index) moved
       = firstn from prev ++ skipn (S from) prev) /\
  onDropItem (Some index) index prev = map Some prev /\
  onDropItem None index prev = map Some prev.
Proof.
  intros Hfrom Hindex. split; [|split].
  - unfold onDropItem. destruct (Nat.eqb_spec from index) as [->|Hne].
    + exists prev. repeat split; reflexivity.
    + destruct (nth_error prev from) as [x|] eqn:Hx;
        [|apply nth_error_None in Hx; lia].
      pose proof (ReorderFacts.removed_length from prev Hx) as Hlen.
      set (rest := firstn from prev ++ skipn (S from) prev) in *.
      exists (firstn index rest ++ x :: skipn index rest).
      assert (Hfirst : length (firstn index rest) = index)
        by (rewrite length_firstn; lia).
      split; [exact (ReorderFacts.moveItem_in_range from index prev Hx)|]. split.
      * rewrite nth_error_app2 by lia. rewrite Hfirst, Nat.sub_diag. reflexivity.
      * rewrite (ReorderFacts.remove_at (firstn index rest) (skipn index rest) x Hfirst).
        apply firstn_skipn.
  - unfold onDropItem. now rewrite Nat.eqb_refl.
  - reflexivity.
Qed.

End Dragging.

(** ** Sizes as shown *)

Section ShownSizes.

Local Open Scope string_scope.

(** X21.  The three copies of [humanSize], of SplitPDF, CompressPDF and
    MergePDF, show the same text for every byte count, the special case
    for zero in SplitPDF's copy included; the text ends in B below
    1024 bytes, in KB below 1024 x 1024 bytes and in MB from there on. *)
Theorem humanSize_copies_agree (bytes : N) :
  SplitPdfUi.humanSize bytes = MergePdfList.humanSize bytes /\
  CompressPdfUi.humanSize bytes = MergePdfList.humanSize bytes /\
  Js.endsWith (MergePdfList.humanSize bytes)
    (if (bytes <? 1024)%N then " B"
     else if (bytes <? 1024 * 1024)%N then " KB" else " MB") = true.
Proof.
  split; [|split].
  - unfold SplitPdfUi.humanSize, MergePdfList.humanSize.
    destruct (N.eqb_spec bytes 0) as [->|_]; reflexivity.
  - reflexivity.
  - unfold MergePdfList.humanSize.
    destruct (bytes <? 1024)%N; [apply TextFacts.endsWith_append|].
    destruct (bytes <? 1024 * 1024)%N; apply TextFacts.endsWith_append.
Qed.

End ShownSizes.

(* ================================================================== *)
(** * Worked instances of the further properties *)

Module MoreInstances.

Local Open Scope string_scope.
Local Open Scope list_scope.

(** ** A scan named in capitals, with no MIME type *)

Lemma isPdfFile_ignores_extension_case_witness :
  SplitPdf.isPdfFile MoreSamples.big_scan = true /\
  CompressPdfUi.isPdfFile MoreSamples.big_scan = true.
Proof.
  apply (@isPdfFile_ignores_extension_case MoreSamples.big_scan "Archive" ".PDF");
    reflexivity.
Defined.

(** ** Download All after a split of five pages *)

Lemma downloadAll_saves_every_page_once_witness :
  let run := SplitPdfUi.downloadAll MoreSamples.five_split in
  length (snd run) = 5 /\
  NoDup (map SplitPdfUi.download (snd run)) /\
  SplitPdf.progress (fst run) = "All pages downloaded".
Proof.
  destruct (@downloadAll_saves_every_page_once Samples.flat_writer
              (Samples.split_loaded Samples.five_pages) Samples.five_pages
              eq_refl eq_refl eq_refl ltac:(discriminate))
    as (Hhref & Hnodup & Hprogress & _).
  cbv zeta. split; [|split; [exact Hnodup|exact Hprogress]].
  apply (f_equal (@length _)) in Hhref. rewrite !length_map in Hhref. exact Hhref.
Defined.

(** ** Dropping a plain and an encrypted document on an empty list *)

Lemma onDrop_lists_page_counts_witness :
  map MergePdf.pages
    (MergePdf.items
       (MergePdf.onDrop [("1", Samples.doc_A); ("2", Samples.doc_encrypted)]
          MergePdf.initial))
  = [Some 3; Some 2].
Proof.
  rewrite (@onDrop_lists_page_counts
             [("1", Samples.doc_A); ("2", Samples.doc_encrypted)] MergePdf.initial).
  - reflexivity.
  - simpl. repeat constructor; simpl; intuition discriminate.
Defined.

(** ** Removing the first of two rows *)

Lemma removeItem_removes_one_row_witness :
  MergePdf.items (MergePdfList.removeItem "1" (Samples.listed [Samples.A; Samples.B]))
  = [Samples.B].
Proof.
  assert (Hnodup : NoDup (map MergePdf.id
                            (MergePdf.items (Samples.listed [Samples.A; Samples.B])))).
  { simpl. repeat constructor; simpl; intuition discriminate. }
  destruct (@removeItem_removes_one_row (Samples.listed [Samples.A; Samples.B]) "1" Hnodup)
    as [Hrow _].
  exact (Hrow [] Samples.A [Samples.B] eq_refl eq_refl).
Defined.

(** ** Estimated pages of two listed documents *)

Lemma estimated_pages_match_merged_document_witness :
  exists merged,
    MergePdf.mergedPages (MergePdf.mergePDFs (Samples.listed [Samples.A; Samples.B]))
      = Some merged /\
    length merged = 5.
Proof.
  apply (@estimated_pages_match_merged_document (Samples.listed [Samples.A; Samples.B])).
  - simpl. lia.
  - vm_compute. discriminate.
  - reflexivity.
  - intros it [<-|[<-|[]]]; reflexivity.
Defined.

(** ** A 1200 x 800 photograph *)

Lemma preset_output_fits_the_box_witness :
  let out := ImageReduce.output_size (ImageReduce.mkBitmap 1200 800 eq_refl)
               (ImageReduce.getCurrentConfig (Samples.selected Samples.photograph "SSC"))
               "" "" in
  (1 <= fst out <= 200)%Z /\ (1 <= snd out <= 230)%Z /\
  (fst out = 200 \/ snd out = 230)%Z.
Proof.
  pose proof (@preset_output_fits_the_box
                (Samples.selected Samples.photograph "SSC")
                (ImageReduce.mkBitmap 1200 800 eq_refl)
                (ImageReduce.mkPreset (inject_Z 200) (inject_Z 230) (inject_Z 50))
                200 230 eq_refl eq_refl eq_refl
                ltac:(lia) ltac:(lia) ltac:(simpl; lia) ltac:(simpl; lia)) as H.
  cbv zeta in H. destruct H as (Hw & Hh & Hone & _).
  cbv zeta. split; [exact Hw|]. split; [exact Hh|exact Hone].
Defined.

Lemma typed_output_fits_the_box_witness :
  let out := ImageReduce.output_size (ImageReduce.mkBitmap 1200 800 eq_refl) None
               (Js.string_of_nat 300) (Js.string_of_nat 300) in
  (1 <= fst out <= 300)%Z /\ (1 <= snd out <= 300)%Z /\
  (fst out = 300 \/ snd out = 300)%Z.
Proof.
  pose proof (@typed_output_fits_the_box (ImageReduce.mkBitmap 1200 800 eq_refl) 300 300
                ltac:(lia) ltac:(lia) ltac:(simpl; lia) ltac:(simpl; lia)) as H.
  cbv zeta in H. destruct H as (Hw & Hh & Hone & _).
  cbv zeta. split; [exact Hw|]. split; [exact Hh|exact Hone].
Defined.

Lemma blank_size_halves_the_image_witness :
  ImageReduce.output_size (ImageReduce.mkBitmap 1200 800 eq_refl) None "" "" = (600, 400)%Z.
Proof.
  apply (@blank_size_halves_the_image (ImageReduce.mkBitmap 1200 800 eq_refl) "" "");
    [simpl; lia | simpl; lia | left; reflexivity].
Defined.

(** ** remove.bg out of credits *)

Lemma removeBackground_through_proxy_witness :
  let s' := Removebg.removeBackground
              (Removebg.through_proxy MoreSamples.out_of_credits) MoreSamples.with_logo in
  Removebg.error s' = "Insufficient credits" /\ Removebg.processedImage s' = None.
Proof.
  pose proof (@removeBackground_through_proxy MoreSamples.out_of_credits
                MoreSamples.with_logo MoreSamples.logo eq_refl) as H.
  cbv zeta in H. destruct H as (_ & _ & H).
  cbv zeta. exact (conj (proj1 H) (proj1 (proj2 H))).
Defined.

(** ** Dragging the first of three rows onto the last *)

Lemma onDropItem_places_the_row_witness :
  exists moved,
    MergePdfList.onDropItem (Some 0) 2 [Samples.A; Samples.B; Samples.C] = map Some moved /\
    nth_error moved 2 = Some Samples.A.
Proof.
  destruct (@onDropItem_places_the_row MergePdf.Item 0 2 [Samples.A; Samples.B; Samples.C]
              ltac:(simpl; lia) ltac:(simpl; lia))
    as [(moved & Hmoved & Hnth & _) _].
  exists moved. split; [exact Hmoved|exact Hnth].
Defined.

(** ** Further instances, for the properties stated case by case *)

Lemma split_handleFileSet_accepts_witness :
  SplitPdf.file (fst (SplitPdf.handleFileSet Samples.five_pages SplitPdf.initial))
    = Some Samples.five_pages /\
  SplitPdf.file (fst (SplitPdf.handleFileSet MoreSamples.big_scan SplitPdf.initial)) = None.
Proof.
  pose proof (@split_handleFileSet_accepts Samples.five_pages SplitPdf.initial) as H1.
  pose proof (@split_handleFileSet_accepts MoreSamples.big_scan SplitPdf.initial) as H2.
  cbv zeta in H1, H2.
  destruct H1 as (_ & Hyes & _). destruct H2 as (_ & _ & Hno & _).
  split; [apply Hyes; reflexivity | apply Hno; reflexivity].
Defined.

Lemma page_counters_ignore_encryption_witness :
  SplitPdf.pages (SplitPdf.readPdfPages Samples.doc_encrypted SplitPdf.initial) = Some 2 /\
  CompressPdf.pages (CompressPdfUi.readPdf Samples.doc_encrypted CompressPdf.initial) = Some 2.
Proof.
  pose proof (@page_counters_ignore_encryption Samples.doc_encrypted
                SplitPdf.initial CompressPdf.initial) as H.
  cbv zeta in H. destruct H as (_ & _ & Hyes & _).
  destruct (Hyes eq_refl) as (Hs & _ & Hc & _). split; [exact Hs|exact Hc].
Defined.

Lemma compress_selectFile_witness :
  CompressPdf.file (CompressPdfUi.selectFile MoreSamples.big_scan CompressPdf.initial)
    = Some MoreSamples.big_scan /\
  CompressPdf.pages (CompressPdfUi.selectFile MoreSamples.big_scan CompressPdf.initial)
    = Some 1.
Proof.
  pose proof (@compress_selectFile MoreSamples.big_scan CompressPdf.initial
                SplitPdf.initial) as H.
  cbv zeta in H. destruct H as (_ & _ & _ & _ & _ & Hyes).
  destruct (Hyes eq_refl) as (Hfile & _ & Hpages & _).
  split; [exact Hfile|]. exact (proj1 (Hpages eq_refl)).
Defined.

Lemma onDrop_admits_pdfs_up_to_the_limit_witness :
  map MergePdf.file
    (MergePdf.items
       (MergePdf.onDrop [("1", Samples.doc_A); ("2", MoreSamples.big_scan);
                         ("3", Samples.doc_B)] MergePdf.initial))
  = [Samples.doc_A; Samples.doc_B].
Proof.
  pose proof (@onDrop_admits_pdfs_up_to_the_limit
                [("1", Samples.doc_A); ("2", MoreSamples.big_scan); ("3", Samples.doc_B)]
                MergePdf.initial) as H.
  cbv zeta in H. destruct H as (Hfiles & _). exact Hfiles.
Defined.

Lemma moveItem_rearranges_witness :
  (exists moved,
     MergePdfList.moveItem 0 2 [Samples.A; Samples.B; Samples.C] = map Some moved /\
     Permutation [Samples.A; Samples.B; Samples.C] moved) /\
  In None (MergePdfList.moveItem 3 0 [Samples.A; Samples.B; Samples.C]).
Proof.
  destruct (@moveItem_rearranges MergePdf.Item 0 2 [Samples.A; Samples.B; Samples.C])
    as [Hin _].
  destruct (@moveItem_rearranges MergePdf.Item 3 0 [Samples.A; Samples.B; Samples.C])
    as [_ Hout].
  destruct (Hin ltac:(simpl; lia)) as (moved & Hmoved & Hperm & _).
  destruct (Hout ltac:(simpl; lia)) as [Hnone _].
  split; [exists moved; split; assumption | exact Hnone].
Defined.

Lemma mergePDFs_outcome_witness :
  MergePdf.error (MergePdf.mergePDFs (Samples.listed [Samples.A]))
    = "Select at least two PDF files to merge." /\
  MergePdf.isProcessing (MergePdf.mergePDFs (Samples.listed [Samples.A; Samples.B])) = false.
Proof.
  pose proof (@mergePDFs_outcome (Samples.listed [Samples.A])) as H1.
  pose proof (@mergePDFs_outcome (Samples.listed [Samples.A; Samples.B])) as H2.
  cbv zeta in H1, H2.
  destruct H1 as (_ & Hfew & _). destruct H2 as (_ & _ & _ & Hrun).
  split.
  - exact (proj2 (proj2 (proj2 (Hfew ltac:(simpl; lia))))).
  - exact (proj1 (Hrun ltac:(simpl; lia) ltac:(vm_compute; discriminate))).
Defined.

Lemma bytesToKB_is_accurate_witness :
  (ImageReduce.bytesToKB 1000 <= ImageReduce.bytesToKB 2000)%Q.
Proof.
  exact (proj2 (@bytesToKB_is_accurate 1000 2000) ltac:(vm_compute; discriminate)).
Defined.

Lemma upload_outcome_witness :
  exists r,
    ImageReduce.resizedImage
      (ImageReduce.handleUpload Samples.flat_encoder
         (Samples.selected Samples.photograph "SSC")) = Some r /\
    ImageReduce.sizeKB r = ImageReduce.bytesToKB (ImageReduce.blob_size (ImageReduce.url r)).
Proof.
  pose proof (@upload_outcome Samples.flat_encoder
                (Samples.selected Samples.photograph "SSC")) as H.
  cbv zeta in H. destruct H as (Hok & _).
  destruct (Hok eq_refl) as (sel & bmp & r & _ & _ & Hr & _ & _ & _ & _ & Hkb).
  exists r. split; [exact Hr|exact Hkb].
Defined.

Lemma handleImageUpload_selection_witness :
  Removebg.file (Removebg.handleImageUpload (Some MoreSamples.logo) Removebg.initial)
    = Some MoreSamples.logo.
Proof.
  pose proof (@handleImageUpload_selection MoreSamples.logo Removebg.initial) as H.
  cbv zeta in H. destruct H as (_ & _ & Hyes & _).
  exact (proj1 (Hyes eq_refl ltac:(vm_compute; discriminate))).
Defined.

End MoreInstances.
